(** * jrockway/display: the aggregation and rendering pipeline

    A shallow embedding of the Go packages [mesonet] (the weather-station
    client) and [pages] (the display: fetch jobs, the concurrent update
    cycle, the renderer and the HTTP handlers), followed by the properties
    proved about them.

    Conventions.
    - [float64] is Rocq's primitive binary64 float; arithmetic and
      comparisons are the IEEE 754 ones Go uses.
    - Go [int] and [uint8] values are [Z]; [[]byte] is [list byte]; Go
      strings are [string]. The integers computed here are coordinates,
      sizes and counts of buffers and slices held in memory, far from the
      ends of the int64 range, so no wrap-around is written out; durations
      saturate as [time.Sub] makes them.
    - Memory is not bounded: an allocation of a non-negative size succeeds.
    - An [error] is its message; [nil] is [None].
    - A run-time panic is the [Panic] outcome.
    - [*image.RGBA] is a location in a store of pixel buffers, so that
      aliasing and in-place writes are visible. *)

From Stdlib Require Import ZArith List String Ascii Floats Lia.
From Stdlib Require Import Strings.Byte.
From stdpp Require Import base option list gmap strings pretty.

Set Warnings "-inexact-float,-register-all".
Local Open Scope Z_scope.

(** ** Go run-time conventions *)

Definition error := string.

Inductive panic : Type :=
| IndexOutOfRange (index len : Z)
| MakesliceLenOutOfRange
| ReflectTypeOfZeroValue.

Inductive outcome (A : Type) : Type :=
| Normal (a : A)
| Panic (p : panic).
Arguments Normal {A} a.
Arguments Panic {A} p.

#[global] Instance outcome_ret : MRet outcome := fun A a => Normal a.
#[global] Instance outcome_bind : MBind outcome := fun A B k o =>
  match o with
  | Normal a => k a
  | Panic p => Panic p
  end.

(** [s[i]] on a slice: a panic when [i] is out of range. *)
Definition index {A} (s : list A) (i : Z) : outcome A :=
  if (i <? 0) || (Z.of_nat (length s) <=? i) then Panic (IndexOutOfRange i (Z.of_nat (length s)))
  else match s !! Z.to_nat i with
       | Some a => Normal a
       | None => Panic (IndexOutOfRange i (Z.of_nat (length s)))
       end.

(** [s[i] = a]. *)
Definition assign_index {A} (s : list A) (i : Z) (a : A) : outcome (list A) :=
  if (i <? 0) || (Z.of_nat (length s) <=? i) then Panic (IndexOutOfRange i (Z.of_nat (length s)))
  else Normal (<[Z.to_nat i := a]> s).

(** [for i := lo; i < hi; i++ { s = body i s }]. *)
Definition for_range {S} (lo hi : Z) (body : Z -> S -> S) (s : S) : S :=
  foldl (fun s i => body i s) s (seqZ lo (hi - lo)).

(** [float64(n)] for an integer [n]. *)
Definition float64_of_int (n : Z) : float :=
  SF2Prim (binary_normalize prec emax n 0 false).

(** [x != 0] on float64: false for both zeros, true for NaN. *)
Definition float_nonzero (x : float) : bool := negb (PrimFloat.eqb x 0%float).

(** *** fmt: the verbs the display uses *)

Module fmt.

(** [%d]. *)
Definition d (n : Z) : string := pretty n.

Definition pad_zeros (width : nat) (s : string) : string :=
  string_of_list_ascii (replicate (width - String.length s) "0"%char) +:+ s.

(** The decimal digits of [q / 10^prec] with [prec] digits after the point. *)
Definition fixed (prec : nat) (q : Z) : string :=
  let scale := 10 ^ Z.of_nat prec in
  match prec with
  | O => pretty q
  | _ => pretty (q / scale) +:+ "." +:+ pad_zeros prec (pretty (q mod scale))
  end.

(** [num / den] rounded to the nearest integer, ties to even. *)
Definition round_half_even (num den : Z) : Z :=
  let q := num / den in
  let r := num mod den in
  if (den <? 2 * r) || ((den =? 2 * r) && Z.odd q) then q + 1 else q.

(** [%.<prec>f] on a float64: the exact binary value, rounded half-even
    to [prec] decimals; [NaN], [+Inf] and [-Inf] for the specials. *)
Definition f (prec : nat) (x : float) : string :=
  match Prim2SF x with
  | S754_nan => "NaN"
  | S754_infinity s => if s then "-Inf" else "+Inf"
  | S754_zero s => (if s then "-" else "") +:+ fixed prec 0
  | S754_finite s m e =>
      let num := Z.pos m * 10 ^ Z.of_nat prec in
      let q := if 0 <=? e then num * 2 ^ e else round_half_even num (2 ^ (- e)) in
      (if s then "-" else "") +:+ fixed prec q
  end.

End fmt.

(** *** path.Ext *)

Module path.

(** Scans backwards for the last dot of the final slash-separated
    element; [rev_tl] is the path read from its end, [acc] what was read. *)
Fixpoint ext_scan (rev_tl : list ascii) (acc : list ascii) : list ascii :=
  match rev_tl with
  | [] => []
  | c :: rest =>
      if Ascii.eqb c "/"%char then []
      else if Ascii.eqb c "."%char then c :: acc
      else ext_scan rest (c :: acc)
  end.

Definition Ext (p : string) : string :=
  string_of_list_ascii (ext_scan (rev (list_ascii_of_string p)) []).

End path.

(** ** time *)

Module time.

(** An instant, in nanoseconds since January 1, year 1, 00:00 UTC (the
    zero [Time]). *)
Definition Time := Z.
(** An int64 count of nanoseconds. *)
Definition Duration := Z.

Definition Second : Duration := 1000000000.
Definition Minute : Duration := 60 * Second.
Definition Hour : Duration := 60 * Minute.
Definition minDuration : Duration := - 2 ^ 63.
Definition maxDuration : Duration := 2 ^ 63 - 1.

Definition zero : Time := 0.
Definition IsZero (t : Time) : bool := t =? 0.
Definition Add (t : Time) (d : Duration) : Time := t + d.

(** [t.Sub(u)]: saturates at the ends of the int64 range. *)
Definition Sub (t u : Time) : Duration :=
  let d := t - u in
  if d <? minDuration then minDuration
  else if maxDuration <? d then maxDuration
  else d.

(** [time.Since(t)] when the clock reads [now]. *)
Definition Since (now t : Time) : Duration := Sub now t.

Definition isLeap (year : Z) : bool :=
  (year mod 4 =? 0) && (negb (year mod 100 =? 0) || (year mod 400 =? 0)).

Definition daysIn (month year : Z) : Z :=
  if month =? 2 then (if isLeap year then 29 else 28)
  else if (month =? 4) || (month =? 6) || (month =? 9) || (month =? 11) then 30
  else 31.

(** Days from January 1, year 1 to the given proleptic Gregorian date. *)
Definition daysSinceEpoch (year month day : Z) : Z :=
  let y := if month <=? 2 then year - 1 else year in
  let era := y / 400 in
  let yoe := y - era * 400 in
  let doy := (153 * (if 2 <? month then month - 3 else month + 9) + 2) / 5 + day - 1 in
  let doe := yoe * 365 + yoe / 4 - yoe / 100 + doy in
  era * 146097 + doe - 306.

(** [time.Date(year, month, day, hour, min, 0, 0, time.UTC)]. *)
Definition Date (year month day hour min : Z) : Time :=
  ((daysSinceEpoch year month day * 24 + hour) * 60 + min) * Minute.

Definition digit (c : ascii) : option Z :=
  let n := Z.of_nat (nat_of_ascii c) in
  if (48 <=? n) && (n <=? 57) then Some (n - 48) else None.

(** Exactly [n] decimal digits at the head of [s]. *)
Fixpoint digits (n : nat) (acc : Z) (s : string) : option (Z * string) :=
  match n with
  | O => Some (acc, s)
  | S n' =>
      match s with
      | String c rest =>
          match digit c with
          | Some k => digits n' (10 * acc + k) rest
          | None => None
          end
      | EmptyString => None
      end
  end.

(** [time.Parse("20060102T1504", value)]: four digits of year, two of
    month, two of day, a literal [T], two digits of hour and two of
    minute, nothing after; out-of-range fields are errors. *)
Definition Parse (value : string) : option Time :=
  match digits 4 0 value with
  | Some (year, s1) =>
    match digits 2 0 s1 with
    | Some (month, s2) =>
      match digits 2 0 s2 with
      | Some (day, String "T" s3) =>
        match digits 2 0 s3 with
        | Some (hour, s4) =>
          match digits 2 0 s4 with
          | Some (min, EmptyString) =>
              if (1 <=? month) && (month <=? 12) && (1 <=? day) && (day <=? daysIn month year)
                 && (hour <? 24) && (min <? 60)
              then Some (Date year month day hour min)
              else None
          | _ => None
          end
        | None => None
        end
      | _ => None
      end
    | None => None
    end
  | None => None
  end.

End time.

(** ** image and image/color *)

Module color.

(** [color.RGBA]: four uint8 channels. *)
Record RGBA : Type := mkRGBA { R : Z; G : Z; B : Z; A : Z }.

(** The zero value, transparent black: what a fresh buffer holds. *)
Definition zero : RGBA := mkRGBA 0 0 0 0.

End color.

Module image.

Record Point : Type := mkPoint { X : Z; Y : Z }.
Record Rectangle : Type := mkRectangle { Min : Point; Max : Point }.

(** [image.Rect]: the corners are put in order. *)
Definition Rect (x0 y0 x1 y1 : Z) : Rectangle :=
  let '(x0, x1) := if x1 <? x0 then (x1, x0) else (x0, x1) in
  let '(y0, y1) := if y1 <? y0 then (y1, y0) else (y0, y1) in
  mkRectangle (mkPoint x0 y0) (mkPoint x1 y1).

Definition Dx (r : Rectangle) : Z := X (Max r) - X (Min r).
Definition Dy (r : Rectangle) : Z := Y (Max r) - Y (Min r).

(** [Point{x, y}.In(r)]. *)
Definition In (x y : Z) (r : Rectangle) : bool :=
  (X (Min r) <=? x) && (x <? X (Max r)) && (Y (Min r) <=? y) && (y <? Y (Max r)).

(** [image.RGBA], one entry of [Pix] per pixel (the four bytes Go keeps
    for a pixel, grouped), rows first, [Dx Bounds] pixels per row. *)
Record RGBA : Type := mkRGBA { Pix : list color.RGBA; Bounds : Rectangle }.

Definition NewRGBA (r : Rectangle) : RGBA :=
  mkRGBA (replicate (Z.to_nat (Dx r * Dy r)) color.zero) r.

Definition PixOffset (p : RGBA) (x y : Z) : Z :=
  (y - Y (Min (Bounds p))) * Dx (Bounds p) + (x - X (Min (Bounds p))).

(** [p.At(x, y)]: the zero colour outside the bounds. *)
Definition At (p : RGBA) (x y : Z) : color.RGBA :=
  if In x y (Bounds p)
  then default color.zero (Pix p !! Z.to_nat (PixOffset p x y))
  else color.zero.

(** [p.Set(x, y, c)] and [p.SetRGBA(x, y, c)]: nothing outside the bounds. *)
Definition Set_ (p : RGBA) (x y : Z) (c : color.RGBA) : RGBA :=
  if In x y (Bounds p)
  then mkRGBA (<[Z.to_nat (PixOffset p x y) := c]> (Pix p)) (Bounds p)
  else p.

End image.

(** *** The store of pixel buffers *)

Abbreviation loc := positive.
Abbreviation store := (gmap positive image.RGBA).

(** A fresh buffer: the location is one the store does not hold. *)
Definition alloc (h : store) (img : image.RGBA) : loc * store :=
  let l := fresh (dom h) in (l, <[l := img]> h).

(** The buffer a pointer refers to. The pointers of the program refer to
    buffers of the store; the empty buffer stands for any other. *)
Definition deref (h : store) (l : loc) : image.RGBA :=
  default (image.NewRGBA (image.Rect 0 0 0 0)) (h !! l).

(** [img.Set(x, y, c)] through the pointer [l]. *)
Definition store_Set (l : loc) (x y : Z) (c : color.RGBA) (h : store) : store :=
  alter (fun img => image.Set_ img x y c) l h.

(** ** Package mesonet *)

Module mesonet.

Record Variable_ : Type := mkVariable { ID : string; var_Units : string }.

Record Request : Type := mkRequest {
  Endpoint : string;
  Dataset : string;
  Start : time.Time;
  End_ : time.Time;
  Stations : list string;
  Variables : list Variable_
}.

Record Attr : Type := mkAttr {
  LongName : string;
  ScaleFactor : float;
  Units : string
}.

(** What [encoding/json] decodes into an [interface{}]. *)
Inductive json : Type :=
| JNull
| JBool (b : bool)
| JNumber (x : float)
| JString (s : string)
| JArray (elems : list json)
| JObject (fields : list (string * json)).

Record RawDataVar : Type := mkRawDataVar {
  raw_Attrs : Attr;
  Data : list json;
  raw_Dimensions : list string
}.

Record DataVar : Type := mkDataVar {
  FloatData : list float;
  StringData : list string;
  TimeData : list time.Time;
  RawData : list json;
  Attrs : Attr;
  Dimensions : list string
}.

Definition zeroAttr : Attr := mkAttr "" 0%float "".
Definition zeroDataVar : DataVar := mkDataVar [] [] [] [] zeroAttr [].

Record Response : Type := mkResponse {
  resp_Attrs : Attr;
  Coords : gmap string DataVar;
  Dims : gmap string Z;
  DataVars : gmap string DataVar
}.

Record Result : Type := mkResult { Response_ : Response; Success : bool }.

(** [m[key]] on a Go map: the zero value for a missing key. *)
Definition lookup_var (m : gmap string DataVar) (key : string) : DataVar :=
  default zeroDataVar (m !! key).

(** The loop over a variable named time: every entry has to be a string
    in the layout [20060102T1504]; the times parsed before a bad entry
    stay appended. *)
Fixpoint parse_times (data : list json) (acc : list time.Time)
  : list time.Time * option error :=
  match data with
  | [] => (acc, None)
  | JString timeString :: rest =>
      match time.Parse timeString with
      | Some t => parse_times rest (acc ++ [t])
      | None => (acc, Some ("invalid time " +:+ timeString +:+ ": cannot parse"))
      end
  | _ :: _ => (acc, Some "invalid time: not a string")
  end.

(** One element of a float series: a number is scaled, anything else
    becomes 0. *)
Definition scale_or_zero (scale : float) (rval : json) : float :=
  match rval with
  | JNumber val => (val * scale)%float
  | _ => 0%float
  end.

(** The method [UnmarshalJSON] of [DataVar]; [decoded] is what
    [json.Unmarshal(text, &raw)] returned. *)
Definition UnmarshalJSON (v : DataVar) (decoded : error + RawDataVar)
  : outcome (DataVar * option error) :=
  match decoded with
  | inl err => Normal (v, Some ("unmarshal raw datavar: " +:+ err))
  | inr raw =>
      let v := mkDataVar (FloatData v) (StringData v) (TimeData v)
                         (Data raw) (raw_Attrs raw) (raw_Dimensions raw) in
      match Data raw with
      | [] => Normal (v, None)
      | first :: _ =>
          if String.eqb (LongName (Attrs v)) "time" then
            let '(times, err) := parse_times (Data raw) (TimeData v) in
            Normal (mkDataVar (FloatData v) (StringData v) times
                              (RawData v) (Attrs v) (Dimensions v), err)
          else
            match first with
            | JArray first =>
                first0 ← index first 0;
                match first0 with
                | JNumber _ =>
                    let scale := ScaleFactor (raw_Attrs raw) in
                    Normal (mkDataVar (FloatData v ++ map (scale_or_zero scale) first)
                                      (StringData v) (TimeData v)
                                      (RawData v) (Attrs v) (Dimensions v), None)
                | _ => Normal (v, None)
                end
            | _ => Normal (v, None)
            end
      end
  end.

(** What the HTTP round trip of [client.Do] and [io.ReadAll] gave. *)
Inductive RoundTrip : Type :=
| TransportError (err : error)
| ReadError (err : error)
| HTTPResponse (StatusCode : Z) (Status : string) (rbody : string).

(** The [*http.Client] with the JSON decoder behind it:
    [decode rbody] is [json.Unmarshal(rbody, &result)]. *)
Record Client : Type := mkClient {
  roundTrip : Request -> RoundTrip;
  decode : string -> error + Result
}.

Definition StatusOK : Z := 200.

(** [mesonet.Do]: [inr result] when the error is nil, otherwise the error
    with the result pointer returned next to it. Marshalling the request
    and building the HTTP request do not fail for the requests made here. *)
Definition Do (client : Client) (req : Request) : (option Result * error) + Result :=
  match roundTrip client req with
  | TransportError err => inl (None, "do request: " +:+ err)
  | ReadError err => inl (None, "read response body: " +:+ err)
  | HTTPResponse code status rbody =>
      if negb (code =? StatusOK)
      then inl (None, "do request: non-OK status: " +:+ status +:+ "; body: " +:+ rbody)
      else match decode client rbody with
           | inl err => inl (None, "unmarshal response: " +:+ err)
           | inr result =>
               if negb (Success result)
               then inl (Some result, "request marked as unsuccessful by server")
               else inr result
           end
  end.

End mesonet.

(** ** Package pages *)

Module pages.

Record OutputConfig : Type := mkOutputConfig { Width : Z; Height : Z }.

Record Display : Type := mkDisplay {
  outputConfig : OutputConfig;
  Temperature : float;
  LastHourTemperature : float;
  RelativeHumidity : float;
  LastHourRelativeHumidity : float;
  OutdoorTemperature : float;
  LastHourOutdoorTemperature : float;
  MesonetLastData : time.Time;
  image : option loc;
  screen : list (list byte)
}.

(** [New]: every measurement zero, nothing rendered. *)
Definition New (ocfg : OutputConfig) : Display :=
  mkDisplay ocfg 0 0 0 0 0 0 time.zero None [].

(** Field assignments. *)
Definition set_Temperature (x : float) (d : Display) : Display :=
  mkDisplay (outputConfig d) x (LastHourTemperature d) (RelativeHumidity d)
    (LastHourRelativeHumidity d) (OutdoorTemperature d) (LastHourOutdoorTemperature d)
    (MesonetLastData d) (image d) (screen d).
Definition set_LastHourTemperature (x : float) (d : Display) : Display :=
  mkDisplay (outputConfig d) (Temperature d) x (RelativeHumidity d)
    (LastHourRelativeHumidity d) (OutdoorTemperature d) (LastHourOutdoorTemperature d)
    (MesonetLastData d) (image d) (screen d).
Definition set_RelativeHumidity (x : float) (d : Display) : Display :=
  mkDisplay (outputConfig d) (Temperature d) (LastHourTemperature d) x
    (LastHourRelativeHumidity d) (OutdoorTemperature d) (LastHourOutdoorTemperature d)
    (MesonetLastData d) (image d) (screen d).
Definition set_LastHourRelativeHumidity (x : float) (d : Display) : Display :=
  mkDisplay (outputConfig d) (Temperature d) (LastHourTemperature d) (RelativeHumidity d)
    x (OutdoorTemperature d) (LastHourOutdoorTemperature d)
    (MesonetLastData d) (image d) (screen d).
Definition set_outdoor (last mean : float) (lastUpdate : time.Time) (d : Display) : Display :=
  mkDisplay (outputConfig d) (Temperature d) (LastHourTemperature d) (RelativeHumidity d)
    (LastHourRelativeHumidity d) last mean lastUpdate (image d) (screen d).
Definition set_screen (s : list (list byte)) (d : Display) : Display :=
  mkDisplay (outputConfig d) (Temperature d) (LastHourTemperature d) (RelativeHumidity d)
    (LastHourRelativeHumidity d) (OutdoorTemperature d) (LastHourOutdoorTemperature d)
    (MesonetLastData d) (image d) s.
Definition set_image (img : option loc) (d : Display) : Display :=
  mkDisplay (outputConfig d) (Temperature d) (LastHourTemperature d) (RelativeHumidity d)
    (LastHourRelativeHumidity d) (OutdoorTemperature d) (LastHourOutdoorTemperature d)
    (MesonetLastData d) img (screen d).

(** *** The external collaborators *)

(** The four Flux queries, by what they ask for. *)
Inductive Query : Type :=
| TemperatureLast
| TemperatureMean
| RelativeHumidityLast
| RelativeHumidityMean.

(** The dynamic value of a record: nil, a float64, or a value of another
    type, given by its Go syntax. *)
Inductive value : Type :=
| VNil
| VFloat64 (x : float)
| VOther (goSyntax : string).

(** What [influxClient.Query] and the first [result.Next()] gave. *)
Inductive QueryOutcome : Type :=
| QueryError (err : error)
| NoRows (cause : string)
| NilRecord (cause : string)
| FirstRecord (raw : value).

Record Env : Type := mkEnv {
  influxClient : Query -> QueryOutcome;
  httpClient : mesonet.Client;
  (** successive readings of [time.Now()] within one call *)
  clock : nat -> time.Time;
  (** [smallfont.Context.Draw] with the 5x8 font in white: the buffer
      after drawing [text] at [(x, y)], and the error if any *)
  sf_Draw : image.RGBA -> list byte -> Z -> Z -> image.RGBA * option error;
  (** [png.Encode] and [bmp.Encode]: the bytes written, and the error *)
  png_Encode : image.RGBA -> string * option error;
  bmp_Encode : image.RGBA -> string * option error
}.

(** *** Fetch jobs *)

(** [queryOneInflux] with [target] the address of a float64 field, which
    [store_target] assigns; such a target passes the check for a non-nil
    pointer. [reflect.ValueOf(raw).Type()] panics on a nil value. *)
Definition queryOneInflux (env : Env) (query : Query)
    (store_target : float -> Display -> Display) (d : Display)
  : outcome (Display * option error) :=
  match influxClient env query with
  | QueryError err => Normal (d, Some ("query: " +:+ err))
  | NoRows cause => Normal (d, Some ("no rows (possibly caused by: " +:+ cause +:+ ")"))
  | NilRecord cause => Normal (d, Some ("nil record (possibly caused by: " +:+ cause +:+ ")"))
  | FirstRecord VNil => Panic ReflectTypeOfZeroValue
  | FirstRecord (VOther syntax) =>
      Normal (d, Some ("record value " +:+ syntax +:+ " not assignable to " +:+ syntax))
  | FirstRecord (VFloat64 x) => Normal (store_target x d, None)
  end.

(** [fmt.Errorf("query: %w", err)] around a non-nil error. *)
Definition wrap (op : string) (r : outcome (Display * option error))
  : outcome (Display * option error) :=
  match r with
  | Normal (d, Some err) => Normal (d, Some (op +:+ ": " +:+ err))
  | other => other
  end.

Definition updateTemperature (env : Env) (d : Display) : outcome (Display * option error) :=
  wrap "query" (queryOneInflux env TemperatureLast set_Temperature d).

Definition updateLastHourTemperature (env : Env) (d : Display)
  : outcome (Display * option error) :=
  wrap "query" (queryOneInflux env TemperatureMean set_LastHourTemperature d).

Definition updateRelativeHumidity (env : Env) (d : Display)
  : outcome (Display * option error) :=
  wrap "query" (queryOneInflux env RelativeHumidityLast set_RelativeHumidity d).

Definition updateLastHourRelativeHumidity (env : Env) (d : Display)
  : outcome (Display * option error) :=
  wrap "query" (queryOneInflux env RelativeHumidityMean set_LastHourRelativeHumidity d).

(** The locals of the loop over [tair]. *)
Record scan : Type := mkScan {
  n : Z;
  sum : float;
  last : float;
  lastUpdate : time.Time
}.

Definition scan0 : scan := mkScan 0 0 0 time.zero.

(** [for i, t := range tair { if t != 0 { ... } }], from index [i] on;
    [times] is [res.Response.Coords["time"].TimeData]. *)
Fixpoint scan_tair (times : list time.Time) (i : Z) (tair : list float) (s : scan)
  : outcome scan :=
  match tair with
  | [] => Normal s
  | t :: rest =>
      if float_nonzero t then
        update ← index times i;
        scan_tair times (i + 1) rest
          (mkScan (n s) (sum s + t)%float t
                  (if negb (time.IsZero update) then update else lastUpdate s))
      else scan_tair times (i + 1) rest s
  end.

Definition mesonetRequest (now : time.Time) : mesonet.Request :=
  mesonet.mkRequest "https://api.nysmesonet.org/data/dynserv/timeseries2" "nysm"
    (time.Add now (- time.Hour)) now ["bkln"%string] [mesonet.mkVariable "tair" "degF"].

(** [updateOutdoorTemperature]: the outcome, and the requests sent to the
    weather station on the way. *)
Definition updateOutdoorTemperature (env : Env) (d : Display)
  : outcome (Display * option error) * list mesonet.Request :=
  let lastPoint := MesonetLastData d in
  if time.Since (clock env 0%nat) lastPoint <? 6 * time.Minute then
    (Normal (d, None), [])
  else
    let now := clock env 1%nat in
    let req := mesonetRequest now in
    match mesonet.Do (httpClient env) req with
    | inl (_, err) => (Normal (d, Some ("do: " +:+ err)), [req])
    | inr res =>
        let tair :=
          mesonet.FloatData
            (mesonet.lookup_var (mesonet.DataVars (mesonet.Response_ res)) "tair") in
        let times :=
          mesonet.TimeData
            (mesonet.lookup_var (mesonet.Coords (mesonet.Response_ res)) "time") in
        if Z.of_nat (length tair) =? 0 then
          (Normal (d, Some "no data points returned"), [req])
        else
          (s ← scan_tair times 0 tair scan0;
           Normal (set_outdoor (last s) (sum s / float64_of_int (n s))%float
                               (lastUpdate s) d, None),
           [req])
    end.

(** *** The update cycle *)

Definition job := Display -> outcome (Display * option error).

(** The calls of [run], in order. *)
Definition jobs (env : Env) : list (job * string) :=
  [ (updateTemperature env, "get temperature");
    (updateLastHourTemperature env, "get last hour temperature");
    (updateRelativeHumidity env, "get relative humidity");
    (updateLastHourRelativeHumidity env, "get last hour relative humidity");
    (fun d => fst (updateOutdoorTemperature env d), "get outdoor temperature") ]%string.

(** Where a goroutine started by [run] stands. *)
Inductive goroutine : Type :=
| Spawned (f : job) (op : string)   (* [f(ctx)] has not returned yet *)
| SendingError (err : error)        (* blocked on [doneCh <- fmt.Errorf(...)] *)
| SendingNil                        (* blocked on [doneCh <- nil] *)
| Exited.

(** The state of one call of [update]: the shared display, the goroutines,
    the loop counter [i], [errs], and whether [ctx] is done. *)
Record cycle : Type := mkCycle {
  snapshot : Display;
  goroutines : list goroutine;
  received : Z;
  errs : list error;
  expired : bool
}.

(** What the scheduler lets happen next. *)
Inductive event : Type :=
| Finish (k : nat)     (* goroutine [k] runs its job to the end *)
| Receive (k : nat)    (* the loop takes what goroutine [k] is sending *)
| Expire               (* the deadline of [ctx] passes *)
| TakeDone.            (* the loop takes the [ctx.Done()] case *)

Definition set_goroutine (k : nat) (g : goroutine) (c : cycle) : cycle :=
  mkCycle (snapshot c) (<[k := g]> (goroutines c)) (received c) (errs c) (expired c).

Definition count_in (err : option error) (c : cycle) : cycle :=
  mkCycle (snapshot c) (goroutines c) (received c + 1)
          (match err with Some e => errs c ++ [e] | None => errs c end) (expired c).

(** One event; [None] when the event cannot happen in [c]. [nq] is the
    number of jobs started. A job is one step: its effect on the display
    is one write under the lock, and what it reads of the display before
    (the weather-station job reads [MesonetLastData]) no other job
    writes. *)
Definition step (nq : Z) (e : event) (c : cycle) : option (outcome cycle) :=
  match e with
  | Finish k =>
      match goroutines c !! k with
      | Some (Spawned f op) =>
          Some (match f (snapshot c) with
                | Panic p => Panic p
                | Normal (d, Some err) =>
                    Normal (set_goroutine k (SendingError (op +:+ ": " +:+ err))
                              (mkCycle d (goroutines c) (received c) (errs c) (expired c)))
                | Normal (d, None) =>
                    Normal (set_goroutine k SendingNil
                              (mkCycle d (goroutines c) (received c) (errs c) (expired c)))
                end)
      | _ => None
      end
  | Receive k =>
      if received c <? nq then
        match goroutines c !! k with
        | Some (SendingError err) =>
            Some (Normal (count_in (Some err) (set_goroutine k SendingNil c)))
        | Some SendingNil =>
            Some (Normal (count_in None (set_goroutine k Exited c)))
        | _ => None
        end
      else None
  | Expire =>
      Some (Normal (mkCycle (snapshot c) (goroutines c) (received c) (errs c) true))
  | TakeDone =>
      if (received c <? nq) && expired c
      then Some (Normal (count_in (Some "context deadline exceeded"%string) c))
      else None
  end.

Fixpoint run_schedule (nq : Z) (sched : list event) (c : cycle) : option (outcome cycle) :=
  match sched with
  | [] => Some (Normal c)
  | e :: rest =>
      match step nq e c with
      | Some (Normal c') => run_schedule nq rest c'
      | other => other
      end
  end.

Definition newline : string := String "010"%char EmptyString.

(** What [update] returns once the loop has counted [nq] receptions. *)
Definition combined (errs : list error) : option error :=
  if Z.of_nat (length errs) >? 0
  then Some (fmt.d (Z.of_nat (length errs)) +:+ " errors: " +:+ String.concat newline errs)
  else None.

Definition start (fs : list (job * string)) (d : Display) : cycle :=
  mkCycle d (map (fun '(f, op) => Spawned f op) fs) 0 [] false.

(** [update] under the schedule [sched]: [None] when [sched] is not a run
    of the code up to its return; otherwise the display and the returned
    error at the moment [update] returns, or the panic of a job. *)
Definition update_with (fs : list (job * string)) (sched : list event) (d : Display)
  : option (outcome (Display * option error)) :=
  let nq := Z.of_nat (length fs) in
  match run_schedule nq sched (start fs d) with
  | Some (Normal c) =>
      if received c =? nq then Some (Normal (snapshot c, combined (errs c))) else None
  | Some (Panic p) => Some (Panic p)
  | None => None
  end.

Definition update (env : Env) := update_with (jobs env).

(** *** The renderer *)

(** The trend glyphs: byte 24 is the up arrow of the font, 25 the down
    arrow, and a space stands for no change. *)
Definition rising : byte := x18.
Definition falling : byte := x19.
Definition flat : byte := x20.

Definition tempChange (d : Display) : byte :=
  let chg := (Temperature d - LastHourTemperature d)%float in
  if (chg <? -0.5)%float then falling
  else if (0.5 <? chg)%float then rising
  else flat.

Definition humChange (d : Display) : byte :=
  let chg := (RelativeHumidity d - LastHourRelativeHumidity d)%float in
  if (chg <? -0.5)%float then falling
  else if (0.5 <? chg)%float then rising
  else flat.

Definition outdoorTempChange (d : Display) : byte :=
  let chg := (OutdoorTemperature d - LastHourOutdoorTemperature d)%float in
  if (chg <? -1)%float then falling
  else if (1 <? chg)%float then rising
  else flat.

(** The two buffers written to [d.screen[0]] and [d.screen[1]]. *)
Definition line0 (d : Display) : list byte :=
  list_byte_of_string (fmt.f 1 (Temperature d)) ++ [tempChange d]
    ++ list_byte_of_string (" " +:+ fmt.f 0 (RelativeHumidity d)) ++ [humChange d].

Definition line1 (d : Display) : list byte :=
  list_byte_of_string (fmt.f 1 (OutdoorTemperature d)) ++ [outdoorTempChange d].

(** [make([][]byte, len)]. *)
Definition make_lines (len : Z) : outcome (list (list byte)) :=
  if len <? 0 then Panic MakesliceLenOutOfRange
  else Normal (replicate (Z.to_nat len) []).

Definition black : color.RGBA := color.mkRGBA 0 0 0 255.

(** The values [i] takes in [for i := 0; i < height; i += 8]. *)
Definition bands (height : Z) : list Z :=
  map (Z.mul 8) (seqZ 0 ((height + 7) / 8)).

(** The drawing loop over the bands that are left. *)
Fixpoint draw_lines (env : Env) (img : loc) (lines : list (list byte))
    (todo : list Z) (h : store) : outcome (store * option error) :=
  match todo with
  | [] => Normal (h, None)
  | i :: rest =>
      let line := Z.quot i 8 in
      text ← index lines line;
      let '(drawn, err) := sf_Draw env (deref h img) text 0 i in
      let h := <[img := drawn]> h in
      match err with
      | Some err => Normal (h, Some ("draw line " +:+ fmt.d line +:+ ": " +:+ err))
      | None => draw_lines env img lines rest h
      end
  end.

(** [render]. The number of lines, [int(math.Floor(float64(Height)/8.0))],
    is the floor of [Height / 8]: the conversion and the division by 8
    are exact for every height a buffer can have. *)
Definition render (env : Env) (h : store) (d : Display)
  : outcome (store * Display * option error) :=
  let height := Height (outputConfig d) in
  let width := Width (outputConfig d) in
  lines ← make_lines (height / 8);
  lines ← assign_index lines 0 (line0 d);
  lines ← assign_index lines 1 (line1 d);
  let d := set_screen lines d in
  let bounds := image.Rect 0 0 width height in
  let '(img, h) := alloc h (image.NewRGBA bounds) in
  let h :=
    for_range (image.Y (image.Min bounds)) (image.Y (image.Max bounds)) (fun y =>
      for_range (image.X (image.Min bounds)) (image.X (image.Max bounds)) (fun x =>
        store_Set img x y black)) h in
  '(h, err) ← draw_lines env img lines (bands height) h;
  match err with
  | Some err => Normal (h, d, Some err)
  | None => Normal (h, set_image (Some img) d, None)
  end.

(** *** Enlargement *)

(** [enlargedImage]: the pointer returned, and the store after the call.
    The bounds of the source are read once: no write changes the bounds
    of a buffer. *)
Definition enlargedImage (d : Display) (enlarge space : Z) (h : store) : loc * store :=
  let '(src, h) :=
    match image d with
    | Some src => (src, h)
    | None => alloc h (image.NewRGBA (image.Rect 0 0 1 1))
    end in
  let dx := image.Dx (image.Bounds (deref h src)) in
  let dy := image.Dy (image.Bounds (deref h src)) in
  let '(img, h) := alloc h (image.NewRGBA (image.Rect 0 0 (enlarge * dx) (enlarge * dy))) in
  let h :=
    for_range 0 dx (fun x =>
      for_range 0 dy (fun y h =>
        let val := image.At (deref h src) x y in
        for_range space (enlarge - space) (fun i =>
          for_range space (enlarge - space) (fun j =>
            store_Set img (x * enlarge + i) (y * enlarge + j) val)) h)) h in
  (img, h).

(** *** Handlers *)

Record HTTPResponse : Type := mkHTTPResponse {
  StatusCode : Z;
  Header : list (string * string);
  Body : string
}.

Definition StatusOK : Z := 200.
Definition StatusInternalServerError : Z := 500.

(** [http.Error(w, msg, code)]. *)
Definition http_Error (msg : string) (code : Z) : HTTPResponse :=
  mkHTTPResponse code
    [("Content-Type", "text/plain; charset=utf-8"); ("X-Content-Type-Options", "nosniff")]%string
    (msg +:+ newline).

(** [ServeLargePNG]; an error of the encoder is only logged. The header
    is listed under the name the handler gives it. *)
Definition ServeLargePNG (env : Env) (d : Display) (h : store) : HTTPResponse * store :=
  let '(img, h) := enlargedImage d 16 2 h in
  (mkHTTPResponse StatusOK [("content-type", "image/png")]%string
                  (fst (png_Encode env (deref h img))), h).

(** The [r, g, b] of [Color.RGBA()] on a [color.RGBA]. *)
Definition widen (v : Z) : Z := Z.lor v (Z.shiftl v 8).

(** The encoder chosen for [.txt]: one line [x y] for every pixel with a
    non-zero red, green or blue channel, columns first. It writes to a
    [bytes.Buffer], whose [Write] returns no error. *)
Definition txt_Encode (m : image.RGBA) : string * option error :=
  let b := image.Bounds m in
  (for_range (image.X (image.Min b)) (image.X (image.Max b)) (fun x =>
     for_range (image.Y (image.Min b)) (image.Y (image.Max b)) (fun y buf =>
       let c := image.At m x y in
       if negb (widen (color.R c) =? 0) || negb (widen (color.G c) =? 0)
          || negb (widen (color.B c) =? 0)
       then buf +:+ fmt.d x +:+ " " +:+ fmt.d y +:+ newline
       else buf)) "",
   None).

(** The encoder and content type [ServeImage] picks from the extension. *)
Definition choose_encoder (env : Env) (urlPath : string)
  : (image.RGBA -> string * option error) * string :=
  let ext := path.Ext urlPath in
  if String.eqb ext ".bmp" then (bmp_Encode env, "image/bmp")
  else if String.eqb ext ".txt" then (txt_Encode, "text/plain")
  else (png_Encode env, "image/png").

(** [ServeImage] for a request whose URL path is [urlPath]. *)
Definition ServeImage (env : Env) (d : Display) (h : store) (urlPath : string)
  : HTTPResponse :=
  let '(encoder, ct) := choose_encoder env urlPath in
  let '(buf, err) :=
    match image d with
    | None => ("", Some "image has not been rendered yet")
    | Some img => encoder (deref h img)
    end in
  match err with
  | Some err => http_Error err StatusInternalServerError
  | None => mkHTTPResponse StatusOK [("content-type", ct)] buf
  end.

(** *** The cycle of the timer *)

(** [UpdateOnce], with [sched] the schedule of its call of [update].
    [render] is only called after [update] returned nil. *)
Definition UpdateOnce (env : Env) (sched : list event) (h : store) (d : Display)
  : option (outcome (store * Display * option error)) :=
  match update env sched d with
  | None => None
  | Some (Panic p) => Some (Panic p)
  | Some (Normal (d, Some err)) => Some (Normal (h, d, Some ("update: " +:+ err)))
  | Some (Normal (d, None)) =>
      Some (match render env h d with
            | Panic p => Panic p
            | Normal (h, d, Some err) => Normal (h, d, Some ("render: " +:+ err))
            | Normal (h, d, None) => Normal (h, d, None)
            end)
  end.

(** *** The JSON view *)

(** [displayAsJSON]; the nil slice is the empty list. *)
Record displayAsJSON : Type := mkDisplayAsJSON { Screen : list string }.

(** [ServeJSON]; [json_Encode disp] is what
    [json.NewEncoder(w).Encode(&disp)] writes, and its error, which is
    only logged. *)
Definition ServeJSON (json_Encode : displayAsJSON -> string * option error) (d : Display)
  : HTTPResponse :=
  let disp :=
    foldl (fun disp l => mkDisplayAsJSON (Screen disp ++ [string_of_list_byte l]))
          (mkDisplayAsJSON []) (screen d) in
  mkHTTPResponse StatusOK [("content-type", "application/json")]%string
                 (fst (json_Encode disp)).

End pages.

(** ** Reference notions the properties are stated against *)

(** The last entry of a series that is not zero. *)
Definition last_nonzero (series : list float) : option float :=
  list.last (filter (fun t => float_nonzero t = true) series).

(** The mean of the entries that are not zero: their sum, added up from
    the left, over their number. *)
Definition mean_nonzero (series : list float) : float :=
  let kept := filter (fun t => float_nonzero t = true) series in
  (foldl PrimFloat.add 0 kept / float64_of_int (Z.of_nat (length kept)))%float.

(** A buffer as [NewRGBA] makes them: [Pix] has one entry for every pixel
    of the bounds. *)
Definition well_formed (p : image.RGBA) : Prop :=
  0 <= image.Dx (image.Bounds p)
  /\ 0 <= image.Dy (image.Bounds p)
  /\ length (image.Pix p)
     = Z.to_nat (image.Dx (image.Bounds p) * image.Dy (image.Bounds p)).

(** The loops of [enlargedImage], on the buffers rather than through the
    store: [src] is read, [dst] is written. *)
Definition enlarge_pixels (src : image.RGBA) (enlarge space : Z) (dst : image.RGBA)
  : image.RGBA :=
  for_range 0 (image.Dx (image.Bounds src)) (fun x =>
    for_range 0 (image.Dy (image.Bounds src)) (fun y dst =>
      let val := image.At src x y in
      for_range space (enlarge - space) (fun i =>
        for_range space (enlarge - space) (fun j dst =>
          image.Set_ dst (x * enlarge + i) (y * enlarge + j) val)) dst)) dst.

(** What a sequence of writes leaves at one pixel: the colour of the last
    write [k] of [ks] that covers it, [write k] being the colour [k]
    writes there, if it does. *)
Definition overlay {K C} (write : K -> option C) (ks : list K) (acc : option C) : option C :=
  foldl (fun acc k => match write k with Some c => Some c | None => acc end) acc ks.

(** [paint] writes into a buffer exactly the pixels [layer] gives a colour
    to, and keeps the bounds and the shape of the buffer. *)
Definition paints (paint : image.RGBA -> image.RGBA)
    (layer : Z -> Z -> option color.RGBA) : Prop :=
  forall p, well_formed p ->
    well_formed (paint p)
    /\ image.Bounds (paint p) = image.Bounds p
    /\ forall x y, image.In x y (image.Bounds p) = true ->
         image.At (paint p) x y = default (image.At p x y) (layer x y).

(** The pixels of the block of source pixel [k] along one axis: the
    block starts at [k * enlarge] and loses [space] pixels at both ends. *)
Definition in_block (enlarge space k v : Z) : bool :=
  (k * enlarge + space <=? v) && (v <? k * enlarge + enlarge - space).

(** The pixels that lie in some block along one axis of length [len]. *)
Definition in_blocks (enlarge space len v : Z) : bool :=
  (0 <=? v / enlarge) && (v / enlarge <? len)
  && (space <=? v mod enlarge) && (v mod enlarge <? enlarge - space).

(** The layer the loops of [enlargedImage] paint: inside the blocks, the
    colour of the source pixel of the block. *)
Definition enlarged_layer (src : image.RGBA) (enlarge space : Z) (x y : Z)
  : option color.RGBA :=
  if in_blocks enlarge space (image.Dx (image.Bounds src)) x
     && in_blocks enlarge space (image.Dy (image.Bounds src)) y
  then Some (image.At src (x / enlarge) (y / enlarge))
  else None.

(** The shapes of a variable's [data], as the description of the decoder
    names them. [nested_numeric_array data] is the series held by a first
    entry that is an array of numbers only. *)
Definition as_number (j : mesonet.json) : option float :=
  match j with mesonet.JNumber x => Some x | _ => None end.

Definition nested_numeric_array (data : list mesonet.json) : option (list float) :=
  match data with
  | mesonet.JArray elems :: _ => mapM as_number elems
  | _ => None
  end.

(** A variable kept as raw data only: the attributes, the dimensions and
    the raw entries are stored, and no series is added. *)
Definition raw_only (v : mesonet.DataVar) (raw : mesonet.RawDataVar) : mesonet.DataVar :=
  mesonet.mkDataVar (mesonet.FloatData v) (mesonet.StringData v) (mesonet.TimeData v)
                    (mesonet.Data raw) (mesonet.raw_Attrs raw) (mesonet.raw_Dimensions raw).

Definition with_times (ts : list time.Time) (v : mesonet.DataVar) : mesonet.DataVar :=
  mesonet.mkDataVar (mesonet.FloatData v) (mesonet.StringData v) (mesonet.TimeData v ++ ts)
                    (mesonet.RawData v) (mesonet.Attrs v) (mesonet.Dimensions v).

Definition with_floats (xs : list float) (v : mesonet.DataVar) : mesonet.DataVar :=
  mesonet.mkDataVar (mesonet.FloatData v ++ xs) (mesonet.StringData v) (mesonet.TimeData v)
                    (mesonet.RawData v) (mesonet.Attrs v) (mesonet.Dimensions v).

(** The displays the jobs of a cycle can find: the display the cycle
    starts on, and what a job that returns makes of such a display. *)
Inductive reachable (fs : list (pages.job * string)) (d : pages.Display)
  : pages.Display -> Prop :=
| reachable_start : reachable fs d d
| reachable_job (d1 d2 : pages.Display) (j : pages.job * string) (r : option error) :
    reachable fs d d1 -> j ∈ fs -> fst j d1 = Normal (d2, r) -> reachable fs d d2.

(** How a job behaves in the cycles of the jobs [fs] on [d]: on every
    display it can find there it returns nil, or it returns the error
    [err]. *)
Definition succeeds_from (fs : list (pages.job * string)) (d : pages.Display)
    (f : pages.job) : Prop :=
  forall d1, reachable fs d d1 -> exists d2, f d1 = Normal (d2, None).

Definition fails_from (fs : list (pages.job * string)) (d : pages.Display)
    (f : pages.job) (err : error) : Prop :=
  forall d1, reachable fs d d1 -> exists d2, f d1 = Normal (d2, Some err).

Definition behaves_from (fs : list (pages.job * string)) (d : pages.Display)
    (j : pages.job * string) (fail : option error) : Prop :=
  match fail with
  | None => succeeds_from fs d (fst j)
  | Some err => fails_from fs d (fst j) err
  end.

(** The events a goroutine still has before it: its job, the reception
    of its error, the reception of its nil. *)
Definition events_left (g : pages.goroutine) : Z :=
  match g with
  | pages.Spawned _ _ => 3
  | pages.SendingError _ => 2
  | pages.SendingNil => 1
  | pages.Exited => 0
  end.

Fixpoint all_events_left (gs : list pages.goroutine) : Z :=
  match gs with
  | [] => 0
  | g :: gs => events_left g + all_events_left gs
  end.

(** The reports of a goroutine the loop has taken so far, for a job that
    fails ([fail] is its error) or succeeds. *)
Definition reports_taken (fail : option error) (g : pages.goroutine) : Z :=
  match g with
  | pages.Spawned _ _ | pages.SendingError _ => 0
  | pages.SendingNil => match fail with Some _ => 1 | None => 0 end
  | pages.Exited => match fail with Some _ => 2 | None => 1 end
  end.

(** The errors of a goroutine the loop has taken so far. *)
Definition errors_taken (fail : option error) (g : pages.goroutine) : Z :=
  match g with
  | pages.Spawned _ _ | pages.SendingError _ => 0
  | pages.SendingNil | pages.Exited => match fail with Some _ => 1 | None => 0 end
  end.

(** The sum of a count over the goroutines, each with how its job behaves. *)
Fixpoint total (count : option error -> pages.goroutine -> Z)
    (fails : list (option error)) (gs : list pages.goroutine) : Z :=
  match fails, gs with
  | fail :: fails, g :: gs => count fail g + total count fails gs
  | _, _ => 0
  end.

(** The message a failing job is reported with. *)
Definition report (j : pages.job * string) (err : error) : error :=
  snd j +:+ ": " +:+ err.

(** A goroutine is where a job with this behaviour can be. *)
Definition goroutine_of (j : pages.job * string) (fail : option error)
    (g : pages.goroutine) : Prop :=
  match g with
  | pages.Spawned f op => (f, op) = j
  | pages.SendingError msg => exists err, fail = Some err /\ msg = report j err
  | pages.SendingNil | pages.Exited => True
  end.

(** What holds of a cycle all along a run within the deadline that
    started on [d]. *)
Definition cycle_invariant (fs : list (pages.job * string)) (fails : list (option error))
    (d : pages.Display) (c : pages.cycle) : Prop :=
  reachable fs d (pages.snapshot c)
  /\ pages.received c <= Z.of_nat (length fs)
  /\ pages.expired c = false
  /\ length (pages.goroutines c) = length fs
  /\ (forall k j fail g,
        fs !! k = Some j -> fails !! k = Some fail -> pages.goroutines c !! k = Some g ->
        goroutine_of j fail g)
  /\ pages.received c = total reports_taken fails (pages.goroutines c)
  /\ Z.of_nat (length (pages.errs c)) = total errors_taken fails (pages.goroutines c)
  /\ Forall (fun msg => exists k j err,
               fs !! k = Some j /\ fails !! k = Some (Some err) /\ msg = report j err)
            (pages.errs c).

(** The goroutines of a cycle that satisfy [p], counted. *)
Fixpoint count_where (p : pages.goroutine -> bool) (gs : list pages.goroutine) : Z :=
  match gs with
  | [] => 0
  | g :: gs => (if p g then 1 else 0) + count_where p gs
  end.

Definition has_exited (g : pages.goroutine) : bool :=
  match g with pages.Exited => true | _ => false end.

(** A goroutine whose job has returned. *)
Definition has_finished (g : pages.goroutine) : bool :=
  match g with pages.Spawned _ _ => false | _ => true end.

(** What a job makes of the display (nothing when it panics). *)
Definition effect (f : pages.job) (d : pages.Display) : pages.Display :=
  match f d with
  | Normal (d', _) => d'
  | Panic _ => d
  end.

(** The jobs that are marked, run one after another in the order of the
    list. *)
Fixpoint run_marked (fs : list (pages.job * string)) (marks : list bool)
    (d : pages.Display) : pages.Display :=
  match fs, marks with
  | j :: fs, mark :: marks => run_marked fs marks (if mark then effect (fst j) d else d)
  | _, _ => d
  end.

(** The jobs run one after another. *)
Definition run_in_order (fs : list (pages.job * string)) (d : pages.Display)
  : pages.Display :=
  foldl (fun d j => effect (fst j) d) d fs.

(** The time stamp the weather-station job keeps for a series: the stamp
    of the last sample that is not zero and whose stamp is not the zero
    time; the zero time when there is none. *)
Definition last_stamp (tair : list float) (times : list time.Time) : time.Time :=
  default time.zero
    (list.last
       (map snd
            (filter (fun sample : float * time.Time =>
                       float_nonzero (fst sample) = true
                       /\ time.IsZero (snd sample) = false)
                    (zip tair times)))).

(** The pixels of a rectangle, column after column. *)
Definition by_columns (b : image.Rectangle) : list (Z * Z) :=
  x ← seqZ (image.X (image.Min b)) (image.X (image.Max b) - image.X (image.Min b));
  y ← seqZ (image.Y (image.Min b)) (image.Y (image.Max b) - image.Y (image.Min b));
  [(x, y)].

(** A pixel with some red, green or blue in it. *)
Definition coloured (c : color.RGBA) : bool :=
  negb (color.R c =? 0) || negb (color.G c =? 0) || negb (color.B c =? 0).

(** The line of the text encoding for a pixel. *)
Definition txt_line (p : Z * Z) : string :=
  fmt.d (fst p) +:+ " " +:+ fmt.d (snd p) +:+ pages.newline.

(** The text made of lines written one after another. *)
Definition text_of (lines : list string) : string :=
  foldr String.append "" lines.

(** The lines of the text encoding of a buffer: one for every coloured
    pixel, column after column. *)
Definition coloured_pixels (m : image.RGBA) : list (Z * Z) :=
  filter (fun p => coloured (image.At m (fst p) (snd p)) = true) (by_columns (image.Bounds m)).

(** The lines [render] draws, band after band, on the buffer [b]. *)
Definition draw_bands (env : pages.Env) (lines : list (list byte)) (bands : list Z)
    (b : image.RGBA) : image.RGBA :=
  foldl (fun b i => fst (pages.sf_Draw env b (default [] (lines !! Z.to_nat (Z.quot i 8))) 0 i))
        b bands.

(** The lines of the screen after a render of [d]: the two texts, then
    empty lines up to [Height / 8] lines. *)
Definition screen_of (d : pages.Display) : list (list byte) :=
  pages.line0 d :: pages.line1 d
    :: replicate (Z.to_nat (pages.Height (pages.outputConfig d) / 8) - 2) [].

(** Jobs whose effects on the display commute two by two. *)
Definition commuting (fs : list (pages.job * string)) : Prop :=
  forall i j fi fj,
    i <> j -> fs !! i = Some fi -> fs !! j = Some fj ->
    forall d, effect (fst fi) (effect (fst fj) d) = effect (fst fj) (effect (fst fi) d).

(** Every reception of the loop is an error added to [errs] or a
    goroutine that exits. *)
Definition receptions_accounted (c : pages.cycle) : Prop :=
  pages.received c = count_where has_exited (pages.goroutines c) + Z.of_nat (length (pages.errs c)).

(** The display of a cycle is the first display with the jobs that have
    returned run on it, in the order of the list; the goroutines that
    have not run yet still hold their jobs. *)
Definition snapshot_in_order (fs : list (pages.job * string)) (d : pages.Display)
    (c : pages.cycle) : Prop :=
  length (pages.goroutines c) = length fs
  /\ (forall k f op,
        pages.goroutines c !! k = Some (pages.Spawned f op) -> fs !! k = Some (f, op))
  /\ pages.snapshot c = run_marked fs (map has_finished (pages.goroutines c)) d.

(** The fields [update] has no business with. *)
Definition same_output (d d' : pages.Display) : Prop :=
  pages.outputConfig d' = pages.outputConfig d
  /\ pages.image d' = pages.image d
  /\ pages.screen d' = pages.screen d.

(** ** Test data *)

Module testdata.

Import pages.

(** A series in the pattern of [testdata/brooklyn.json]: a first
    reading, a sample reported as zero, a last reading. *)
Definition tair : list float := [78.4; 0; 68.8]%float.

Definition times : list time.Time :=
  [time.Date 2021 9 19 2 30; time.Date 2021 9 19 2 35; time.Date 2021 9 19 2 40].

Definition tairVar : mesonet.DataVar :=
  mesonet.mkDataVar tair [] [] [] (mesonet.mkAttr "tair" 1 "degF") ["station"; "time"]%string.

Definition timeVar : mesonet.DataVar :=
  mesonet.mkDataVar [] [] times [] (mesonet.mkAttr "time" 0 "") ["time"%string].

Definition brooklyn : mesonet.Result :=
  mesonet.mkResult
    (mesonet.mkResponse mesonet.zeroAttr {["time"%string := timeVar]} ∅
                        {["tair"%string := tairVar]})
    true.

(** A transport that answers every request with the same body, as the
    test transport of the package does. *)
Definition client : mesonet.Client :=
  mesonet.mkClient (fun _ => mesonet.HTTPResponse 200 "200 OK" "brooklyn.json")
                   (fun _ => inr brooklyn).

(** The sensor database answers every query but the first. *)
Definition influx (q : Query) : QueryOutcome :=
  match q with
  | TemperatureLast => QueryError "connection refused"
  | TemperatureMean => FirstRecord (VFloat64 65)
  | RelativeHumidityLast => FirstRecord (VFloat64 42)
  | RelativeHumidityMean => FirstRecord (VFloat64 50)
  end.

(** A sensor database that answers every query. *)
Definition influx_up (q : Query) : QueryOutcome :=
  match q with
  | TemperatureLast => FirstRecord (VFloat64 69)
  | other => influx other
  end.

Definition noon : time.Time := time.Date 2021 9 19 2 45.

(** Stand-ins for the font and the image encoders: the font draws
    nothing, the encoders write the number of pixels. *)
Definition draw_nothing (img : image.RGBA) (text : list byte) (x y : Z)
  : image.RGBA * option error := (img, None).
Definition count_pixels (magic : string) (img : image.RGBA) : string * option error :=
  (magic +:+ fmt.d (Z.of_nat (length (image.Pix img))), None).

Definition env : Env :=
  mkEnv influx client (fun _ => noon) draw_nothing (count_pixels "PNG") (count_pixels "BM").

Definition env_up : Env :=
  mkEnv influx_up client (fun _ => noon) draw_nothing (count_pixels "PNG") (count_pixels "BM").

(** The display of the handler test, before its first render. *)
Definition display : Display :=
  mkDisplay (mkOutputConfig 64 32) 69 65 42 50 90 90 time.zero None [].

(** A display whose last weather-station reading is five minutes old. *)
Definition recent : Display :=
  set_outdoor 90 90 (time.Add noon (- (5 * time.Minute))) display.

(** A display whose rendered buffer is a single black pixel. *)
Definition dot : image.RGBA := image.mkRGBA [black] (image.Rect 0 0 1 1).
Definition dot_store : store := {[1%positive := dot]}.
Definition dot_display : Display := set_image (Some 1%positive) display.

(** A variable named time whose data is a nested array of numbers. *)
Definition numeric_time : mesonet.RawDataVar :=
  mesonet.mkRawDataVar (mesonet.mkAttr "time" 1 "")
    [mesonet.JArray [mesonet.JNumber 78.4; mesonet.JNumber 68.8]] ["time"%string].

(** The two variables of a response, as [encoding/json] hands them over. *)
Definition raw_time : mesonet.RawDataVar :=
  mesonet.mkRawDataVar (mesonet.mkAttr "time" 0 "")
    [mesonet.JString "20210919T0230"; mesonet.JString "20210919T0235";
     mesonet.JString "20210919T0240"] ["time"%string].

Definition raw_tair : mesonet.RawDataVar :=
  mesonet.mkRawDataVar (mesonet.mkAttr "tair" 1 "degF")
    [mesonet.JArray [mesonet.JNumber 78.4; mesonet.JNull; mesonet.JNumber 68.8]]
    ["station"; "time"]%string.

(** A run of [update] in which the goroutine of the first job reports
    its error and then its nil before the last job has finished. *)
Definition early_return : list event :=
  [Finish 0; Receive 0; Receive 0; Finish 1; Receive 1; Finish 2; Receive 2;
   Finish 3; Receive 3].

(** A run in which every job finishes first and the loop then takes one
    report from each goroutine. *)
Definition all_finished : list event :=
  [Finish 0; Finish 1; Finish 2; Finish 3; Finish 4;
   Receive 0; Receive 1; Receive 2; Receive 3; Receive 4].

(** The cycle at the end of [early_return] for the jobs of [env] on
    [display]: four goroutines have exited, the last has not run. *)
Definition left_behind : cycle :=
  mkCycle display
    [Exited; Exited; Exited; Exited;
     Spawned (fun d => fst (updateOutdoorTemperature env d)) "get outdoor temperature"]
    5 ["get temperature: query: query: connection refused"%string] false.

(** A two-column, sixteen-row display that has the black pixel as its
    rendered buffer, and what one more render makes of it. *)
Definition narrow_display : Display :=
  mkDisplay (mkOutputConfig 2 16) 69 65 42 50 90 90 time.zero (Some 1%positive) [].

Definition rendered : store * Display :=
  match render env dot_store narrow_display with
  | Normal (h, d, _) => (h, d)
  | Panic _ => (dot_store, narrow_display)
  end.

(** An environment whose PNG and BMP encoders refuse every buffer. *)
Definition refuse (img : image.RGBA) : string * option error :=
  ("", Some "invalid image size").

Definition env_refusing : Env :=
  mkEnv influx client (fun _ => noon) draw_nothing refuse refuse.

(** A variable whose nested array is empty, and a response without the
    time coordinate. *)
Definition raw_empty : mesonet.RawDataVar :=
  mesonet.mkRawDataVar (mesonet.mkAttr "tair" 1 "degF") [mesonet.JArray []]
    ["station"; "time"]%string.

Definition brooklyn_without_time : mesonet.Result :=
  mesonet.mkResult
    (mesonet.mkResponse mesonet.zeroAttr ∅ ∅ {["tair"%string := tairVar]})
    true.

Definition env_without_time : Env :=
  mkEnv influx
        (mesonet.mkClient (fun _ => mesonet.HTTPResponse 200 "200 OK" "brooklyn.json")
                          (fun _ => inr brooklyn_without_time))
        (fun _ => noon) draw_nothing (count_pixels "PNG") (count_pixels "BM").

(** The response of [raw_tair] and [raw_time] as the decoder of the
    package makes it, and a station that answers with it. *)
Definition decoded_var (raw : mesonet.RawDataVar) : mesonet.DataVar :=
  match mesonet.UnmarshalJSON mesonet.zeroDataVar (inr raw) with
  | Normal (v, _) => v
  | Panic _ => mesonet.zeroDataVar
  end.

Definition brooklyn_decoded : mesonet.Result :=
  mesonet.mkResult
    (mesonet.mkResponse mesonet.zeroAttr {["time"%string := decoded_var raw_time]} ∅
                        {["tair"%string := decoded_var raw_tair]})
    true.

Definition env_decoded : Env :=
  mkEnv influx
        (mesonet.mkClient (fun _ => mesonet.HTTPResponse 200 "200 OK" "brooklyn.json")
                          (fun _ => inr brooklyn_decoded))
        (fun _ => noon) draw_nothing (count_pixels "PNG") (count_pixels "BM").

(** A time coordinate whose third entry is not a time. *)
Definition raw_time_bad : mesonet.RawDataVar :=
  mesonet.mkRawDataVar (mesonet.mkAttr "time" 0 "")
    [mesonet.JString "20210919T0230"; mesonet.JString "20210919T0235";
     mesonet.JString "2021-09-19"; mesonet.JString "20210919T0245"] ["time"%string].

(** A sensor database whose mean temperature has a record without a
    value, and the cycle of [update] on [display] after the first job
    has reported and the third has finished. *)
Definition influx_without_value (q : Query) : QueryOutcome :=
  match q with
  | TemperatureMean => FirstRecord VNil
  | other => influx other
  end.

Definition env_without_value : Env :=
  mkEnv influx_without_value client (fun _ => noon) draw_nothing
        (count_pixels "PNG") (count_pixels "BM").

Definition before_panic : cycle :=
  mkCycle (set_RelativeHumidity 42 display)
    [Exited;
     Spawned (updateLastHourTemperature env_without_value) "get last hour temperature";
     SendingNil;
     Spawned (updateLastHourRelativeHumidity env_without_value)
             "get last hour relative humidity";
     Spawned (fun d => fst (updateOutdoorTemperature env_without_value d))
             "get outdoor temperature"]
    2 ["get temperature: query: query: connection refused"%string] false.

(** A weather station that cannot be reached, next to a sensor database
    that answers every query. *)
Definition client_down : mesonet.Client :=
  mesonet.mkClient (fun _ => mesonet.TransportError "dial tcp: connection refused")
                   (fun _ => inl "unexpected end of JSON input"%string).

Definition env_station_down : Env :=
  mkEnv influx_up client_down (fun _ => noon) draw_nothing
        (count_pixels "PNG") (count_pixels "BM").

(** The cycles at the end of [all_finished] with the station down: on
    [recent], where the weather-station job skips its request, and on
    [display], where it fails. *)
Definition all_exited : cycle :=
  mkCycle recent [Exited; Exited; Exited; Exited; Exited] 5 [] false.

Definition station_reported : cycle :=
  mkCycle display [Exited; Exited; Exited; Exited; SendingNil] 5
    ["get outdoor temperature: do: do request: dial tcp: connection refused"%string] false.

End testdata.

(** * Properties *)

Import pages.

(** ** The weather-station job *)

(** C4. When the stored last-data timestamp is less than six minutes old,
    the weather-station job returns nil, sends no request and leaves the
    display, every field of it, as it was. *)
Theorem updateOutdoorTemperature_rate_limited (env : Env) (d : Display) :
  time.Since (clock env 0%nat) (MesonetLastData d) < 6 * time.Minute ->
  updateOutdoorTemperature env d = (Normal (d, None), []).
Proof.
  intros Hrecent. unfold updateOutdoorTemperature.
  apply Z.ltb_lt in Hrecent. now rewrite Hrecent.
Qed.

Lemma updateOutdoorTemperature_rate_limited_witness :
  updateOutdoorTemperature testdata.env testdata.recent
  = (Normal (testdata.recent, None), []).
Proof.
  apply (updateOutdoorTemperature_rate_limited testdata.env testdata.recent).
  vm_compute. reflexivity.
Defined.

(** The loop over the series, run from index [i] with the locals [s]: when
    the time coordinate has an entry for every sample, the loop ends
    normally; [last] is the last non-zero entry (or what it was), [sum]
    has the non-zero entries added, and [n] is what it was. *)
Lemma scan_tair_normal (times : list time.Time) (tair : list float) :
  forall (i : Z) (s : scan),
    0 <= i ->
    i + Z.of_nat (length tair) <= Z.of_nat (length times) ->
    exists s',
      scan_tair times i tair s = Normal s'
      /\ last s' = default (last s) (last_nonzero tair)
      /\ sum s' = foldl PrimFloat.add (sum s) (filter (fun t => float_nonzero t = true) tair)
      /\ n s' = n s.
Proof.
  induction tair as [|t rest IH]; intros i s Hi Hlen.
  - exists s. repeat split; reflexivity.
  - cbn [scan_tair]. cbn [length] in Hlen.
    unfold last_nonzero in *.
    destruct (float_nonzero t) eqn:Ht.
    + rewrite filter_cons_True by exact Ht.
      assert (Hin : exists u, index times i = Normal u).
      { unfold index.
        assert (Hlt : (Z.to_nat i < length times)%nat) by lia.
        destruct (lookup_lt_is_Some_2 times _ Hlt) as [u Hu].
        rewrite (proj2 (Z.ltb_ge i 0)), (proj2 (Z.leb_gt _ i)) by lia. cbn [orb].
        rewrite Hu. now exists u. }
      destruct Hin as [u Hu]. rewrite Hu. cbn [mbind outcome_bind].
      edestruct (IH (i + 1)) as (s' & Hrun & Hlast & Hsum & Hn); [lia | lia |].
      exists s'. split; [exact Hrun |]. cbn [last sum n] in *.
      repeat split; [| exact Hsum | exact Hn].
      rewrite Hlast. rewrite last_cons.
      now destruct (list.last (filter _ rest)).
    + rewrite filter_cons_False by (rewrite Ht; discriminate).
      edestruct (IH (i + 1) s) as (s' & Hrun & Hlast & Hsum & Hn); [lia | lia |].
      exists s'. repeat split; assumption.
Qed.

(** The latest value where the time coordinate has an entry for every
    sample: for a series with at least one non-zero entry, fetched when
    the rate limit does not apply, the job returns nil and
    [OutdoorTemperature] is the last non-zero entry of the series: zero
    entries, trailing ones included, are passed over. *)
Theorem updateOutdoorTemperature_latest (env : Env) (d : Display)
    (res : mesonet.Result) (x : float) :
  let tair := mesonet.FloatData
                (mesonet.lookup_var (mesonet.DataVars (mesonet.Response_ res)) "tair") in
  let times := mesonet.TimeData
                 (mesonet.lookup_var (mesonet.Coords (mesonet.Response_ res)) "time") in
  6 * time.Minute <= time.Since (clock env 0%nat) (MesonetLastData d) ->
  mesonet.Do (httpClient env) (mesonetRequest (clock env 1%nat)) = inr res ->
  (length tair <= length times)%nat ->
  last_nonzero tair = Some x ->
  exists d',
    fst (updateOutdoorTemperature env d) = Normal (d', None)
    /\ OutdoorTemperature d' = x.
Proof.
  intros tair times Hold Hdo Hcover Hlast.
  unfold updateOutdoorTemperature.
  rewrite (proj2 (Z.ltb_ge _ _) Hold).
  rewrite Hdo. fold tair times.
  assert (Hne : tair <> []) by (intros E; rewrite E in Hlast; discriminate).
  rewrite (proj2 (Z.eqb_neq (Z.of_nat (length tair)) 0))
    by (destruct tair; [congruence | cbn [length]; lia]).
  destruct (scan_tair_normal times tair 0 scan0) as (s & Hrun & Hs & _); [lia | lia |].
  cbn [fst]. rewrite Hrun. cbn [mbind outcome_bind].
  eexists. split; [reflexivity |].
  cbn [OutdoorTemperature set_outdoor]. rewrite Hs, Hlast. reflexivity.
Qed.

Lemma updateOutdoorTemperature_latest_witness :
  exists d',
    fst (updateOutdoorTemperature testdata.env testdata.display) = Normal (d', None)
    /\ OutdoorTemperature d' = 68.8%float.
Proof.
  apply (updateOutdoorTemperature_latest testdata.env testdata.display testdata.brooklyn).
  - vm_compute. discriminate.
  - reflexivity.
  - vm_compute. lia.
  - reflexivity.
Defined.

(** C5, at a response the job can receive: the series of the test data,
    [78.4, 0, 68.8], in a response that has no time coordinate. The last
    non-zero entry is 68.8, and the station answers without an error;
    but the loop reads [TimeData[i]] at the first non-zero entry without
    looking at the length of the coordinate, so the job panics at index 0
    of 0 and [OutdoorTemperature] is never assigned. *)
Theorem updateOutdoorTemperature_latest_without_time_coordinate :
  mesonet.Do (httpClient testdata.env_without_time)
             (mesonetRequest (clock testdata.env_without_time 1%nat))
  = inr testdata.brooklyn_without_time
  /\ mesonet.FloatData
       (mesonet.lookup_var (mesonet.DataVars (mesonet.Response_ testdata.brooklyn_without_time))
                           "tair")
     = [78.4; 0; 68.8]%float
  /\ last_nonzero [78.4; 0; 68.8]%float = Some 68.8%float
  /\ mesonet.TimeData
       (mesonet.lookup_var (mesonet.Coords (mesonet.Response_ testdata.brooklyn_without_time))
                           "time")
     = []
  /\ fst (updateOutdoorTemperature testdata.env_without_time testdata.display)
     = Panic (IndexOutOfRange 0 0).
Proof.
  split; [reflexivity |]. split; [reflexivity |]. split; [vm_compute; reflexivity |].
  split; [reflexivity |]. vm_compute. reflexivity.
Qed.

(** ** Trend glyphs *)

Section Trend.

(** A threshold [t] and its opposite [nt], as the renderer's literals. *)
Variables (t nt : float) (m : positive) (e : Z).
Hypothesis Ht : Prim2SF t = S754_finite false m e.
Hypothesis Hnt : Prim2SF nt = S754_finite true m e.

Lemma cmp_flip_Z (a b : Z) : (b ?= a) = CompOpp (a ?= b).
Proof. apply Z.compare_antisym. Qed.

Lemma cmp_flip_pos (a b : positive) :
  PosDef.Pos.compare_cont Eq b a = CompOpp (PosDef.Pos.compare_cont Eq a b).
Proof. apply (Pos.compare_antisym a b). Qed.

(** Within the threshold on both sides: neither comparison of the
    renderer holds. *)
Lemma within_threshold (chg : float) :
  (abs chg <=? t)%float = true ->
  (chg <? nt)%float = false /\ (t <? chg)%float = false.
Proof.
  rewrite leb_spec, abs_spec, !ltb_spec, Ht, Hnt.
  unfold SFleb, SFltb.
  destruct (Prim2SF chg) as [s | s | | s m' e']; cbn [SFabs SFcompare].
  - destruct s; auto.
  - destruct s; discriminate.
  - auto.
  - rewrite (cmp_flip_Z e' e), (cmp_flip_pos m' m).
    destruct s, (e' ?= e), (PosDef.Pos.compare_cont Eq m' m);
      cbn [CompOpp]; intros H; try discriminate H; auto.
Qed.

(** Above the threshold: the test for falling fails. *)
Lemma above_threshold (chg : float) :
  (t <? chg)%float = true -> (chg <? nt)%float = false.
Proof.
  rewrite !ltb_spec, Ht, Hnt. unfold SFltb.
  destruct (Prim2SF chg) as [s | s | | s m' e']; cbn [SFcompare].
  - destruct s; auto.
  - destruct s; auto.
  - auto.
  - destruct s; [discriminate | auto].
Qed.

End Trend.

Lemma half_spec : Prim2SF 0.5 = S754_finite false 4503599627370496 (-53).
Proof. reflexivity. Qed.
Lemma minus_half_spec : Prim2SF (-0.5) = S754_finite true 4503599627370496 (-53).
Proof. reflexivity. Qed.
Lemma one_spec : Prim2SF 1 = S754_finite false 4503599627370496 (-52).
Proof. reflexivity. Qed.
Lemma minus_one_spec : Prim2SF (-1) = S754_finite true 4503599627370496 (-52).
Proof. reflexivity. Qed.

(** C3. The trend glyph of each measurement, as a function of the
    difference [current - trailingMean] the renderer computes: flat when
    the absolute difference is at most the threshold, rising when the
    difference is above it, falling when it is below its opposite; the
    threshold is 0.5 for the indoor temperature and the relative humidity
    and 1 for the outdoor temperature. *)
Theorem trend_glyph_thresholds (d : Display) :
  let temp := (Temperature d - LastHourTemperature d)%float in
  let hum := (RelativeHumidity d - LastHourRelativeHumidity d)%float in
  let outdoor := (OutdoorTemperature d - LastHourOutdoorTemperature d)%float in
  (((abs temp <=? 0.5)%float = true -> tempChange d = flat)
   /\ ((0.5 <? temp)%float = true -> tempChange d = rising)
   /\ ((temp <? -0.5)%float = true -> tempChange d = falling))
  /\ (((abs hum <=? 0.5)%float = true -> humChange d = flat)
      /\ ((0.5 <? hum)%float = true -> humChange d = rising)
      /\ ((hum <? -0.5)%float = true -> humChange d = falling))
  /\ (((abs outdoor <=? 1)%float = true -> outdoorTempChange d = flat)
      /\ ((1 <? outdoor)%float = true -> outdoorTempChange d = rising)
      /\ ((outdoor <? -1)%float = true -> outdoorTempChange d = falling)).
Proof.
  intros temp hum outdoor.
  unfold tempChange, humChange, outdoorTempChange. fold temp hum outdoor.
  repeat split; intros H.
  - destruct (within_threshold _ _ _ _ half_spec minus_half_spec temp H) as [-> ->].
    reflexivity.
  - rewrite (above_threshold _ _ _ _ half_spec minus_half_spec temp H), H. reflexivity.
  - rewrite H. reflexivity.
  - destruct (within_threshold _ _ _ _ half_spec minus_half_spec hum H) as [-> ->].
    reflexivity.
  - rewrite (above_threshold _ _ _ _ half_spec minus_half_spec hum H), H. reflexivity.
  - rewrite H. reflexivity.
  - destruct (within_threshold _ _ _ _ one_spec minus_one_spec outdoor H) as [-> ->].
    reflexivity.
  - rewrite (above_threshold _ _ _ _ one_spec minus_one_spec outdoor H), H. reflexivity.
  - rewrite H. reflexivity.
Qed.

(** The values of the handler test: 69 against 65 rises, 42 against 50
    falls, 90 against 90 is flat, and the lines read accordingly. *)
Example trend_glyphs_of_handler_test :
  tempChange testdata.display = rising
  /\ humChange testdata.display = falling
  /\ outdoorTempChange testdata.display = flat
  /\ line0 testdata.display = list_byte_of_string "69.0" ++ [rising] ++ list_byte_of_string " 42" ++ [falling]
  /\ line1 testdata.display = list_byte_of_string "90.0" ++ [flat].
Proof. repeat split; vm_compute; reflexivity. Qed.

(** ** The renderer and the height of the display *)

Ltac zdiv := Z.div_mod_to_equations; lia.

Lemma bands_nil (height : Z) : height <= 0 -> bands height = [].
Proof.
  intros H. unfold bands. rewrite seqZ_nil; [reflexivity | zdiv].
Qed.

(** The bands are the multiples of 8 below the height. *)
Lemma elem_of_bands (height i : Z) :
  i ∈ bands height <-> exists k, i = 8 * k /\ 0 <= k /\ 8 * k < height.
Proof.
  unfold bands. rewrite list_elem_of_fmap. split.
  - intros (k & -> & Hk). apply elem_of_seqZ in Hk. exists k. split; [reflexivity | zdiv].
  - intros (k & -> & Hk). exists k. split; [reflexivity |].
    apply elem_of_seqZ. zdiv.
Qed.

Section DrawLoop.

Variable env : Env.
(** The font draws every line without an error. *)
Hypothesis draw_ok : forall img text x y, snd (sf_Draw env img text x y) = None.

Lemma draw_lines_in_range (img : loc) (lines : list (list byte)) (todo : list Z) :
  forall h : store,
    (forall i, i ∈ todo -> 0 <= Z.quot i 8 < Z.of_nat (length lines)) ->
    exists h', draw_lines env img lines todo h = Normal (h', None).
Proof.
  induction todo as [|i rest IH]; intros h Hrange.
  - exists h. reflexivity.
  - cbn [draw_lines].
    assert (Hi : 0 <= Z.quot i 8 < Z.of_nat (length lines))
      by (apply Hrange; left).
    unfold index.
    rewrite (proj2 (Z.ltb_ge _ 0)), (proj2 (Z.leb_gt _ _)) by lia. cbn [orb].
    destruct (lookup_lt_is_Some_2 lines (Z.to_nat (Z.quot i 8))) as [text Htext]; [lia |].
    rewrite Htext. cbn [mbind outcome_bind].
    pose proof (draw_ok (deref h img) text 0 i) as Hdraw.
    destruct (sf_Draw env (deref h img) text 0 i) as [drawn err].
    cbn [snd] in Hdraw. subst err.
    apply IH. intros j Hj. apply Hrange. now right.
Qed.

Lemma draw_lines_out_of_range (img : loc) (lines : list (list byte))
    (before : list Z) (i : Z) (after : list Z) :
  forall h : store,
    (forall j, j ∈ before -> 0 <= Z.quot j 8 < Z.of_nat (length lines)) ->
    Z.of_nat (length lines) <= Z.quot i 8 ->
    draw_lines env img lines (before ++ i :: after) h
    = Panic (IndexOutOfRange (Z.quot i 8) (Z.of_nat (length lines))).
Proof.
  induction before as [|j rest IH]; intros h Hrange Hi.
  - cbn [app draw_lines]. unfold index.
    rewrite (proj2 (Z.leb_le _ _) Hi), orb_true_r. reflexivity.
  - cbn [app draw_lines].
    assert (Hj : 0 <= Z.quot j 8 < Z.of_nat (length lines))
      by (apply Hrange; left).
    unfold index at 1.
    rewrite (proj2 (Z.ltb_ge _ 0)), (proj2 (Z.leb_gt _ _)) by lia. cbn [orb].
    destruct (lookup_lt_is_Some_2 lines (Z.to_nat (Z.quot j 8))) as [text Htext]; [lia |].
    rewrite Htext. cbn [mbind outcome_bind].
    pose proof (draw_ok (deref h img) text 0 j) as Hdraw.
    destruct (sf_Draw env (deref h img) text 0 j) as [drawn err].
    cbn [snd] in Hdraw. subst err.
    apply IH; [| exact Hi]. intros k Hk. apply Hrange. now right.
Qed.

End DrawLoop.

(** C9. [render] and the height of the display. Below 16 the call panics
    on the lines slice: [floor(Height/8)] slots are made and slots 0 and 1
    are written whatever the height (a negative height fails in [make]
    itself). So a call that does not panic has a height of at least 16.
    From 16 on, with a font that draws without error, the loop over the
    bands reads slot [i/8] for every [i = 0, 8, ...] below the height:
    the call ends normally when the height is a multiple of 8 and reads
    one slot too far otherwise. *)
Theorem render_needs_height_16 (env : Env) (h : store) (d : Display) :
  let height := Height (outputConfig d) in
  (height < 16 ->
   render env h d
   = Panic (if height <? 0 then MakesliceLenOutOfRange
            else IndexOutOfRange (if height <? 8 then 0 else 1) (height / 8)))
  /\ ((forall p, render env h d <> Panic p) -> 16 <= height)
  /\ ((forall img text x y, snd (sf_Draw env img text x y) = None) ->
      16 <= height ->
      (height mod 8 = 0 ->
       exists h' d', render env h d = Normal (h', d', None)
                     /\ screen d' !! 0%nat = Some (line0 d)
                     /\ screen d' !! 1%nat = Some (line1 d)
                     /\ Z.of_nat (length (screen d')) = height / 8
                     /\ is_Some (image d'))
      /\ (height mod 8 <> 0 ->
          render env h d = Panic (IndexOutOfRange (height / 8) (height / 8)))).
Proof.
  intros height.
  assert (Hlow : height < 16 ->
                 render env h d
                 = Panic (if height <? 0 then MakesliceLenOutOfRange
                          else IndexOutOfRange (if height <? 8 then 0 else 1) (height / 8))).
  { intros Hlt. unfold render. fold height. unfold make_lines.
    destruct (Z.ltb_spec height 0) as [Hneg | Hnonneg].
    - rewrite (proj2 (Z.ltb_lt (height / 8) 0)) by zdiv. reflexivity.
    - rewrite (proj2 (Z.ltb_ge (height / 8) 0)) by zdiv.
      destruct (Z.ltb_spec height 8) as [Hsmall | Hbig].
      + replace (height / 8) with 0 by zdiv. reflexivity.
      + replace (height / 8) with 1 by zdiv. reflexivity. }
  split; [exact Hlow |]. split.
  - intros Hsafe. destruct (Z.lt_ge_cases height 16) as [Hlt | Hge]; [| exact Hge].
    exfalso. exact (Hsafe _ (Hlow Hlt)).
  - intros Hdraw H16.
    assert (Hslots : 2 <= height / 8) by zdiv.
    unfold render. fold height. unfold make_lines.
    rewrite (proj2 (Z.ltb_ge (height / 8) 0)) by lia.
    cbn [mbind outcome_bind]. unfold assign_index.
    rewrite length_replicate.
    rewrite (proj2 (Z.leb_gt _ 0)) by lia. cbn [Z.ltb Z.compare orb mbind outcome_bind].
    rewrite length_insert, length_replicate.
    rewrite (proj2 (Z.leb_gt _ 1)) by lia. cbn [Z.ltb Z.compare orb mbind outcome_bind].
    set (lines := <[Z.to_nat 1 := line1 d]> (<[Z.to_nat 0 := line0 d]> (replicate (Z.to_nat (height / 8)) []))).
    assert (Hlen : Z.of_nat (length lines) = height / 8).
    { unfold lines. rewrite !length_insert, length_replicate. lia. }
    unfold alloc.
    set (img := fresh (dom h)).
    match goal with |- context [draw_lines env img lines (bands height) ?h0] => set (h1 := h0) end.
    split.
    + intros Hmod.
      destruct (draw_lines_in_range env Hdraw img lines (bands height) h1) as [h' Hrun].
      { intros i Hi. apply elem_of_bands in Hi as (k & -> & Hk0 & Hk).
        rewrite Z.mul_comm, Z.quot_mul by lia. rewrite Hlen. zdiv. }
      rewrite Hrun. cbn [mbind outcome_bind].
      exists h'. eexists. split; [reflexivity |].
      cbn [screen image set_image set_screen]. repeat split.
      * unfold lines. rewrite list_lookup_insert_ne by lia.
        apply list_lookup_insert_eq. rewrite length_replicate. lia.
      * unfold lines. apply list_lookup_insert_eq.
        rewrite length_insert, length_replicate. lia.
      * exact Hlen.
      * eauto.
    + intros Hmod.
      assert (Hbands : bands height
                       = map (Z.mul 8) (seqZ 0 (height / 8)) ++ 8 * (height / 8) :: []).
      { unfold bands. replace ((height + 7) / 8) with (height / 8 + 1) by zdiv.
        rewrite seqZ_app by lia. rewrite map_app.
        rewrite (seqZ_cons (0 + height / 8) 1) by lia.
        rewrite (seqZ_nil _ (Z.pred 1)) by lia. reflexivity. }
      rewrite Hbands.
      rewrite (draw_lines_out_of_range env Hdraw img lines _ (8 * (height / 8)) [] h1).
      * cbn [mbind outcome_bind]. rewrite Z.mul_comm, Z.quot_mul, Hlen by lia. reflexivity.
      * intros j Hj. apply list_elem_of_fmap in Hj as (k & -> & Hk).
        apply elem_of_seqZ in Hk. rewrite Z.mul_comm, Z.quot_mul by lia. lia.
      * rewrite Z.mul_comm, Z.quot_mul by lia. lia.
Qed.

(** At the heights 8, 17 and 32, with 64 columns. *)
Example render_at_heights :
  render testdata.env ∅ (New (mkOutputConfig 64 8)) = Panic (IndexOutOfRange 1 1)
  /\ render testdata.env ∅ (New (mkOutputConfig 64 17)) = Panic (IndexOutOfRange 2 2)
  /\ (exists h d, render testdata.env ∅ (New (mkOutputConfig 64 32)) = Normal (h, d, None)).
Proof.
  split; [vm_compute; reflexivity |]. split; [vm_compute; reflexivity |].
  eexists. eexists. vm_compute. reflexivity.
Qed.

(** ** Pixel buffers *)

Lemma Rect_ordered (x1 y1 : Z) :
  0 <= x1 -> 0 <= y1 ->
  image.Rect 0 0 x1 y1 = image.mkRectangle (image.mkPoint 0 0) (image.mkPoint x1 y1).
Proof.
  intros Hx Hy. unfold image.Rect.
  rewrite (proj2 (Z.ltb_ge x1 0) Hx), (proj2 (Z.ltb_ge y1 0) Hy). reflexivity.
Qed.

Lemma NewRGBA_well_formed (r : image.Rectangle) :
  0 <= image.Dx r -> 0 <= image.Dy r -> well_formed (image.NewRGBA r).
Proof.
  intros Hx Hy. unfold well_formed, image.NewRGBA. cbn [image.Bounds image.Pix].
  rewrite length_replicate. auto.
Qed.

Lemma At_NewRGBA (r : image.Rectangle) (x y : Z) :
  image.At (image.NewRGBA r) x y = color.zero.
Proof.
  unfold image.At, image.NewRGBA. cbn [image.Bounds image.Pix].
  destruct (image.In x y r); [| reflexivity].
  destruct (replicate _ _ !! _) as [c|] eqn:Hc; [| reflexivity].
  apply lookup_replicate in Hc as [-> _]. reflexivity.
Qed.

Lemma Bounds_Set (p : image.RGBA) (x y : Z) (c : color.RGBA) :
  image.Bounds (image.Set_ p x y c) = image.Bounds p.
Proof. unfold image.Set_. now destruct (image.In x y (image.Bounds p)). Qed.

Lemma Set_well_formed (p : image.RGBA) (x y : Z) (c : color.RGBA) :
  well_formed p -> well_formed (image.Set_ p x y c).
Proof.
  unfold well_formed, image.Set_.
  destruct (image.In x y (image.Bounds p)); cbn [image.Bounds image.Pix]; [| auto].
  now rewrite length_insert.
Qed.

Lemma In_bounds (x y : Z) (r : image.Rectangle) :
  image.In x y r = true
  <-> image.X (image.Min r) <= x < image.X (image.Max r)
      /\ image.Y (image.Min r) <= y < image.Y (image.Max r).
Proof. unfold image.In. rewrite !andb_true_iff. lia. Qed.

(** Reading after a write: the colour written at the pixel written, when
    it lies in the bounds; what was there everywhere else. *)
Lemma At_Set (p : image.RGBA) (x y : Z) (c : color.RGBA) (x' y' : Z) :
  well_formed p ->
  image.At (image.Set_ p x y c) x' y'
  = if (x' =? x) && (y' =? y) && image.In x y (image.Bounds p) then c
    else image.At p x' y'.
Proof.
  intros (Hdx & Hdy & Hlen). unfold image.Set_.
  destruct (image.In x y (image.Bounds p)) eqn:Hin;
    [| now rewrite andb_false_r].
  rewrite andb_true_r. unfold image.At. cbn [image.Bounds image.Pix].
  unfold image.PixOffset. cbn [image.Bounds image.Pix].
  apply In_bounds in Hin. unfold image.Dx, image.Dy in *.
  set (dx := image.X (image.Max (image.Bounds p)) - image.X (image.Min (image.Bounds p))) in *.
  set (dy := image.Y (image.Max (image.Bounds p)) - image.Y (image.Min (image.Bounds p))) in *.
  set (x0 := image.X (image.Min (image.Bounds p))) in *.
  set (y0 := image.Y (image.Min (image.Bounds p))) in *.
  destruct ((x' =? x) && (y' =? y)) eqn:Hsame.
  - apply andb_true_iff in Hsame as [->%Z.eqb_eq ->%Z.eqb_eq].
    replace (image.In x y (image.Bounds p)) with true
      by (symmetry; apply In_bounds; unfold x0, y0, dx, dy in *; lia).
    rewrite list_lookup_insert_eq; [reflexivity |]. rewrite Hlen. nia.
  - destruct (image.In x' y' (image.Bounds p)) eqn:Hin'; [| reflexivity].
    apply In_bounds in Hin'. fold x0 y0 in Hin'.
    rewrite list_lookup_insert_ne; [reflexivity |].
    intros Heq. apply Z2Nat.inj in Heq; [| nia | nia].
    assert (y = y') by nia. assert (x = x') by nia. subst.
    rewrite !Z.eqb_refl in Hsame. discriminate.
Qed.

Lemma At_outside (p : image.RGBA) (x y : Z) :
  image.In x y (image.Bounds p) = false -> image.At p x y = color.zero.
Proof. intros H. unfold image.At. now rewrite H. Qed.

(** *** Loops of writes *)

Lemma overlay_cons {K C} (write : K -> option C) (k : K) (ks : list K) (acc : option C) :
  overlay write (k :: ks) acc
  = overlay write ks (match write k with Some c => Some c | None => acc end).
Proof. reflexivity. Qed.

Lemma overlay_ext {K C} (write write' : K -> option C) (ks : list K) (acc : option C) :
  (forall k, write k = write' k) -> overlay write ks acc = overlay write' ks acc.
Proof.
  intros Hext. revert acc. induction ks as [|k ks IH]; intros acc; [reflexivity |].
  rewrite !overlay_cons, Hext. apply IH.
Qed.

Lemma overlay_acc {K C} (write : K -> option C) (ks : list K) (acc : option C) :
  overlay write ks acc
  = match overlay write ks None with Some c => Some c | None => acc end.
Proof.
  revert acc. induction ks as [|k ks IH]; intros acc; [reflexivity |].
  rewrite !overlay_cons.
  rewrite (IH (match write k with Some c => Some c | None => acc end)).
  rewrite (IH (match write k with Some c => Some c | None => None end)).
  destruct (overlay write ks None), (write k); reflexivity.
Qed.

Lemma overlay_none {K C} (write : K -> option C) (ks : list K) (acc : option C) :
  (forall k, k ∈ ks -> write k = None) -> overlay write ks acc = acc.
Proof.
  revert acc. induction ks as [|k ks IH]; intros acc Hnone; [reflexivity |].
  rewrite overlay_cons, (Hnone k) by left.
  apply IH. intros k' Hk'. apply Hnone. now right.
Qed.

Lemma overlay_stable {K C} (write : K -> option C) (ks : list K) (c : C) :
  (forall k, k ∈ ks -> write k = None \/ write k = Some c) ->
  overlay write ks (Some c) = Some c.
Proof.
  induction ks as [|k ks IH]; intros Hks; [reflexivity |].
  rewrite overlay_cons.
  destruct (Hks k) as [-> | ->]; [left | |]; apply IH; intros k' Hk'; apply Hks; now right.
Qed.

Lemma overlay_covered {K C} (write : K -> option C) (ks : list K) (c : C) :
  (forall k, k ∈ ks -> write k = None \/ write k = Some c) ->
  (exists k, k ∈ ks /\ write k = Some c) ->
  forall acc, overlay write ks acc = Some c.
Proof.
  induction ks as [|k ks IH]; intros Hks (k0 & Hin & Hk0) acc; [inversion Hin |].
  rewrite overlay_cons.
  assert (Htail : forall k', k' ∈ ks -> write k' = None \/ write k' = Some c)
    by (intros k' Hk'; apply Hks; now right).
  apply elem_of_cons in Hin as [-> | Hin].
  - rewrite Hk0. now apply overlay_stable.
  - apply IH; [exact Htail | now exists k0].
Qed.

(** When one write only covers the pixel, its colour is what is left. *)
Lemma overlay_unique {K C} `{EqDecision K} (write : K -> option C) (ks : list K) (k0 : K) :
  k0 ∈ ks ->
  (forall k, k ∈ ks -> k <> k0 -> write k = None) ->
  overlay write ks None = write k0.
Proof.
  intros Hin Hothers. destruct (write k0) as [c0|] eqn:Hk0.
  - apply overlay_covered; [| now exists k0].
    intros k Hk. destruct (decide (k = k0)) as [-> | Hne]; [now right | left; auto].
  - apply overlay_none. intros k Hk.
    destruct (decide (k = k0)) as [-> | Hne]; auto.
Qed.

Lemma paints_ext (paint : image.RGBA -> image.RGBA) (layer layer' : Z -> Z -> option color.RGBA) :
  (forall x y, layer x y = layer' x y) -> paints paint layer -> paints paint layer'.
Proof.
  intros Hext Hp p Hwf. destruct (Hp p Hwf) as (? & ? & Hat).
  split; [assumption |]. split; [assumption |].
  intros x y Hin. rewrite <- Hext. now apply Hat.
Qed.

Lemma paints_Set (x y : Z) (c : color.RGBA) :
  paints (fun p => image.Set_ p x y c)
         (fun x' y' => if (x' =? x) && (y' =? y) then Some c else None).
Proof.
  intros p Hwf. split; [now apply Set_well_formed |]. split; [apply Bounds_Set |].
  intros x' y' Hin. rewrite At_Set by exact Hwf.
  destruct ((x' =? x) && (y' =? y)) eqn:Hsame; [| reflexivity].
  apply andb_true_iff in Hsame as [->%Z.eqb_eq ->%Z.eqb_eq]. now rewrite Hin.
Qed.

(** A loop of painters paints the overlay of their layers. *)
Lemma paints_foldl {K} (paint : K -> image.RGBA -> image.RGBA)
    (layer : K -> Z -> Z -> option color.RGBA) (ks : list K) :
  (forall k, k ∈ ks -> paints (paint k) (layer k)) ->
  paints (fun p => foldl (fun p k => paint k p) p ks)
         (fun x y => overlay (fun k => layer k x y) ks None).
Proof.
  induction ks as [|k ks IH]; intros Hks p Hwf.
  - split; [exact Hwf |]. split; reflexivity.
  - cbn [foldl].
    destruct (Hks k (list_elem_of_here _ _) p Hwf) as (Hwf1 & Hb1 & Hat1).
    destruct (IH (fun k' Hk' => Hks k' (list_elem_of_further _ _ _ Hk')) _ Hwf1)
      as (Hwf2 & Hb2 & Hat2).
    split; [exact Hwf2 |]. split; [congruence |].
    intros x y Hin. rewrite Hat2 by congruence. rewrite Hat1 by exact Hin.
    rewrite overlay_cons. cbv beta.
    rewrite (overlay_acc _ ks (match layer k x y with Some c => Some c | None => None end)).
    destruct (overlay _ ks None); [reflexivity |].
    now destruct (layer k x y).
Qed.

Lemma paints_for_range (lo hi : Z) (paint : Z -> image.RGBA -> image.RGBA)
    (layer : Z -> Z -> Z -> option color.RGBA) :
  (forall k, lo <= k < hi -> paints (paint k) (layer k)) ->
  paints (for_range lo hi paint)
         (fun x y => overlay (fun k => layer k x y) (seqZ lo (hi - lo)) None).
Proof.
  intros Hks. unfold for_range. apply paints_foldl.
  intros k Hk. apply Hks. apply elem_of_seqZ in Hk. lia.
Qed.

(** The overlay of writes indexed by a range, when only [k0] covers. *)
Lemma overlay_range_unique {C} (write : Z -> option C) (lo hi k0 : Z) :
  lo <= k0 < hi ->
  (forall k, lo <= k < hi -> k <> k0 -> write k = None) ->
  overlay write (seqZ lo (hi - lo)) None = write k0.
Proof.
  intros Hk0 Hothers. apply overlay_unique.
  - apply elem_of_seqZ. lia.
  - intros k Hk. apply elem_of_seqZ in Hk. apply Hothers. lia.
Qed.

Lemma overlay_range_none {C} (write : Z -> option C) (lo hi : Z) :
  (forall k, lo <= k < hi -> write k = None) ->
  overlay write (seqZ lo (hi - lo)) None = None.
Proof.
  intros Hnone. apply overlay_none.
  intros k Hk. apply elem_of_seqZ in Hk. apply Hnone. lia.
Qed.

(** *** Enlargement *)

Ltac bool_cases :=
  repeat match goal with
    | |- context [?a =? ?b] => destruct (Z.eqb_spec a b)
    | |- context [?a <=? ?b] => destruct (Z.leb_spec a b)
    | |- context [?a <? ?b] => destruct (Z.ltb_spec a b)
    end;
  cbn [andb orb negb].

Lemma in_block_unique (enlarge space k v : Z) :
  0 < enlarge -> 0 <= space ->
  in_block enlarge space k v = true ->
  k = v / enlarge /\ space <= v mod enlarge < enlarge - space.
Proof.
  intros Hf Hs Hin. unfold in_block in Hin.
  apply andb_true_iff in Hin as [Hlo%Z.leb_le Hhi%Z.ltb_lt].
  assert (Hk : k = v / enlarge).
  { apply (Z.div_unique v enlarge k (v - k * enlarge)); lia. }
  split; [exact Hk |].
  assert (Hmod : v mod enlarge = v - k * enlarge).
  { symmetry. apply (Z.mod_unique v enlarge k); lia. }
  lia.
Qed.

Lemma in_block_quotient (enlarge space v : Z) :
  0 < enlarge ->
  in_block enlarge space (v / enlarge) v
  = (space <=? v mod enlarge) && (v mod enlarge <? enlarge - space).
Proof.
  intros Hf. unfold in_block.
  pose proof (Z.div_mod v enlarge ltac:(lia)) as Hdm.
  bool_cases; try reflexivity; lia.
Qed.

(** The overlay over the source pixels of one axis: the block that holds
    [v], if one does, decides. *)
Lemma overlay_blocks {C} (enlarge space len v : Z) (other : bool) (c : Z -> C) :
  0 < enlarge -> 0 <= space ->
  overlay (fun k => if in_block enlarge space k v && other then Some (c k) else None)
          (seqZ 0 (len - 0)) None
  = if in_blocks enlarge space len v && other then Some (c (v / enlarge)) else None.
Proof.
  intros Hf Hs. unfold in_blocks.
  destruct ((0 <=? v / enlarge) && (v / enlarge <? len)) eqn:Hrange.
  - apply andb_true_iff in Hrange as [H0%Z.leb_le Hlen%Z.ltb_lt].
    rewrite (overlay_range_unique _ 0 len (v / enlarge)); [| lia |].
    + rewrite in_block_quotient by exact Hf. cbn [andb]. reflexivity.
    + intros k Hk Hne. destruct (in_block enlarge space k v) eqn:Hin; [| reflexivity].
      apply in_block_unique in Hin as [-> _]; [congruence | lia | lia].
  - cbn [andb]. apply overlay_range_none. intros k Hk.
    destruct (in_block enlarge space k v) eqn:Hin; [| reflexivity].
    apply in_block_unique in Hin as [-> _]; [| lia | lia].
    apply andb_false_iff in Hrange as [H%Z.leb_gt | H%Z.ltb_ge]; lia.
Qed.

(** The overlay over the offsets within one block. *)
Lemma overlay_offsets {C} (enlarge space k v : Z) (other : bool) (c : C) :
  overlay (fun i => if (v =? k * enlarge + i) && other then Some c else None)
          (seqZ space (enlarge - space - space)) None
  = if in_block enlarge space k v && other then Some c else None.
Proof.
  unfold in_block.
  destruct ((k * enlarge + space <=? v) && (v <? k * enlarge + enlarge - space)) eqn:Hrange.
  - apply andb_true_iff in Hrange as [Hlo%Z.leb_le Hhi%Z.ltb_lt].
    rewrite (overlay_range_unique _ space (enlarge - space) (v - k * enlarge)); [| lia |].
    + rewrite (proj2 (Z.eqb_eq v _)) by lia. reflexivity.
    + intros i Hi Hne. rewrite (proj2 (Z.eqb_neq v _)) by lia. reflexivity.
  - cbn [andb]. apply overlay_range_none. intros i Hi.
    destruct (Z.eqb_spec v (k * enlarge + i)) as [-> |]; [| reflexivity].
    apply andb_false_iff in Hrange as [H%Z.leb_gt | H%Z.ltb_ge]; lia.
Qed.

Section Enlarge.

Variables (src : image.RGBA) (enlarge space : Z).
Hypothesis enlarge_pos : 0 < enlarge.
Hypothesis space_nonneg : 0 <= space.

(** The innermost loop: one column segment of a block. *)
Lemma inner_loop_paints (x0 k : Z) (val : color.RGBA) :
  paints (for_range space (enlarge - space) (fun j dst =>
            image.Set_ dst x0 (k * enlarge + j) val))
         (fun x y => if in_block enlarge space k y && (x =? x0) then Some val else None).
Proof.
  eapply paints_ext; [| apply paints_for_range; intros j _; apply paints_Set].
  intros x y. cbv beta.
  rewrite <- (overlay_offsets enlarge space k y (x =? x0) val).
  apply overlay_ext. intros j. now rewrite andb_comm.
Qed.

(** The two inner loops: the block of the source pixel [(kx, ky)]. *)
Lemma block_loops_paint (kx ky : Z) (val : color.RGBA) :
  paints (for_range space (enlarge - space) (fun i =>
            for_range space (enlarge - space) (fun j dst =>
              image.Set_ dst (kx * enlarge + i) (ky * enlarge + j) val)))
         (fun x y => if in_block enlarge space kx x && in_block enlarge space ky y
                     then Some val else None).
Proof.
  eapply paints_ext;
    [| apply paints_for_range; intros i _; apply inner_loop_paints].
  intros x y. cbv beta.
  rewrite <- (overlay_offsets enlarge space kx x (in_block enlarge space ky y) val).
  apply overlay_ext. intros i. now rewrite andb_comm.
Qed.

(** The loop over the rows of the source, for the source column [kx]. *)
Lemma row_loop_paints (kx : Z) :
  paints (for_range 0 (image.Dy (image.Bounds src)) (fun y dst =>
            let val := image.At src kx y in
            for_range space (enlarge - space) (fun i =>
              for_range space (enlarge - space) (fun j dst =>
                image.Set_ dst (kx * enlarge + i) (y * enlarge + j) val)) dst))
         (fun x y => if in_blocks enlarge space (image.Dy (image.Bounds src)) y
                        && in_block enlarge space kx x
                     then Some (image.At src kx (y / enlarge)) else None).
Proof.
  eapply paints_ext;
    [| apply paints_for_range; intros ky _;
       apply (block_loops_paint kx ky (image.At src kx ky))].
  intros x y. cbv beta.
  rewrite <- (overlay_blocks enlarge space _ y (in_block enlarge space kx x)
                (fun ky => image.At src kx ky) enlarge_pos space_nonneg).
  apply overlay_ext. intros ky. now rewrite andb_comm.
Qed.

Lemma enlarge_pixels_paints :
  paints (enlarge_pixels src enlarge space) (enlarged_layer src enlarge space).
Proof.
  unfold enlarge_pixels.
  eapply paints_ext; [| apply paints_for_range; intros kx _; apply row_loop_paints].
  intros x y. cbv beta. unfold enlarged_layer.
  rewrite <- (overlay_blocks enlarge space _ x
                (in_blocks enlarge space (image.Dy (image.Bounds src)) y)
                (fun kx => image.At src kx (y / enlarge)) enlarge_pos space_nonneg).
  apply overlay_ext. intros kx. now rewrite andb_comm.
Qed.

End Enlarge.

Lemma in_blocks_range (enlarge space len v : Z) :
  0 < enlarge ->
  in_blocks enlarge space len v = true -> 0 <= v < enlarge * len.
Proof.
  intros Hf Hin. unfold in_blocks in Hin.
  apply andb_true_iff in Hin as [Hin _]. apply andb_true_iff in Hin as [Hin _].
  apply andb_true_iff in Hin as [H0%Z.leb_le Hlen%Z.ltb_lt].
  split.
  - destruct (Z.lt_ge_cases v 0) as [Hneg |]; [| assumption].
    pose proof (Z.div_lt_upper_bound v enlarge 0 Hf ltac:(lia)). lia.
  - destruct (Z.lt_ge_cases v (enlarge * len)) as [| Hbig]; [assumption |].
    pose proof (Z.div_le_lower_bound v enlarge len Hf Hbig). lia.
Qed.

(** What [enlargedImage] leaves in a fresh buffer of [enlarge] times the
    size of the source: inside the blocks the colour of the source pixel,
    the zero colour of the fresh buffer on the margins and outside. *)
Lemma At_enlarge_pixels (src : image.RGBA) (enlarge space : Z) :
  0 < enlarge -> 0 <= space ->
  0 <= image.Dx (image.Bounds src) -> 0 <= image.Dy (image.Bounds src) ->
  let dst := enlarge_pixels src enlarge space
               (image.NewRGBA (image.Rect 0 0 (enlarge * image.Dx (image.Bounds src))
                                              (enlarge * image.Dy (image.Bounds src)))) in
  well_formed dst
  /\ image.Bounds dst = image.Rect 0 0 (enlarge * image.Dx (image.Bounds src))
                                       (enlarge * image.Dy (image.Bounds src))
  /\ forall x y, image.At dst x y = default color.zero (enlarged_layer src enlarge space x y).
Proof.
  intros Hf Hs Hdx Hdy dst.
  set (dx := image.Dx (image.Bounds src)) in *.
  set (dy := image.Dy (image.Bounds src)) in *.
  assert (Hrect : image.Rect 0 0 (enlarge * dx) (enlarge * dy)
                  = image.mkRectangle (image.mkPoint 0 0)
                                      (image.mkPoint (enlarge * dx) (enlarge * dy)))
    by (apply Rect_ordered; nia).
  destruct (enlarge_pixels_paints src enlarge space Hf Hs
              (image.NewRGBA (image.Rect 0 0 (enlarge * dx) (enlarge * dy))))
    as (Hwf & Hbounds & Hat).
  { apply NewRGBA_well_formed; rewrite Hrect; unfold image.Dx, image.Dy; cbn; nia. }
  fold dst in Hwf, Hbounds, Hat. cbn [image.NewRGBA image.Bounds] in Hbounds, Hat.
  split; [exact Hwf |]. split; [exact Hbounds |].
  intros x y.
  destruct (image.In x y (image.Rect 0 0 (enlarge * dx) (enlarge * dy))) eqn:Hin.
  - rewrite Hat by exact Hin. now rewrite At_NewRGBA.
  - rewrite At_outside by (rewrite Hbounds; exact Hin).
    unfold enlarged_layer. fold dx dy.
    destruct (in_blocks enlarge space dx x && in_blocks enlarge space dy y) eqn:Hblocks;
      [| reflexivity].
    apply andb_true_iff in Hblocks as [Hx%in_blocks_range Hy%in_blocks_range]; try exact Hf.
    rewrite Hrect in Hin.
    assert (Hin' : image.In x y (image.mkRectangle (image.mkPoint 0 0)
                                   (image.mkPoint (enlarge * dx) (enlarge * dy))) = true)
      by (apply In_bounds; cbn; lia).
    congruence.
Qed.

(** *** The loops of [enlargedImage] through the store *)

Lemma store_Set_insert (img : loc) (b : image.RGBA) (h : store) (x y : Z) (c : color.RGBA) :
  store_Set img x y c (<[img := b]> h) = <[img := image.Set_ b x y c]> h.
Proof. exact (alter_insert_eq h img (fun p => image.Set_ p x y c) b). Qed.

Lemma deref_insert_ne (img l : loc) (b : image.RGBA) (h : store) :
  img <> l -> deref (<[img := b]> h) l = deref h l.
Proof. intros Hne. unfold deref. now rewrite lookup_insert_ne. Qed.

(** A loop that only writes through the pointer [img] is the loop on the
    buffer [img] points to. *)
Lemma for_range_through_pointer (img : loc) (h : store) (lo hi : Z)
    (body : Z -> store -> store) (pure : Z -> image.RGBA -> image.RGBA) :
  (forall i b, body i (<[img := b]> h) = <[img := pure i b]> h) ->
  forall b, for_range lo hi body (<[img := b]> h) = <[img := for_range lo hi pure b]> h.
Proof.
  intros Hbody. unfold for_range.
  induction (seqZ lo (hi - lo)) as [|i is_ IH]; intros b; [reflexivity |].
  cbn [foldl]. rewrite Hbody. apply IH.
Qed.

(** The loops of [enlargedImage], started on a fresh buffer [img] other
    than the source, leave the store as it was but for [img], which holds
    what the loops make of its first content. *)
Lemma enlarge_loops_through_pointer (src img : loc) (h : store) (enlarge space dx dy : Z)
    (b : image.RGBA) :
  img <> src ->
  for_range 0 dx (fun x =>
    for_range 0 dy (fun y h =>
      let val := image.At (deref h src) x y in
      for_range space (enlarge - space) (fun i =>
        for_range space (enlarge - space) (fun j =>
          store_Set img (x * enlarge + i) (y * enlarge + j) val)) h)) (<[img := b]> h)
  = <[img :=
       for_range 0 dx (fun x =>
         for_range 0 dy (fun y dst =>
           let val := image.At (deref h src) x y in
           for_range space (enlarge - space) (fun i =>
             for_range space (enlarge - space) (fun j dst =>
               image.Set_ dst (x * enlarge + i) (y * enlarge + j) val)) dst)) b]> h.
Proof.
  intros Hne.
  apply for_range_through_pointer. intros x b1.
  apply for_range_through_pointer. intros y b2. cbv zeta.
  rewrite deref_insert_ne by exact Hne.
  apply for_range_through_pointer. intros i b3.
  apply for_range_through_pointer. intros j b4.
  apply store_Set_insert.
Qed.

Lemma fresh_not_allocated (h : store) : h !! fresh (dom h) = None.
Proof. apply not_elem_of_dom. apply is_fresh. Qed.

(** [enlargedImage] on a rendered display: a fresh buffer is added to the
    store, filled by the loops from the source; nothing else changes. *)
Lemma enlargedImage_rendered (d : Display) (h : store) (src : loc) (s : image.RGBA)
    (enlarge space : Z) :
  image d = Some src ->
  h !! src = Some s ->
  enlargedImage d enlarge space h
  = (fresh (dom h),
     <[fresh (dom h) :=
        enlarge_pixels s enlarge space
          (image.NewRGBA (image.Rect 0 0 (enlarge * image.Dx (image.Bounds s))
                                         (enlarge * image.Dy (image.Bounds s))))]> h).
Proof.
  intros Himg Hsrc. unfold enlargedImage. rewrite Himg.
  assert (Hderef : deref h src = s) by (unfold deref; now rewrite Hsrc).
  rewrite Hderef. unfold alloc.
  assert (Hne : fresh (dom h) <> src).
  { intros E. pose proof (fresh_not_allocated h) as Hfresh. rewrite E in Hfresh. congruence. }
  rewrite enlarge_loops_through_pointer by exact Hne.
  rewrite Hderef. reflexivity.
Qed.

(** [enlargedImage] before the first render: the blank 1x1 placeholder
    and the enlarged buffer are added to the store. *)
Lemma enlargedImage_not_rendered (d : Display) (h : store) (enlarge space : Z) :
  image d = None ->
  let placeholder := image.NewRGBA (image.Rect 0 0 1 1) in
  let h0 := <[fresh (dom h) := placeholder]> h in
  enlargedImage d enlarge space h
  = (fresh (dom h0),
     <[fresh (dom h0) :=
        enlarge_pixels placeholder enlarge space
          (image.NewRGBA (image.Rect 0 0 (enlarge * 1) (enlarge * 1)))]> h0).
Proof.
  intros Himg placeholder h0. unfold enlargedImage. rewrite Himg. unfold alloc.
  fold placeholder. fold h0.
  assert (Hderef : deref h0 (fresh (dom h)) = placeholder)
    by (unfold deref, h0; now rewrite lookup_insert_eq).
  rewrite Hderef.
  assert (Hne : fresh (dom h0) <> fresh (dom h)).
  { intros E. pose proof (fresh_not_allocated h0) as Hfresh. rewrite E in Hfresh.
    unfold h0 in Hfresh at 1. rewrite lookup_insert_eq in Hfresh. discriminate. }
  change (image.Dx (image.Bounds placeholder)) with 1.
  change (image.Dy (image.Bounds placeholder)) with 1.
  rewrite enlarge_loops_through_pointer by exact Hne.
  rewrite Hderef. reflexivity.
Qed.

(** [enlargedImage] in general: for a rendered display whose buffer has
    [dx] by [dy] pixels, a positive factor and a margin that is not
    negative, the call adds one buffer of [enlarge * dx] by [enlarge * dy]
    pixels to the store and changes nothing else; a pixel of it has the
    colour of the source pixel of its block when it lies at least [space]
    pixels inside the block along both axes, and the zero colour
    otherwise. *)
Theorem enlargedImage_blocks (d : Display) (h : store) (src : loc) (s : image.RGBA)
    (enlarge space : Z) :
  image d = Some src ->
  h !! src = Some s ->
  0 <= image.Dx (image.Bounds s) -> 0 <= image.Dy (image.Bounds s) ->
  0 < enlarge -> 0 <= space ->
  exists big,
    enlargedImage d enlarge space h = (fresh (dom h), <[fresh (dom h) := big]> h)
    /\ h !! fresh (dom h) = None
    /\ image.Bounds big = image.Rect 0 0 (enlarge * image.Dx (image.Bounds s))
                                         (enlarge * image.Dy (image.Bounds s))
    /\ forall x y,
         image.At big x y
         = if in_blocks enlarge space (image.Dx (image.Bounds s)) x
              && in_blocks enlarge space (image.Dy (image.Bounds s)) y
           then image.At s (x / enlarge) (y / enlarge)
           else color.zero.
Proof.
  intros Himg Hsrc Hdx Hdy Hf Hs.
  destruct (At_enlarge_pixels s enlarge space Hf Hs Hdx Hdy) as (_ & Hbounds & Hat).
  eexists. split; [apply (enlargedImage_rendered d h src s); assumption |].
  split; [apply fresh_not_allocated |]. split; [exact Hbounds |].
  intros x y. rewrite Hat. unfold enlarged_layer.
  now destruct (in_blocks _ _ _ x && in_blocks _ _ _ y).
Qed.

Lemma enlargedImage_blocks_witness :
  exists big,
    enlargedImage testdata.dot_display 3 1 testdata.dot_store
    = (fresh (dom testdata.dot_store), <[fresh (dom testdata.dot_store) := big]> testdata.dot_store)
    /\ testdata.dot_store !! fresh (dom testdata.dot_store) = None
    /\ image.Bounds big
       = image.Rect 0 0 (3 * image.Dx (image.Bounds testdata.dot))
                        (3 * image.Dy (image.Bounds testdata.dot))
    /\ forall x y,
         image.At big x y
         = if in_blocks 3 1 (image.Dx (image.Bounds testdata.dot)) x
              && in_blocks 3 1 (image.Dy (image.Bounds testdata.dot)) y
           then image.At testdata.dot (x / 3) (y / 3)
           else color.zero.
Proof.
  apply (enlargedImage_blocks testdata.dot_display testdata.dot_store 1%positive testdata.dot 3 1).
  - reflexivity.
  - reflexivity.
  - vm_compute. discriminate.
  - vm_compute. discriminate.
  - lia.
  - lia.
Defined.

Lemma in_blocks_16_2 (v : Z) : in_blocks 16 2 1 v = (2 <=? v) && (v <=? 13).
Proof. unfold in_blocks. bool_cases; try reflexivity; zdiv. Qed.

(** C6. Enlarging a 1x1 buffer of colour [c] by 16 with margin 2: one
    fresh 16x16 buffer is added to the store; its pixels at 2..13 on both
    axes have the colour [c] and every other pixel keeps the zero colour
    of a fresh buffer; the source buffer, like everything else in the
    store, is left as it was. *)
Theorem enlargedImage_1x1 (d : Display) (h : store) (src : loc) (c : color.RGBA) :
  image d = Some src ->
  h !! src = Some (image.mkRGBA [c] (image.Rect 0 0 1 1)) ->
  exists img big,
    enlargedImage d 16 2 h = (img, <[img := big]> h)
    /\ h !! img = None
    /\ <[img := big]> h !! src = Some (image.mkRGBA [c] (image.Rect 0 0 1 1))
    /\ image.Bounds big = image.Rect 0 0 16 16
    /\ length (image.Pix big) = 256%nat
    /\ forall x y,
         image.At big x y
         = if (2 <=? x) && (x <=? 13) && (2 <=? y) && (y <=? 13) then c else color.zero.
Proof.
  intros Himg Hsrc.
  set (s := image.mkRGBA [c] (image.Rect 0 0 1 1)) in *.
  destruct (At_enlarge_pixels s 16 2) as (Hwf & Hbounds & Hat); [lia | lia | vm_compute; discriminate | vm_compute; discriminate |].
  exists (fresh (dom h)). eexists.
  split; [apply (enlargedImage_rendered d h src s); assumption |].
  split; [apply fresh_not_allocated |].
  split.
  { rewrite lookup_insert_ne; [exact Hsrc |].
    intros E. pose proof (fresh_not_allocated h) as Hfresh. rewrite E in Hfresh. congruence. }
  split; [exact Hbounds |].
  split.
  { destruct Hwf as (_ & _ & Hlen). rewrite Hlen, Hbounds. reflexivity. }
  intros x y. rewrite Hat. unfold enlarged_layer.
  change (image.Dx (image.Bounds s)) with 1. change (image.Dy (image.Bounds s)) with 1.
  rewrite !in_blocks_16_2.
  destruct ((2 <=? x) && (x <=? 13)) eqn:Hx; cbn [andb]; [| reflexivity].
  destruct ((2 <=? y) && (y <=? 13)) eqn:Hy; cbn [andb]; [| reflexivity].
  replace (x / 16) with 0 by (apply andb_true_iff in Hx as [?%Z.leb_le ?%Z.leb_le]; zdiv).
  replace (y / 16) with 0 by (apply andb_true_iff in Hy as [?%Z.leb_le ?%Z.leb_le]; zdiv).
  reflexivity.
Qed.

Lemma enlargedImage_1x1_witness :
  exists img big,
    enlargedImage testdata.dot_display 16 2 testdata.dot_store
    = (img, <[img := big]> testdata.dot_store)
    /\ testdata.dot_store !! img = None
    /\ <[img := big]> testdata.dot_store !! 1%positive = Some testdata.dot
    /\ image.Bounds big = image.Rect 0 0 16 16
    /\ length (image.Pix big) = 256%nat
    /\ forall x y,
         image.At big x y
         = if (2 <=? x) && (x <=? 13) && (2 <=? y) && (y <=? 13) then black else color.zero.
Proof.
  apply (enlargedImage_1x1 testdata.dot_display testdata.dot_store 1%positive black).
  - reflexivity.
  - reflexivity.
Defined.

(** ** Handlers *)

(** C10. A request for the large image before the first render is not
    answered with an error: the handler takes a blank 1x1 placeholder,
    enlarges it to a blank 16x16 buffer, and answers with status 200, the
    PNG content type and what the PNG encoder writes for that buffer.
    The display is not touched and no buffer already in the store
    changes. *)
Theorem ServeLargePNG_before_first_render (env : Env) (d : Display) (h : store) :
  image d = None ->
  exists big h',
    ServeLargePNG env d h
    = (mkHTTPResponse 200 [("content-type", "image/png")]%string (fst (png_Encode env big)), h')
    /\ image.Bounds big = image.Rect 0 0 16 16
    /\ length (image.Pix big) = 256%nat
    /\ (forall x y, image.At big x y = color.zero)
    /\ (forall l, is_Some (h !! l) -> h' !! l = h !! l).
Proof.
  intros Himg. unfold ServeLargePNG.
  rewrite (enlargedImage_not_rendered d h 16 2 Himg).
  set (placeholder := image.NewRGBA (image.Rect 0 0 1 1)).
  set (h0 := <[fresh (dom h) := placeholder]> h).
  change (16 * 1) with (16 * image.Dx (image.Bounds placeholder)).
  set (big := enlarge_pixels placeholder 16 2 _).
  destruct (At_enlarge_pixels placeholder 16 2) as (Hwf & Hbounds & Hat);
    [lia | lia | vm_compute; discriminate | vm_compute; discriminate |].
  change (image.Dy (image.Bounds placeholder)) with (image.Dx (image.Bounds placeholder))
    in Hwf, Hbounds, Hat.
  fold big in Hwf, Hbounds, Hat.
  exists big. eexists. split.
  { unfold deref. rewrite lookup_insert_eq. reflexivity. }
  split; [exact Hbounds |]. split.
  { destruct Hwf as (_ & _ & Hlen). rewrite Hlen, Hbounds. reflexivity. }
  split.
  - intros x y. rewrite Hat. unfold enlarged_layer.
    destruct (in_blocks _ _ _ x && in_blocks _ _ _ y); [| reflexivity].
    apply At_NewRGBA.
  - intros l [b Hl].
    assert (Hl0 : h0 !! l = h !! l).
    { unfold h0. apply lookup_insert_ne. intros E.
      pose proof (fresh_not_allocated h) as Hfresh. rewrite E in Hfresh. congruence. }
    rewrite lookup_insert_ne; [exact Hl0 |].
    intros E. pose proof (fresh_not_allocated h0) as Hfresh. rewrite E in Hfresh. congruence.
Qed.

Lemma ServeLargePNG_before_first_render_witness :
  exists big h',
    ServeLargePNG testdata.env testdata.display ∅
    = (mkHTTPResponse 200 [("content-type", "image/png")]%string
                      (fst (png_Encode testdata.env big)), h')
    /\ image.Bounds big = image.Rect 0 0 16 16
    /\ length (image.Pix big) = 256%nat
    /\ (forall x y, image.At big x y = color.zero)
    /\ (forall l, is_Some ((∅ : store) !! l) -> h' !! l = (∅ : store) !! l).
Proof.
  apply (ServeLargePNG_before_first_render testdata.env testdata.display ∅).
  reflexivity.
Defined.

(** *** The text encoder *)

Lemma append_nil_r (s : string) : s +:+ "" = s.
Proof.
  induction s as [|c s IH]; [reflexivity |].
  change (String c s +:+ "") with (String c (s +:+ "")). now rewrite IH.
Qed.

Lemma append_assoc (s t u : string) : (s +:+ t) +:+ u = s +:+ (t +:+ u).
Proof.
  induction s as [|c s IH]; [reflexivity |].
  change (String c ((s +:+ t) +:+ u) = String c (s +:+ (t +:+ u))). now rewrite IH.
Qed.

(** The widened channel is zero for a zero channel only. *)
Lemma widen_zero (v : Z) : (widen v =? 0) = (v =? 0).
Proof.
  unfold widen. destruct (Z.eqb_spec v 0) as [-> | Hv]; [reflexivity |].
  apply Z.eqb_neq. rewrite Z.lor_eq_0_iff. tauto.
Qed.

Lemma foldl_bind {A B S} (step : S -> B -> S) (g : A -> list B) (l : list A) :
  forall acc, foldl step acc (l ≫= g) = foldl (fun acc a => foldl step acc (g a)) acc l.
Proof.
  induction l as [|a l IH]; intros acc; [reflexivity |].
  cbn [mbind list_bind foldl]. change (list_bind _ _ g l) with (l ≫= g).
  rewrite foldl_app. apply IH.
Qed.

Lemma foldl_pointwise {A S} (f g : S -> A -> S) (l : list A) :
  (forall acc a, f acc a = g acc a) -> forall acc, foldl f acc l = foldl g acc l.
Proof.
  intros Hfg. induction l as [|a l IH]; intros acc; [reflexivity |].
  cbn [foldl]. rewrite Hfg. apply IH.
Qed.

Lemma write_lines (m : image.RGBA) (ps : list (Z * Z)) :
  forall buf,
    foldl (fun buf p => if coloured (image.At m (fst p) (snd p))
                        then buf +:+ txt_line p else buf) buf ps
    = buf +:+ text_of (map txt_line
                         (filter (fun p => coloured (image.At m (fst p) (snd p)) = true) ps)).
Proof.
  induction ps as [|p ps IH]; intros buf; [cbn; now rewrite append_nil_r |].
  cbn [foldl]. rewrite IH.
  destruct (coloured (image.At m (fst p) (snd p))) eqn:Hc.
  - rewrite filter_cons_True by exact Hc. cbn [map text_of foldr].
    apply append_assoc.
  - rewrite filter_cons_False by (rewrite Hc; discriminate). reflexivity.
Qed.

Lemma txt_Encode_lines (m : image.RGBA) :
  txt_Encode m = (text_of (map txt_line (coloured_pixels m)), None).
Proof.
  unfold txt_Encode, coloured_pixels. f_equal.
  etrans; [| exact (write_lines m (by_columns (image.Bounds m)) "")].
  unfold by_columns, for_range. rewrite foldl_bind.
  apply foldl_pointwise. intros buf x. rewrite foldl_bind.
  apply foldl_pointwise. intros buf' y. cbn [foldl fst snd].
  unfold coloured, txt_line. rewrite !widen_zero. reflexivity.
Qed.

(** The three image requests and what [ServeImage] picks for them. *)
Lemma choose_encoder_index (env : Env) :
  choose_encoder env "/index.png" = (png_Encode env, "image/png"%string)
  /\ choose_encoder env "/index.bmp" = (bmp_Encode env, "image/bmp"%string)
  /\ choose_encoder env "/index.txt" = (txt_Encode, "text/plain"%string).
Proof. repeat split. Qed.

(** C8. Requests for [/index.png], [/index.bmp] and [/index.txt].
    Before the first render there is no buffer, and each is answered with
    status 500 and a plain-text body that says so. Once a buffer is
    there, each is answered with status 200, the content type of the
    encoding asked for and the buffer in that encoding: for PNG and BMP
    the bytes the encoder of the library wrote for the buffer, when it
    reports no error; for the text encoding, which never reports one,
    one line [x y] for every pixel of the buffer with some red, green or
    blue in it, column after column, and nothing else. *)
Theorem ServeImage_status (env : Env) (d : Display) (h : store) :
  (image d = None ->
   forall urlPath,
     urlPath ∈ ["/index.png"; "/index.bmp"; "/index.txt"]%string ->
     ServeImage env d h urlPath
     = mkHTTPResponse 500
         [("Content-Type", "text/plain; charset=utf-8"); ("X-Content-Type-Options", "nosniff")]%string
         ("image has not been rendered yet" +:+ newline))
  /\ (forall img, image d = Some img ->
      (forall body, png_Encode env (deref h img) = (body, None) ->
         ServeImage env d h "/index.png"
         = mkHTTPResponse 200 [("content-type", "image/png")]%string body)
      /\ (forall body, bmp_Encode env (deref h img) = (body, None) ->
            ServeImage env d h "/index.bmp"
            = mkHTTPResponse 200 [("content-type", "image/bmp")]%string body)
      /\ ServeImage env d h "/index.txt"
         = mkHTTPResponse 200 [("content-type", "text/plain")]%string
                          (text_of (map txt_line (coloured_pixels (deref h img))))).
Proof.
  destruct (choose_encoder_index env) as (Hpng & Hbmp & Htxt).
  split.
  - intros Himg urlPath Hpath. unfold ServeImage. rewrite Himg.
    repeat (apply elem_of_cons in Hpath as [-> | Hpath]);
      [rewrite Hpng | rewrite Hbmp | rewrite Htxt | inversion Hpath]; reflexivity.
  - intros img Himg. unfold ServeImage. rewrite Himg, Hpng, Hbmp, Htxt.
    repeat split.
    + intros body ->. reflexivity.
    + intros body ->. reflexivity.
    + rewrite txt_Encode_lines. reflexivity.
Qed.

(** The handler test: after a render of the test display every image
    request is answered with status 200; before it, with status 500. *)
Example ServeImage_handler_test :
  (forall urlPath,
     urlPath ∈ ["/index.png"; "/index.bmp"; "/index.txt"]%string ->
     StatusCode (ServeImage testdata.env testdata.display ∅ urlPath) = 500)
  /\ exists h d,
       render testdata.env ∅ testdata.display = Normal (h, d, None)
       /\ forall urlPath,
            urlPath ∈ ["/index.png"; "/index.bmp"; "/index.txt"]%string ->
            StatusCode (ServeImage testdata.env d h urlPath) = 200.
Proof.
  split.
  - intros urlPath Hpath.
    repeat (apply elem_of_cons in Hpath as [-> | Hpath]); [| | | inversion Hpath];
      reflexivity.
  - eexists. eexists. split; [vm_compute; reflexivity |].
    intros urlPath Hpath.
    repeat (apply elem_of_cons in Hpath as [-> | Hpath]); [| | | inversion Hpath];
      vm_compute; reflexivity.
Qed.

(** ** Decoding a variable of the weather station *)

Section Decoding.

Import mesonet.

Lemma parse_times_all (ss : list string) (ts : list time.Time) :
Forall2 (fun s t => time.Parse s = Some t) ss ts ->
forall acc, parse_times (map JString ss) acc = (acc ++ ts, None).
Proof.
induction 1 as [|s t ss ts Hs _ IH]; intros acc.
- cbn. now rewrite app_nil_r.
- cbn [map parse_times]. rewrite Hs, IH, <- app_assoc. reflexivity.
Qed.

(** A variable named time with an entry that is not a string, or not a
  time, is a decoding error; no float series appears. *)
Lemma parse_times_bad (data : list json) :
(exists j, j ∈ data /\ forall s, j = JString s -> time.Parse s = None) ->
forall acc, exists times err, parse_times data acc = (times, Some err).
Proof.
induction data as [|j data IH]; intros (j0 & Hin & Hbad) acc; [inversion Hin |].
cbn [parse_times].
destruct j as [| b | x | s | elems | fields]; try (eexists; eexists; reflexivity).
destruct (time.Parse s) as [t|] eqn:Hs; [| eexists; eexists; reflexivity].
apply IH. exists j0. split; [| exact Hbad].
apply elem_of_cons in Hin as [-> | Hin]; [| exact Hin].
rewrite (Hbad s eq_refl) in Hs. discriminate.
Qed.

Lemma mapM_as_number (elems : list json) (xs : list float) :
mapM as_number elems = Some xs -> elems = map JNumber xs.
Proof.
intros H. apply mapM_Some in H.
induction H as [|j x elems xs Hj _ IH]; [reflexivity |].
destruct j; try discriminate. cbn in Hj. injection Hj as ->. cbn [map]. now rewrite IH.
Qed.

Lemma scale_numbers (scale : float) (xs : list float) :
map (scale_or_zero scale) (map JNumber xs) = map (fun x => (x * scale)%float) xs.
Proof. induction xs as [|x xs IH]; [reflexivity |]. cbn [map scale_or_zero]. now rewrite IH. Qed.

Lemma UnmarshalJSON_float_series (v : DataVar) (raw : RawDataVar)
  (x : float) (rest more : list json) :
LongName (raw_Attrs raw) <> "time"%string ->
Data raw = JArray (JNumber x :: rest) :: more ->
UnmarshalJSON v (inr raw)
= Normal (with_floats (map (scale_or_zero (ScaleFactor (raw_Attrs raw))) (JNumber x :: rest))
                      (raw_only v raw), None).
Proof.
intros Hname Hraw. unfold UnmarshalJSON. rewrite Hraw. cbn [Attrs].
rewrite (proj2 (String.eqb_neq _ _) Hname). unfold raw_only. rewrite Hraw. reflexivity.
Qed.

(** C7, as the code has it. The name is looked at first and the shape
  after it.
  - No data: the variable is kept as raw data only.
  - A variable named time: every entry has to be a string in the layout
    [20060102T1504]; the strings decode to the list of timestamps, and
    any other entry is a decoding error.
  - Any other variable whose first entry is an array that starts with a
    number: a float series, every number multiplied by the scale factor
    of the attributes and every other element replaced by 0; so an
    array of numbers only decodes to the scaled series.
  - Any other variable whose first entry is not an array, or is an
    array that starts with something else than a number: kept as raw
    data only. *)
Theorem UnmarshalJSON_by_name_and_shape (v : DataVar) (raw : RawDataVar) :
let scale := ScaleFactor (raw_Attrs raw) in
(Data raw = [] -> UnmarshalJSON v (inr raw) = Normal (raw_only v raw, None))
/\ (LongName (raw_Attrs raw) = "time"%string -> Data raw <> [] ->
    (forall ss ts,
       Data raw = map JString ss ->
       Forall2 (fun s t => time.Parse s = Some t) ss ts ->
       UnmarshalJSON v (inr raw) = Normal (with_times ts (raw_only v raw), None))
    /\ ((exists j, j ∈ Data raw /\ forall s, j = JString s -> time.Parse s = None) ->
        exists v' err,
          UnmarshalJSON v (inr raw) = Normal (v', Some err)
          /\ FloatData v' = FloatData v))
/\ (LongName (raw_Attrs raw) <> "time"%string ->
    (forall x rest more,
       Data raw = JArray (JNumber x :: rest) :: more ->
       UnmarshalJSON v (inr raw)
       = Normal (with_floats (map (scale_or_zero scale) (JNumber x :: rest))
                             (raw_only v raw), None))
    /\ (forall xs,
          nested_numeric_array (Data raw) = Some xs -> xs <> [] ->
          UnmarshalJSON v (inr raw)
          = Normal (with_floats (map (fun x => (x * scale)%float) xs) (raw_only v raw), None))
    /\ (forall first more,
          Data raw = first :: more ->
          (forall elems, first <> JArray elems) ->
          UnmarshalJSON v (inr raw) = Normal (raw_only v raw, None))
    /\ (forall first0 rest more,
          Data raw = JArray (first0 :: rest) :: more ->
          (forall x, first0 <> JNumber x) ->
          UnmarshalJSON v (inr raw) = Normal (raw_only v raw, None))).
Proof.
intros scale.
split; [intros Hraw; unfold UnmarshalJSON, raw_only; rewrite Hraw; reflexivity |]. split.
- intros Hname Hdata. unfold UnmarshalJSON. fold (raw_only v raw).
  destruct (Data raw) as [|first more] eqn:Hraw; [congruence |].
  cbn [Attrs raw_only TimeData]. rewrite (proj2 (String.eqb_eq _ _) Hname).
  split.
  + intros ss ts Hss Hts. rewrite Hss, (parse_times_all ss ts Hts). reflexivity.
  + intros Hbad.
    destruct (parse_times_bad (first :: more) Hbad (TimeData v)) as (times & err & ->).
    eexists. eexists. split; reflexivity.
- intros Hname.
  split; [intros x rest more; now apply UnmarshalJSON_float_series |]. split; [| split].
  + intros xs Hxs Hne. unfold nested_numeric_array in Hxs.
    destruct (Data raw) as [|[| | | | elems |] more] eqn:Hraw; try discriminate.
    apply mapM_as_number in Hxs. subst elems.
    destruct xs as [|x xs]; [congruence |].
    cbn [map] in Hraw.
    rewrite (UnmarshalJSON_float_series v raw x (map JNumber xs) more Hname Hraw).
    fold scale. cbn [map scale_or_zero]. rewrite scale_numbers. reflexivity.
  + intros first more Hraw Hfirst. unfold UnmarshalJSON, raw_only. rewrite Hraw.
    cbn [Attrs]. rewrite (proj2 (String.eqb_neq _ _) Hname).
    destruct first; try reflexivity. now destruct (Hfirst elems).
  + intros first0 rest more Hraw Hfirst0. unfold UnmarshalJSON, raw_only. rewrite Hraw.
    cbn [Attrs]. rewrite (proj2 (String.eqb_neq _ _) Hname).
    destruct first0; try reflexivity. now destruct (Hfirst0 x).
Qed.

(** The claim as it was stated fails on a variable named time that holds a
  nested array of numbers: the decoder reports an error and produces no
  float series. *)
Lemma UnmarshalJSON_numeric_time :
nested_numeric_array (Data testdata.numeric_time) = Some [78.4; 68.8]%float
/\ UnmarshalJSON zeroDataVar (inr testdata.numeric_time)
   = Normal (raw_only zeroDataVar testdata.numeric_time, Some "invalid time: not a string"%string)
/\ FloatData (raw_only zeroDataVar testdata.numeric_time) = [].
Proof. repeat split. Qed.

(** The two variables of the test response, and a series with an element
  that is not a number. *)
Example UnmarshalJSON_test_response :
UnmarshalJSON zeroDataVar (inr testdata.raw_time)
= Normal (with_times testdata.times (raw_only zeroDataVar testdata.raw_time), None)
/\ UnmarshalJSON zeroDataVar (inr testdata.raw_tair)
   = Normal (with_floats testdata.tair (raw_only zeroDataVar testdata.raw_tair), None).
Proof. split; vm_compute; reflexivity. Qed.

End Decoding.

(** ** The trailing mean of the weather-station job *)

(** The loop never touches the counter [n]. *)
Lemma scan_tair_counter (times : list time.Time) (tair : list float) :
  forall (i : Z) (s s' : scan), scan_tair times i tair s = Normal s' -> n s' = n s.
Proof.
  induction tair as [|t rest IH]; intros i s s' Hrun.
  - injection Hrun as <-. reflexivity.
  - cbn [scan_tair] in Hrun. destruct (float_nonzero t).
    + destruct (index times i) as [u | p]; [| discriminate].
      cbn [mbind outcome_bind] in Hrun. apply IH in Hrun. exact Hrun.
    + apply IH in Hrun. exact Hrun.
Qed.

(** A float64 divided by zero is an infinity or not a number. *)
Lemma div_by_zero (x : float) :
  (x / 0)%float = infinity \/ (x / 0)%float = neg_infinity \/ (x / 0)%float = nan.
Proof.
  rewrite <- (SF2Prim_Prim2SF (x / 0)), div_spec.
  change (Prim2SF 0) with (S754_zero false).
  destruct (Prim2SF x) as [[|] | [|] | | [|] m e]; cbn; auto.
Qed.

(** C1, on the series of the test data. The job stores the sum of the
    non-zero entries divided by the counter [n], which is still 0 after
    the loop: the stored mean is an infinity, where the mean of the
    non-zero entries 78.4 and 68.8 is 73.6. *)
Theorem updateOutdoorTemperature_mean_of_test_series :
  exists d',
    fst (updateOutdoorTemperature testdata.env testdata.display) = Normal (d', None)
    /\ OutdoorTemperature d' = 68.8%float
    /\ LastHourOutdoorTemperature d' = infinity
    /\ mean_nonzero testdata.tair = 73.6%float.
Proof. eexists. repeat split. Qed.

(** Whatever the series: when the job stores a mean, it is the sum over
    zero, an infinity or not a number, never the mean. *)
Theorem updateOutdoorTemperature_mean_is_never_finite (env : Env) (d d' : Display) :
  6 * time.Minute <= time.Since (clock env 0%nat) (MesonetLastData d) ->
  fst (updateOutdoorTemperature env d) = Normal (d', None) ->
  LastHourOutdoorTemperature d' = infinity
  \/ LastHourOutdoorTemperature d' = neg_infinity
  \/ LastHourOutdoorTemperature d' = nan.
Proof.
  intros Hold. unfold updateOutdoorTemperature.
  rewrite (proj2 (Z.ltb_ge _ _) Hold).
  destruct (mesonet.Do _ _) as [[res err] | res]; [discriminate |].
  destruct (Z.of_nat (length _) =? 0); [discriminate |].
  cbn [fst].
  destruct (scan_tair _ 0 _ scan0) as [s | p] eqn:Hscan; [| discriminate].
  cbn [mbind outcome_bind]. intros [= <-].
  cbn [LastHourOutdoorTemperature set_outdoor].
  rewrite (scan_tair_counter _ _ _ _ _ Hscan).
  change (float64_of_int (n scan0)) with 0%float.
  apply div_by_zero.
Qed.

Lemma updateOutdoorTemperature_mean_is_never_finite_witness :
  LastHourOutdoorTemperature
    (set_outdoor 68.8 infinity (time.Date 2021 9 19 2 40) testdata.display) = infinity
  \/ LastHourOutdoorTemperature
       (set_outdoor 68.8 infinity (time.Date 2021 9 19 2 40) testdata.display) = neg_infinity
  \/ LastHourOutdoorTemperature
       (set_outdoor 68.8 infinity (time.Date 2021 9 19 2 40) testdata.display) = nan.
Proof.
  apply (updateOutdoorTemperature_mean_is_never_finite testdata.env testdata.display).
  - vm_compute. discriminate.
  - reflexivity.
Defined.

(** ** The update cycle *)

(** C2, on a run the code allows. The first job fails and the other four
    would succeed. Its goroutine sends the error and then a nil, so the
    loop, which counts five receptions for five jobs, is through after
    three more reports: [update] returns, with one error that names the
    failed job, while the weather-station job has not finished. The
    fields of the three jobs that reported are updated; the outdoor
    temperature, which that job sets to 68.8 when it runs, is still the
    old one. *)
Theorem update_returns_before_last_job :
  exists d',
    update testdata.env testdata.early_return (New (mkOutputConfig 64 32))
    = Some (Normal (d', Some ("1 errors: get temperature: query: query: connection refused")%string))
    /\ LastHourTemperature d' = 65%float
    /\ RelativeHumidity d' = 42%float
    /\ LastHourRelativeHumidity d' = 50%float
    /\ OutdoorTemperature d' = 0%float
    /\ exists d'',
         fst (updateOutdoorTemperature testdata.env d') = Normal (d'', None)
         /\ OutdoorTemperature d'' = 68.8%float.
Proof.
  eexists. split; [vm_compute; reflexivity |].
  repeat split. eexists. split; vm_compute; reflexivity.
Qed.

(** The same jobs when every goroutine has finished before the loop takes
    its first report: the four successful jobs have written, and the one
    error is reported. *)
Example update_after_all_jobs :
  exists d',
    update testdata.env testdata.all_finished (New (mkOutputConfig 64 32))
    = Some (Normal (d', Some ("1 errors: get temperature: query: query: connection refused")%string))
    /\ LastHourTemperature d' = 65%float
    /\ RelativeHumidity d' = 42%float
    /\ LastHourRelativeHumidity d' = 50%float
    /\ OutdoorTemperature d' = 68.8%float.
Proof. eexists. split; [vm_compute; reflexivity |]. repeat split. Qed.

(** With no failing job the same run returns nil. *)
Example update_without_failure :
  exists d',
    update testdata.env_up testdata.all_finished (New (mkOutputConfig 64 32))
    = Some (Normal (d', None))
    /\ Temperature d' = 69%float
    /\ OutdoorTemperature d' = 68.8%float.
Proof. eexists. split; [vm_compute; reflexivity |]. repeat split. Qed.

(** *** Runs within the deadline *)

Lemma total_insert (count : option error -> goroutine -> Z)
    (fails : list (option error)) :
  forall (gs : list goroutine) (k : nat) (fail : option error) (g g' : goroutine),
    fails !! k = Some fail -> gs !! k = Some g ->
    total count fails (<[k := g']> gs) = total count fails gs - count fail g + count fail g'.
Proof.
  induction fails as [|fl fails IH]; intros gs k fail g g' Hfail Hg; [inversion Hfail |].
  destruct gs as [|g0 gs]; [inversion Hg |].
  destruct k as [|k]; cbn in Hfail, Hg.
  - injection Hfail as ->. injection Hg as ->. cbn [total]. cbn. lia.
  - cbn [total]. change (<[S k := g']> (g0 :: gs)) with (g0 :: <[k := g']> gs).
    cbn [total]. rewrite (IH gs k fail g g' Hfail Hg). lia.
Qed.

Lemma all_events_left_insert (gs : list goroutine) :
  forall (k : nat) (g g' : goroutine),
    gs !! k = Some g ->
    all_events_left (<[k := g']> gs) = all_events_left gs - events_left g + events_left g'.
Proof.
  induction gs as [|g0 gs IH]; intros k g g' Hg; [inversion Hg |].
  destruct k as [|k]; cbn in Hg.
  - injection Hg as ->. cbn [all_events_left]. cbn. lia.
  - change (<[S k := g']> (g0 :: gs)) with (g0 :: <[k := g']> gs).
    cbn [all_events_left]. rewrite (IH k g g' Hg). lia.
Qed.

Lemma all_events_left_bounds (gs : list goroutine) :
  0 <= all_events_left gs
  /\ forall k g, gs !! k = Some g -> events_left g <= all_events_left gs.
Proof.
  induction gs as [|g0 gs [IH0 IH]]; [split; [reflexivity | intros k g Hg; inversion Hg] |].
  assert (Hg0 : 0 <= events_left g0) by (destruct g0; cbn; lia).
  cbn [all_events_left]. split; [lia |].
  intros [|k] g Hg; cbn in Hg.
  - injection Hg as ->. lia.
  - specialize (IH k g Hg). lia.
Qed.

Lemma all_events_left_start (fs : list (job * string)) :
  all_events_left (map (fun '(f, op) => Spawned f op) fs) = 3 * Z.of_nat (length fs).
Proof.
  induction fs as [|[f op] fs IH]; [reflexivity |].
  cbn [map all_events_left events_left length]. lia.
Qed.

Lemma run_schedule_app (nq : Z) (pre post : list event) (c : cycle) :
  run_schedule nq (pre ++ post) c
  = match run_schedule nq pre c with
    | Some (Normal c') => run_schedule nq post c'
    | other => other
    end.
Proof.
  revert c. induction pre as [|e pre IH]; intros c; [reflexivity |].
  cbn [app run_schedule]. destruct (step nq e c) as [[c1 | p] |]; [apply IH | |]; reflexivity.
Qed.

(** Before the deadline every event is one of a goroutine, and uses up
    one of the events the goroutines have left. *)
Lemma step_uses_an_event (nq : Z) (e : event) (c c' : cycle) :
  step nq e c = Some (Normal c') ->
  expired c = false ->
  e <> Expire ->
  all_events_left (goroutines c') + 1 <= all_events_left (goroutines c)
  /\ expired c' = false.
Proof.
  intros Hstep Hexp He.
  destruct e as [k | k | |]; cbn [step] in Hstep.
  - destruct (goroutines c !! k) as [[f op | | |]|] eqn:Hg; try discriminate.
    destruct (f (snapshot c)) as [[d [err |]] | p]; try discriminate;
      injection Hstep as <-; cbn [set_goroutine goroutines expired];
      rewrite (all_events_left_insert _ k _ _ Hg); cbn [events_left]; (split; [lia | exact Hexp]).
  - destruct (received c <? nq); [| discriminate].
    destruct (goroutines c !! k) as [[f op | msg | |]|] eqn:Hg; try discriminate;
      injection Hstep as <-; cbn [count_in set_goroutine goroutines expired];
      rewrite (all_events_left_insert _ k _ _ Hg); cbn [events_left]; (split; [lia | exact Hexp]).
  - congruence.
  - rewrite Hexp, andb_false_r in Hstep. discriminate.
Qed.

(** A run within the deadline has no more events than the goroutines
    had left when it started. *)
Lemma run_is_bounded (nq : Z) (sched : list event) :
  Expire ∉ sched ->
  forall c c',
    run_schedule nq sched c = Some (Normal c') ->
    expired c = false ->
    Z.of_nat (length sched) + all_events_left (goroutines c') <= all_events_left (goroutines c).
Proof.
  induction sched as [|e rest IH]; intros Hdeadline c c' Hrun Hexp.
  - injection Hrun as <-. cbn [length]. lia.
  - cbn [run_schedule] in Hrun.
    destruct (step nq e c) as [[c1 | p] |] eqn:Hstep; try discriminate.
    apply not_elem_of_cons in Hdeadline as [He Hrest].
    destruct (step_uses_an_event nq e c c1 Hstep Hexp (not_eq_sym He)) as [Hless Hexp1].
    specialize (IH Hrest c1 c' Hrun Hexp1). cbn [length]. lia.
Qed.

Lemma some_goroutine_left (gs : list goroutine) :
  Forall (fun g => g = Exited) gs \/ exists k g, gs !! k = Some g /\ g <> Exited.
Proof.
  induction gs as [|g gs [IH | (k & g' & Hk & Hg')]].
  - left. constructor.
  - destruct g as [f op | msg | |];
      try (right; exists 0%nat; eexists; split; [reflexivity | discriminate]).
    left. now constructor.
  - right. exists (S k), g'. auto.
Qed.

(** Once every goroutine has exited, the loop has taken a report from
    each. *)
Lemma total_all_exited (gs : list goroutine) :
  forall fails : list (option error),
    length fails = length gs ->
    Forall (fun g => g = Exited) gs ->
    Z.of_nat (length gs) <= total reports_taken fails gs.
Proof.
  induction gs as [|g gs IH]; intros [|fail fails] Hlen Hall; try discriminate.
  apply Forall_cons in Hall as [-> Hall]. injection Hlen as Hlen.
  specialize (IH fails Hlen Hall). cbn [total length reports_taken].
  destruct fail; lia.
Qed.

Section WithinDeadline.

Variables (fs : list (job * string)) (fails : list (option error)) (d0 : Display).
Hypothesis fails_length : length fails = length fs.
Hypothesis fs_behave :
  forall k j fail, fs !! k = Some j -> fails !! k = Some fail -> behaves_from fs d0 j fail.

Let nq : Z := Z.of_nat (length fs).

Lemma start_invariant : cycle_invariant fs fails d0 (start fs d0).
Proof.
  unfold cycle_invariant, start. cbn [snapshot expired goroutines received errs].
  split; [constructor |]. split; [lia |].
  split; [reflexivity |]. split; [apply length_map |]. split; [| split; [| split]].
  - intros k [f op] fail g Hj _ Hg.
    rewrite list_lookup_fmap, Hj in Hg. injection Hg as <-. reflexivity.
  - clear. revert fails. induction fs as [|[f op] l IH]; intros [|fl fails]; try reflexivity.
    cbn [map total reports_taken]. now rewrite <- IH.
  - clear. revert fails. induction fs as [|[f op] l IH]; intros [|fl fails]; try reflexivity.
    cbn [map total errors_taken length]. now rewrite <- IH.
  - constructor.
Qed.

Lemma lookup_fails (c : cycle) (k : nat) (g : goroutine) :
  length (goroutines c) = length fs ->
  goroutines c !! k = Some g ->
  exists j fail, fs !! k = Some j /\ fails !! k = Some fail.
Proof.
  intros Hlen Hg. apply lookup_lt_Some in Hg.
  destruct (lookup_lt_is_Some_2 fs k) as [j Hj]; [lia |].
  destruct (lookup_lt_is_Some_2 fails k) as [fail Hfail]; [lia |].
  eauto.
Qed.

(** A job that has not run yet returns, on the display of the cycle, as
    its behaviour says. *)
Lemma spawned_job_returns (c : cycle) (k : nat) (f : job) (op : string) :
  cycle_invariant fs fails d0 c ->
  goroutines c !! k = Some (Spawned f op) ->
  exists fail d',
    fs !! k = Some (f, op) /\ fails !! k = Some fail
    /\ f (snapshot c) = Normal (d', fail)
    /\ reachable fs d0 d'.
Proof.
  intros (Hreach & _ & _ & Hlen & Hgor & _) Hg.
  destruct (lookup_fails c k _ Hlen Hg) as (j & fail & Hj & Hfail).
  pose proof (Hgor k j fail _ Hj Hfail Hg) as Hstate. cbn in Hstate. subst j.
  pose proof (fs_behave k _ fail Hj Hfail) as Hb.
  assert (Hin : (f, op) ∈ fs) by (eapply list_elem_of_lookup_2, Hj).
  destruct fail as [err |]; cbn [behaves_from fst] in Hb;
    destruct (Hb (snapshot c) Hreach) as [d' Hrun];
    eexists _, d'; (split; [exact Hj |]); (split; [exact Hfail |]);
    (split; [exact Hrun |]); exact (reachable_job fs d0 _ _ (f, op) _ Hreach Hin Hrun).
Qed.

(** Every event other than the passing of the deadline keeps the
    invariant, and no job panics. *)
Lemma step_invariant (e : event) (c : cycle) :
  e <> Expire ->
  cycle_invariant fs fails d0 c ->
  forall out, step nq e c = Some out ->
  exists c', out = Normal c' /\ cycle_invariant fs fails d0 c'.
Proof.
  intros Hev Hinv out Hstep.
  pose proof Hinv as (Hreach & Hle & Hexp & Hlen & Hgor & Hrecv & Herrs & Hmsgs).
  destruct e as [k | k | |]; cbn [step] in Hstep.
  - (* a job runs to its end *)
    destruct (goroutines c !! k) as [[f op | | |]|] eqn:Hg; try discriminate.
    destruct (spawned_job_returns c k f op Hinv Hg) as (fail & d' & Hj & Hfail & Hrun & Hreach').
    assert (Hkeep : forall g',
               goroutine_of (f, op) fail g' ->
               reports_taken fail g' = 0 -> errors_taken fail g' = 0 ->
               cycle_invariant fs fails d0
                 (set_goroutine k g' (mkCycle d' (goroutines c) (received c) (errs c) (expired c)))).
    { intros g' Hg' Hr He. unfold cycle_invariant, set_goroutine.
      cbn [snapshot expired goroutines received errs].
      split; [exact Hreach' |]. split; [exact Hle |].
      split; [exact Hexp |]. split; [now rewrite length_insert |].
      split; [| split; [| split]].
      - intros k' j' fail' g0 Hj' Hfail' Hg0.
        destruct (decide (k = k')) as [<- | Hne].
        + rewrite list_lookup_insert_eq in Hg0 by (now apply lookup_lt_Some in Hg).
          injection Hg0 as <-. congruence.
        + rewrite list_lookup_insert_ne in Hg0 by exact Hne. eauto.
      - rewrite (total_insert _ _ _ k fail _ g' Hfail Hg), Hr. cbn [reports_taken]. lia.
      - rewrite (total_insert _ _ _ k fail _ g' Hfail Hg), He. cbn [errors_taken]. lia.
      - exact Hmsgs. }
    rewrite Hrun in Hstep. destruct fail as [err |]; injection Hstep as <-;
      (eexists; split; [reflexivity |]).
    + apply Hkeep; [| reflexivity | reflexivity]. exists err. split; reflexivity.
    + apply Hkeep; [exact I | reflexivity | reflexivity].
  - (* the loop takes a report *)
    destruct (Z.ltb_spec (received c) nq) as [Hmore |]; [| discriminate].
    destruct (goroutines c !! k) as [[f op | msg | |]|] eqn:Hg; try discriminate.
    + (* an error *)
      destruct (lookup_fails c k _ Hlen Hg) as (j & fail & Hj & Hfail).
      destruct (Hgor k j fail _ Hj Hfail Hg) as (err & -> & ->).
      injection Hstep as <-. eexists. split; [reflexivity |].
      unfold cycle_invariant, count_in, set_goroutine.
      cbn [snapshot expired goroutines received errs].
      split; [exact Hreach |]. split; [unfold nq in Hmore; lia |].
      split; [exact Hexp |]. split; [now rewrite length_insert |].
      split; [| split; [| split]].
      * intros k' j' fail' g0 Hj' Hfail' Hg0.
        destruct (decide (k = k')) as [<- | Hne].
        -- rewrite list_lookup_insert_eq in Hg0 by (now apply lookup_lt_Some in Hg).
           injection Hg0 as <-. exact I.
        -- rewrite list_lookup_insert_ne in Hg0 by exact Hne. eauto.
      * rewrite (total_insert _ _ _ k _ _ SendingNil Hfail Hg). cbn [reports_taken]. lia.
      * rewrite (total_insert _ _ _ k _ _ SendingNil Hfail Hg), length_app.
        cbn [errors_taken length]. lia.
      * apply Forall_app. split; [exact Hmsgs |].
        constructor; [| constructor]. exists k, j, err. auto.
    + (* a nil *)
      destruct (lookup_fails c k _ Hlen Hg) as (j & fail & Hj & Hfail).
      injection Hstep as <-. eexists. split; [reflexivity |].
      unfold cycle_invariant, count_in, set_goroutine.
      cbn [snapshot expired goroutines received errs].
      split; [exact Hreach |]. split; [unfold nq in Hmore; lia |].
      split; [exact Hexp |]. split; [now rewrite length_insert |].
      split; [| split; [| split]].
      * intros k' j' fail' g0 Hj' Hfail' Hg0.
        destruct (decide (k = k')) as [<- | Hne].
        -- rewrite list_lookup_insert_eq in Hg0 by (now apply lookup_lt_Some in Hg).
           injection Hg0 as <-. exact I.
        -- rewrite list_lookup_insert_ne in Hg0 by exact Hne. eauto.
      * rewrite (total_insert _ _ _ k _ _ Exited Hfail Hg). cbn [reports_taken].
        destruct fail; lia.
      * rewrite (total_insert _ _ _ k _ _ Exited Hfail Hg). cbn [errors_taken].
        destruct fail; lia.
      * exact Hmsgs.
  - congruence.
  - (* the deadline has not passed *)
    rewrite Hexp, andb_false_r in Hstep. discriminate.
Qed.

Lemma run_invariant (sched : list event) :
  Expire ∉ sched ->
  forall c, cycle_invariant fs fails d0 c ->
  forall out, run_schedule nq sched c = Some out ->
  exists c', out = Normal c' /\ cycle_invariant fs fails d0 c'.
Proof.
  induction sched as [|e rest IH]; intros Hdeadline c Hinv out Hrun.
  - injection Hrun as <-. eauto.
  - cbn [run_schedule] in Hrun.
    destruct (step nq e c) as [o |] eqn:Hstep; [| discriminate].
    destruct (step_invariant e c) with (out := o) as (c' & -> & Hinv'); auto.
    { intros ->. apply Hdeadline. left. }
    apply (IH ltac:(intros H; apply Hdeadline; now right) c' Hinv' out Hrun).
Qed.

(** The loop is never stuck before its last reception: some goroutine
    can run its job or hand over a report. *)
Lemma next_event (c : cycle) :
  cycle_invariant fs fails d0 c ->
  received c < nq ->
  exists e c', e <> Expire /\ step nq e c = Some (Normal c').
Proof.
  intros Hinv Hmore.
  pose proof Hinv as (_ & _ & _ & Hlen & _ & Hrecv & _).
  destruct (some_goroutine_left (goroutines c)) as [Hall | (k & g & Hg & Hleft)].
  { pose proof (total_all_exited (goroutines c) fails ltac:(congruence) Hall).
    unfold nq in Hmore. lia. }
  destruct g as [f op | msg | |]; [| | | congruence].
  - destruct (spawned_job_returns c k f op Hinv Hg) as (fail & d' & _ & _ & Hrun & _).
    exists (Finish k). destruct fail as [err |]; eexists; (split; [discriminate |]);
      cbn [step]; rewrite Hg, Hrun; reflexivity.
  - exists (Receive k). eexists. split; [discriminate |].
    cbn [step]. rewrite (proj2 (Z.ltb_lt _ _) Hmore), Hg. reflexivity.
  - exists (Receive k). eexists. split; [discriminate |].
    cbn [step]. rewrite (proj2 (Z.ltb_lt _ _) Hmore), Hg. reflexivity.
Qed.

(** Every cycle of a run within the deadline goes on, within the
    deadline, to the last reception of the loop. *)
Lemma can_return (m : nat) :
  forall c,
    cycle_invariant fs fails d0 c ->
    all_events_left (goroutines c) <= Z.of_nat m ->
    exists rest c',
      (Expire ∉ rest)
      /\ run_schedule nq rest c = Some (Normal c')
      /\ received c' = nq
      /\ cycle_invariant fs fails d0 c'.
Proof.
  induction m as [|m IH]; intros c Hinv Hleft.
  - destruct (Z.eq_dec (received c) nq) as [Hdone | Hmore].
    { exists [], c. split; [apply not_elem_of_nil | auto]. }
    pose proof Hinv as (_ & Hle & Hexp & _).
    destruct (next_event c Hinv ltac:(unfold nq; lia)) as (e & c1 & He & Hstep).
    destruct (step_uses_an_event nq e c c1 Hstep Hexp He) as [Hless _].
    pose proof (proj1 (all_events_left_bounds (goroutines c1))). lia.
  - destruct (Z.eq_dec (received c) nq) as [Hdone | Hmore].
    { exists [], c. split; [apply not_elem_of_nil | auto]. }
    pose proof Hinv as (_ & Hle & Hexp & _).
    destruct (next_event c Hinv ltac:(unfold nq; lia)) as (e & c1 & He & Hstep).
    destruct (step_uses_an_event nq e c c1 Hstep Hexp He) as [Hless _].
    destruct (step_invariant e c He Hinv _ Hstep) as (c1' & [= <-] & Hinv1).
    destruct (IH c1 Hinv1 ltac:(lia)) as (rest & c' & Hrest & Hrun & Hdone & Hinv').
    exists (e :: rest), c'. split; [| split; [| auto]].
    + apply not_elem_of_cons. split; [congruence | exact Hrest].
    + cbn [run_schedule]. now rewrite Hstep.
Qed.

(** A run within the deadline, from its start: no job panics, the run
    has at most three events for each goroutine, and it goes on to the
    last reception of the loop. *)
Lemma run_within_deadline (sched : list event) (out : outcome cycle) :
  Expire ∉ sched ->
  run_schedule nq sched (start fs d0) = Some out ->
  exists c,
    out = Normal c
    /\ cycle_invariant fs fails d0 c
    /\ Z.of_nat (length sched) <= 3 * nq
    /\ exists rest c',
         (Expire ∉ rest)
         /\ run_schedule nq (sched ++ rest) (start fs d0) = Some (Normal c')
         /\ received c' = nq
         /\ cycle_invariant fs fails d0 c'.
Proof.
  intros Hdeadline Hrun.
  destruct (run_invariant sched Hdeadline _ start_invariant out Hrun) as (c & -> & Hinv).
  exists c. split; [reflexivity |]. split; [exact Hinv |]. split.
  - pose proof (run_is_bounded nq sched Hdeadline _ c Hrun eq_refl) as Hbound.
    cbn [start goroutines] in Hbound. rewrite all_events_left_start in Hbound.
    pose proof (proj1 (all_events_left_bounds (goroutines c))). unfold nq. lia.
  - destruct (can_return (Z.to_nat (all_events_left (goroutines c))) c Hinv)
      as (rest & c' & Hrest & Hgo & Hdone & Hinv').
    { pose proof (proj1 (all_events_left_bounds (goroutines c))). lia. }
    exists rest, c'. split; [exact Hrest |]. split; [| auto].
    rewrite run_schedule_app, Hrun. exact Hgo.
Qed.

End WithinDeadline.

(** Counting the reports when no job fails: at most one per goroutine, and
    one per goroutine only when all have exited. *)
Lemma total_no_failure (gs : list goroutine) :
  forall fails : list (option error),
    Forall (fun fail => fail = None) fails ->
    length fails = length gs ->
    total reports_taken fails gs <= Z.of_nat (length gs)
    /\ total errors_taken fails gs = 0
    /\ (total reports_taken fails gs = Z.of_nat (length gs) ->
        Forall (fun g => g = Exited) gs).
Proof.
  induction gs as [|g gs IH]; intros [|fail fails] Hnone Hlen; try discriminate.
  - cbn. repeat split; [lia | constructor].
  - apply Forall_cons in Hnone as [-> Hnone]. injection Hlen as Hlen.
    destruct (IH fails Hnone Hlen) as (Hle & Herr & Hall).
    cbn [total length]. rewrite Herr.
    destruct g; cbn [reports_taken errors_taken];
      (split; [lia |]); (split; [lia |]); intros Hsum; try lia.
    constructor; [reflexivity | apply Hall; lia].
Qed.

(** Counting the reports when the job [k0] only fails: once the loop has
    taken as many reports as there are goroutines, the error is among
    them. *)
Lemma total_one_failure (gs : list goroutine) :
  forall (fails : list (option error)) (k0 : nat) (err : error),
    length fails = length gs ->
    fails !! k0 = Some (Some err) ->
    (forall k fail, k <> k0 -> fails !! k = Some fail -> fail = None) ->
    total reports_taken fails gs <= Z.of_nat (length gs) + 1
    /\ (Z.of_nat (length gs) <= total reports_taken fails gs ->
        total errors_taken fails gs = 1).
Proof.
  induction gs as [|g gs IH]; intros [|fail fails] k0 err Hlen Hk0 Hothers;
    try discriminate.
  injection Hlen as Hlen. destruct k0 as [|k0]; cbn in Hk0.
  - injection Hk0 as ->.
    assert (Hnone : Forall (fun fail => fail = None) fails).
    { apply Forall_lookup. intros k fail Hfail. apply (Hothers (S k)); [lia | exact Hfail]. }
    destruct (total_no_failure gs fails Hnone Hlen) as (Hle & Herr & _).
    cbn [total length]. rewrite Herr.
    destruct g; cbn [reports_taken errors_taken]; split; lia.
  - assert (fail = None) as -> by (apply (Hothers 0%nat); [lia | reflexivity]).
    destruct (IH fails k0 err Hlen Hk0) as (Hle & Herr).
    { intros k fl Hne Hfl. apply (Hothers (S k)); [lia | exact Hfl]. }
    cbn [total length].
    destruct g; cbn [reports_taken errors_taken]; split; lia.
Qed.

(** When no job fails on a display it can find and the deadline does not
    pass, [update] returns nil under every interleaving. A run so far,
    whatever its events, has had no panic and at most three events for
    each goroutine; it goes on, within the deadline, to a return of
    [update] with nil; and if the loop has taken its last report, the
    run is a return with nil, and every goroutine has run its job and
    exited. *)
Theorem update_without_failure_returns_nil (fs : list (job * string))
    (sched : list event) (d : Display) (out : outcome cycle) :
  (forall j, j ∈ fs -> succeeds_from fs d (fst j)) ->
  Expire ∉ sched ->
  run_schedule (Z.of_nat (length fs)) sched (start fs d) = Some out ->
  exists c,
    out = Normal c
    /\ Z.of_nat (length sched) <= 3 * Z.of_nat (length fs)
    /\ (exists rest d',
          (Expire ∉ rest)
          /\ update_with fs (sched ++ rest) d = Some (Normal (d', None)))
    /\ (received c = Z.of_nat (length fs) ->
        Forall (fun g => g = Exited) (goroutines c)
        /\ update_with fs sched d = Some (Normal (snapshot c, None))).
Proof.
  intros Hfs Hdeadline Hrun.
  set (fails := replicate (length fs) (@None error)).
  assert (Hlen : length fails = length fs) by apply length_replicate.
  assert (Hbehave : forall k j fail,
             fs !! k = Some j -> fails !! k = Some fail -> behaves_from fs d j fail).
  { intros k j fail Hj Hfail. apply lookup_replicate in Hfail as [-> _].
    apply Hfs. eapply list_elem_of_lookup_2, Hj. }
  assert (Hnil : forall sched' c,
             run_schedule (Z.of_nat (length fs)) sched' (start fs d) = Some (Normal c) ->
             cycle_invariant fs fails d c ->
             received c = Z.of_nat (length fs) ->
             Forall (fun g => g = Exited) (goroutines c)
             /\ update_with fs sched' d = Some (Normal (snapshot c, None))).
  { intros sched' c Hrun' (_ & _ & _ & Hgs & _ & Hrecv & Herrs & _) Hdone.
    destruct (total_no_failure (goroutines c) fails) as (_ & Hzero & Hall).
    { apply Forall_forall. intros fail Hin. now apply elem_of_replicate in Hin as [-> _]. }
    { congruence. }
    split; [apply Hall; lia |].
    unfold update_with. rewrite Hrun', (proj2 (Z.eqb_eq _ _) Hdone).
    rewrite Hzero in Herrs. destruct (errs c); [reflexivity | discriminate]. }
  destruct (run_within_deadline fs fails d Hlen Hbehave sched out Hdeadline Hrun)
    as (c & -> & Hinv & Hbound & rest & c' & Hrest & Hgo & Hdone & Hinv').
  exists c. split; [reflexivity |]. split; [exact Hbound |]. split.
  - exists rest, (snapshot c'). split; [exact Hrest |].
    now apply (Hnil (sched ++ rest) c' Hgo Hinv' Hdone).
  - now apply (Hnil sched c Hrun Hinv).
Qed.

(** When exactly one job fails, on every display it can find, and the
    deadline does not pass, [update] returns one combined error under
    every interleaving: a run so far has had no panic and at most three
    events for each goroutine; it goes on, within the deadline, to a
    return of [update]; and every return of [update] is the error that
    counts one failure and carries the name of the failed job in front
    of its error. *)
Theorem update_reports_the_one_failure (fs : list (job * string)) (k0 : nat)
    (j0 : job * string) (err : error)
    (sched : list event) (d : Display) (out : outcome cycle) :
  fs !! k0 = Some j0 ->
  fails_from fs d (fst j0) err ->
  (forall k j, k <> k0 -> fs !! k = Some j -> succeeds_from fs d (fst j)) ->
  Expire ∉ sched ->
  run_schedule (Z.of_nat (length fs)) sched (start fs d) = Some out ->
  exists c,
    out = Normal c
    /\ Z.of_nat (length sched) <= 3 * Z.of_nat (length fs)
    /\ (exists rest d',
          (Expire ∉ rest)
          /\ update_with fs (sched ++ rest) d
             = Some (Normal (d', Some ("1 errors: " +:+ snd j0 +:+ ": " +:+ err))))
    /\ (received c = Z.of_nat (length fs) ->
        update_with fs sched d
        = Some (Normal (snapshot c, Some ("1 errors: " +:+ snd j0 +:+ ": " +:+ err)))).
Proof.
  intros Hj0 Hfail Hothers Hdeadline Hrun.
  set (fails := <[k0 := Some err]> (replicate (length fs) (@None error))).
  assert (Hk0 : (k0 < length fs)%nat) by (now apply lookup_lt_Some in Hj0).
  assert (Hlen : length fails = length fs)
    by (unfold fails; now rewrite length_insert, length_replicate).
  assert (Hat : fails !! k0 = Some (Some err)).
  { unfold fails. apply list_lookup_insert_eq. now rewrite length_replicate. }
  assert (Hnone : forall k fail, k <> k0 -> fails !! k = Some fail -> fail = None).
  { intros k fail Hne Hk. unfold fails in Hk.
    rewrite list_lookup_insert_ne in Hk by congruence.
    now apply lookup_replicate in Hk as [-> _]. }
  assert (Hbehave : forall k j fail,
             fs !! k = Some j -> fails !! k = Some fail -> behaves_from fs d j fail).
  { intros k j fail Hj Hk. destruct (decide (k = k0)) as [-> | Hne].
    - rewrite Hat in Hk. injection Hk as <-. rewrite Hj0 in Hj. injection Hj as <-. exact Hfail.
    - rewrite (Hnone k fail Hne Hk). now apply (Hothers k). }
  assert (Hone : forall sched' c,
             run_schedule (Z.of_nat (length fs)) sched' (start fs d) = Some (Normal c) ->
             cycle_invariant fs fails d c ->
             received c = Z.of_nat (length fs) ->
             update_with fs sched' d
             = Some (Normal (snapshot c, Some ("1 errors: " +:+ snd j0 +:+ ": " +:+ err)))).
  { intros sched' c Hrun' (_ & _ & _ & Hgs & _ & Hrecv & Herrs & Hmsgs) Hdone.
    destruct (total_one_failure (goroutines c) fails k0 err) as (_ & Hsum);
      [congruence | auto | auto |].
    rewrite Hsum in Herrs by lia.
    unfold update_with. rewrite Hrun', (proj2 (Z.eqb_eq _ _) Hdone).
    destruct (errs c) as [|msg [|msg' more]]; cbn [length] in Herrs; try lia.
    apply Forall_cons in Hmsgs as [(k & j & e & Hj & Hk & ->) _].
    assert (k = k0) as ->.
    { destruct (decide (k = k0)) as [-> | Hne]; [reflexivity |].
      now pose proof (Hnone k _ Hne Hk). }
    rewrite Hat in Hk. injection Hk as <-. rewrite Hj0 in Hj. injection Hj as <-.
    reflexivity. }
  destruct (run_within_deadline fs fails d Hlen Hbehave sched out Hdeadline Hrun)
    as (c & -> & Hinv & Hbound & rest & c' & Hrest & Hgo & Hdone & Hinv').
  exists c. split; [reflexivity |]. split; [exact Hbound |]. split.
  - exists rest, (snapshot c'). split; [exact Hrest |].
    now apply (Hone (sched ++ rest) c' Hgo Hinv' Hdone).
  - now apply (Hone sched c Hrun Hinv).
Qed.

(** With the station down, no job writes the stamp of the
    weather-station data: the sensor jobs never do, and the
    weather-station job skips its request or fails. *)
Lemma station_down_keeps_stamp (d d1 : Display) :
  reachable (jobs testdata.env_station_down) d d1 -> MesonetLastData d1 = MesonetLastData d.
Proof.
  induction 1 as [|d1 d2 j r _ IH Hj Hrun]; [reflexivity |].
  rewrite <- IH. unfold jobs in Hj.
  repeat (apply elem_of_cons in Hj as [-> | Hj]); try (now inversion Hj);
    cbn [fst] in Hrun; try (now injection Hrun as <- _).
  unfold updateOutdoorTemperature in Hrun.
  destruct (_ <? _); now injection Hrun as <- _.
Qed.

Lemma station_down_sensor_jobs_succeed (d : Display) (k : nat) (j : job * string) :
  k <> 4%nat -> jobs testdata.env_station_down !! k = Some j ->
  succeeds_from (jobs testdata.env_station_down) d (fst j).
Proof.
  intros Hk Hj d1 _. unfold jobs in Hj.
  destruct k as [|[|[|[|[|k]]]]]; try congruence; cbn in Hj;
    try discriminate; injection Hj as <-; eexists; reflexivity.
Qed.

Lemma update_without_failure_returns_nil_witness :
  exists c,
    Normal testdata.all_exited = Normal c
    /\ Z.of_nat (length testdata.all_finished)
       <= 3 * Z.of_nat (length (jobs testdata.env_station_down))
    /\ (exists rest d',
          (Expire ∉ rest)
          /\ update_with (jobs testdata.env_station_down) (testdata.all_finished ++ rest)
                         testdata.recent
             = Some (Normal (d', None)))
    /\ (received c = Z.of_nat (length (jobs testdata.env_station_down)) ->
        Forall (fun g => g = Exited) (goroutines c)
        /\ update_with (jobs testdata.env_station_down) testdata.all_finished testdata.recent
           = Some (Normal (snapshot c, None))).
Proof.
  apply (update_without_failure_returns_nil (jobs testdata.env_station_down)
           testdata.all_finished testdata.recent (Normal testdata.all_exited)).
  - intros j Hj. apply list_elem_of_lookup in Hj as [k Hk].
    destruct (decide (k = 4%nat)) as [-> | Hne];
      [| exact (station_down_sensor_jobs_succeed testdata.recent k j Hne Hk)].
    injection Hk as <-. intros d1 Hd1. exists d1. cbn [fst].
    unfold updateOutdoorTemperature.
    rewrite (station_down_keeps_stamp testdata.recent d1 Hd1). reflexivity.
  - unfold testdata.all_finished. intros Hin.
    repeat (apply elem_of_cons in Hin as [Hin | Hin]; [discriminate Hin |]).
    inversion Hin.
  - reflexivity.
Defined.

Lemma update_reports_the_one_failure_witness :
  exists c,
    Normal testdata.station_reported = Normal c
    /\ Z.of_nat (length testdata.all_finished)
       <= 3 * Z.of_nat (length (jobs testdata.env_station_down))
    /\ (exists rest d',
          (Expire ∉ rest)
          /\ update_with (jobs testdata.env_station_down) (testdata.all_finished ++ rest)
                         testdata.display
             = Some (Normal (d', Some ("1 errors: get outdoor temperature: "
                                       +:+ "do: do request: dial tcp: connection refused"))))
    /\ (received c = Z.of_nat (length (jobs testdata.env_station_down)) ->
        update_with (jobs testdata.env_station_down) testdata.all_finished testdata.display
        = Some (Normal (snapshot c, Some ("1 errors: get outdoor temperature: "
                                          +:+ "do: do request: dial tcp: connection refused")))).
Proof.
  apply (update_reports_the_one_failure (jobs testdata.env_station_down) 4
           (fun d => fst (updateOutdoorTemperature testdata.env_station_down d),
            "get outdoor temperature"%string)
           "do: do request: dial tcp: connection refused"
           testdata.all_finished testdata.display (Normal testdata.station_reported)).
  - reflexivity.
  - intros d1 Hd1. exists d1. cbn [fst]. unfold updateOutdoorTemperature.
    rewrite (station_down_keeps_stamp testdata.display d1 Hd1). reflexivity.
  - intros k j Hne Hj. exact (station_down_sensor_jobs_succeed testdata.display k j Hne Hj).
  - unfold testdata.all_finished. intros Hin.
    repeat (apply elem_of_cons in Hin as [Hin | Hin]; [discriminate Hin |]).
    inversion Hin.
  - reflexivity.
Defined.

(** ** What the calls leave untouched *)

(** The drawing loop only writes the buffer it draws on. *)
Lemma draw_lines_through_pointer (env : Env) (img : loc) (lines : list (list byte))
    (todo : list Z) (h0 : store) :
  forall (b : image.RGBA) (h' : store) (err : option error),
    draw_lines env img lines todo (<[img := b]> h0) = Normal (h', err) ->
    exists b', h' = <[img := b']> h0.
Proof.
  induction todo as [|i rest IH]; intros b h' err Hrun.
  - injection Hrun as <- _. now exists b.
  - cbn [draw_lines] in Hrun.
    destruct (index lines (Z.quot i 8)) as [text | p]; [| discriminate].
    cbn [mbind outcome_bind] in Hrun.
    destruct (sf_Draw env (deref (<[img := b]> h0) img) text 0 i) as [drawn [e |]].
    + injection Hrun as <- _. rewrite insert_insert_eq. now exists drawn.
    + rewrite insert_insert_eq in Hrun. now apply IH in Hrun.
Qed.

(** [render] allocates the buffer it draws on: whenever it returns, the
    store is the one it was given plus that one fresh buffer, so no
    buffer published before is written. The display keeps its
    measurements and its configuration; the new buffer is published when
    no line failed to draw, and the old one stays otherwise. *)
Theorem render_writes_a_fresh_buffer (env : Env) (h h' : store) (d d' : Display)
    (err : option error) :
  render env h d = Normal (h', d', err) ->
  h !! fresh (dom h) = None
  /\ (exists b, h' = <[fresh (dom h) := b]> h)
  /\ (forall l, is_Some (h !! l) -> h' !! l = h !! l)
  /\ image d' = match err with None => Some (fresh (dom h)) | Some _ => image d end
  /\ d' = set_image (image d') (set_screen (screen d') d).
Proof.
  unfold render. intros Hrender.
  destruct (make_lines _) as [lines0 | p]; [| discriminate].
  cbn [mbind outcome_bind] in Hrender.
  destruct (assign_index lines0 0 _) as [lines1 | p]; [| discriminate].
  cbn [mbind outcome_bind] in Hrender.
  destruct (assign_index lines1 1 _) as [lines | p]; [| discriminate].
  cbn [mbind outcome_bind] in Hrender. unfold alloc in Hrender.
  set (img := fresh (dom h)) in *.
  set (bounds := image.Rect 0 0 _ _) in *.
  rewrite (for_range_through_pointer img h _ _ _
             (fun y => for_range (image.X (image.Min bounds)) (image.X (image.Max bounds))
                         (fun x b => image.Set_ b x y black))) in Hrender.
  2: { intros y b. apply for_range_through_pointer. intros x b'. apply store_Set_insert. }
  destruct (draw_lines _ _ _ _ _) as [[h1 err1] | p] eqn:Hdraw; [| discriminate].
  apply draw_lines_through_pointer in Hdraw as [b' ->].
  cbn [mbind outcome_bind] in Hrender.
  assert (Hfresh : h !! img = None) by apply fresh_not_allocated.
  assert (Hframe : forall l, is_Some (h !! l) -> <[img := b']> h !! l = h !! l).
  { intros l [x Hl]. apply lookup_insert_ne. intros E. rewrite E in Hfresh. congruence. }
  destruct err1 as [e |]; injection Hrender as <- <- <-.
  - split; [exact Hfresh |]. split; [now exists b' |]. split; [exact Hframe |].
    split; [reflexivity |]. now destruct d.
  - split; [exact Hfresh |]. split; [now exists b' |]. split; [exact Hframe |].
    split; [reflexivity |]. now destruct d.
Qed.

Lemma render_writes_a_fresh_buffer_witness :
  testdata.dot_store !! fresh (dom testdata.dot_store) = None
  /\ (exists b, fst testdata.rendered = <[fresh (dom testdata.dot_store) := b]> testdata.dot_store)
  /\ (forall l, is_Some (testdata.dot_store !! l) ->
        fst testdata.rendered !! l = testdata.dot_store !! l)
  /\ image (snd testdata.rendered) = Some (fresh (dom testdata.dot_store))
  /\ snd testdata.rendered
     = set_image (image (snd testdata.rendered))
         (set_screen (screen (snd testdata.rendered)) testdata.narrow_display).
Proof.
  apply (render_writes_a_fresh_buffer testdata.env testdata.dot_store (fst testdata.rendered)
           testdata.narrow_display (snd testdata.rendered) None).
  vm_compute. reflexivity.
Defined.

(** [ServeImage] when the encoder reports an error: status 500 with the
    error as plain text, and none of what the encoder wrote. *)
Theorem ServeImage_encoder_error (env : Env) (d : Display) (h : store) (img : loc)
    (body : string) (err : error) :
  image d = Some img ->
  (png_Encode env (deref h img) = (body, Some err) ->
   ServeImage env d h "/index.png" = http_Error err 500)
  /\ (bmp_Encode env (deref h img) = (body, Some err) ->
      ServeImage env d h "/index.bmp" = http_Error err 500).
Proof.
  intros Himg. destruct (choose_encoder_index env) as (Hpng & Hbmp & _).
  unfold ServeImage. rewrite Himg, Hpng, Hbmp.
  split; intros ->; reflexivity.
Qed.

Lemma ServeImage_encoder_error_witness :
  (png_Encode testdata.env_refusing (deref testdata.dot_store 1%positive)
   = (""%string, Some "invalid image size"%string) ->
   ServeImage testdata.env_refusing testdata.dot_display testdata.dot_store "/index.png"
   = http_Error "invalid image size" 500)
  /\ (bmp_Encode testdata.env_refusing (deref testdata.dot_store 1%positive)
      = (""%string, Some "invalid image size"%string) ->
      ServeImage testdata.env_refusing testdata.dot_display testdata.dot_store "/index.bmp"
      = http_Error "invalid image size" 500).
Proof.
  apply (ServeImage_encoder_error testdata.env_refusing testdata.dot_display testdata.dot_store
           1%positive "" "invalid image size").
  reflexivity.
Defined.

(** ** Panics of the weather-station code *)

(** A variable not named time whose first entry is an empty array makes
    the decoder read [first[0]] out of range. *)
Theorem UnmarshalJSON_empty_array_panics (v : mesonet.DataVar) (raw : mesonet.RawDataVar)
    (more : list mesonet.json) :
  mesonet.LongName (mesonet.raw_Attrs raw) <> "time"%string ->
  mesonet.Data raw = mesonet.JArray [] :: more ->
  mesonet.UnmarshalJSON v (inr raw) = Panic (IndexOutOfRange 0 0).
Proof.
  intros Hname Hraw. unfold mesonet.UnmarshalJSON. rewrite Hraw.
  cbn [mesonet.Attrs]. rewrite (proj2 (String.eqb_neq _ _) Hname). reflexivity.
Qed.

Lemma UnmarshalJSON_empty_array_panics_witness :
  mesonet.UnmarshalJSON mesonet.zeroDataVar (inr testdata.raw_empty)
  = Panic (IndexOutOfRange 0 0).
Proof.
  apply (UnmarshalJSON_empty_array_panics mesonet.zeroDataVar testdata.raw_empty []).
  - discriminate.
  - reflexivity.
Defined.

(** The loop over the series when the time coordinate ends at or before
    the index the loop stands at: the first non-zero entry makes it read
    the time coordinate out of range. *)
Lemma scan_tair_short_times (times : list time.Time) (tair : list float) :
  forall (i : Z) (s : scan),
    Z.of_nat (length times) <= i ->
    is_Some (last_nonzero tair) ->
    exists j, scan_tair times i tair s = Panic (IndexOutOfRange j (Z.of_nat (length times))).
Proof.
  induction tair as [|t rest IH]; intros i s Hshort Hsome.
  - destruct Hsome as [x Hx]. discriminate.
  - cbn [scan_tair]. destruct (float_nonzero t) eqn:Ht.
    + exists i. unfold index.
      rewrite (proj2 (Z.leb_le _ _) Hshort), orb_true_r. reflexivity.
    + apply IH; [lia |]. unfold last_nonzero in *.
      rewrite filter_cons_False in Hsome by (rewrite Ht; discriminate). exact Hsome.
Qed.

(** A response whose series has a non-zero entry but whose time
    coordinate is missing or empty makes the job panic: no field is
    written. *)
Theorem updateOutdoorTemperature_panics_without_times (env : Env) (d : Display)
    (res : mesonet.Result) :
  6 * time.Minute <= time.Since (clock env 0%nat) (MesonetLastData d) ->
  mesonet.Do (httpClient env) (mesonetRequest (clock env 1%nat)) = inr res ->
  mesonet.TimeData (mesonet.lookup_var (mesonet.Coords (mesonet.Response_ res)) "time") = [] ->
  is_Some (last_nonzero
             (mesonet.FloatData
                (mesonet.lookup_var (mesonet.DataVars (mesonet.Response_ res)) "tair"))) ->
  exists j, fst (updateOutdoorTemperature env d) = Panic (IndexOutOfRange j 0).
Proof.
  intros Hold Hdo Htimes Hsome. unfold updateOutdoorTemperature.
  rewrite (proj2 (Z.ltb_ge _ _) Hold), Hdo, Htimes.
  set (tair := mesonet.FloatData _) in *.
  assert (Hne : tair <> []) by (intros E; rewrite E in Hsome; destruct Hsome; discriminate).
  rewrite (proj2 (Z.eqb_neq (Z.of_nat (length tair)) 0))
    by (destruct tair; [congruence | cbn [length]; lia]).
  destruct (scan_tair_short_times [] tair 0 scan0) as [j Hj]; [cbn; lia | exact Hsome |].
  exists j. cbn [fst]. rewrite Hj. reflexivity.
Qed.

Lemma updateOutdoorTemperature_panics_without_times_witness :
  exists j,
    fst (updateOutdoorTemperature testdata.env_without_time testdata.display)
    = Panic (IndexOutOfRange j 0).
Proof.
  apply (updateOutdoorTemperature_panics_without_times testdata.env_without_time
           testdata.display testdata.brooklyn_without_time).
  - vm_compute. discriminate.
  - reflexivity.
  - reflexivity.
  - vm_compute. eexists. reflexivity.
Defined.

(** ** Requests and failures of the jobs *)

(** When the rate limit does not apply, the weather-station job sends one
    request: the last hour of [tair] in degrees Fahrenheit at the station
    [bkln]. *)
Theorem updateOutdoorTemperature_sends_one_request (env : Env) (d : Display) :
  6 * time.Minute <= time.Since (clock env 0%nat) (MesonetLastData d) ->
  snd (updateOutdoorTemperature env d)
  = [mesonet.mkRequest "https://api.nysmesonet.org/data/dynserv/timeseries2" "nysm"
       (clock env 1%nat - time.Hour) (clock env 1%nat) ["bkln"%string]
       [mesonet.mkVariable "tair" "degF"]].
Proof.
  intros Hold. unfold updateOutdoorTemperature.
  rewrite (proj2 (Z.ltb_ge _ _) Hold).
  destruct (mesonet.Do _ _) as [[res err] | res]; [reflexivity |].
  destruct (Z.of_nat (length _) =? 0); reflexivity.
Qed.

Lemma updateOutdoorTemperature_sends_one_request_witness :
  snd (updateOutdoorTemperature testdata.env testdata.display)
  = [mesonet.mkRequest "https://api.nysmesonet.org/data/dynserv/timeseries2" "nysm"
       (clock testdata.env 1%nat - time.Hour) (clock testdata.env 1%nat) ["bkln"%string]
       [mesonet.mkVariable "tair" "degF"]].
Proof.
  apply (updateOutdoorTemperature_sends_one_request testdata.env testdata.display).
  vm_compute. discriminate.
Defined.

(** A job that returns an error has written nothing: the display is the
    one it was given, so the values of a failed job stay as they were. *)
Theorem failed_job_leaves_display (env : Env) (j : job * string) (d d' : Display)
    (err : error) :
  j ∈ jobs env ->
  fst j d = Normal (d', Some err) ->
  d' = d.
Proof.
  intros Hj Hrun. unfold jobs in Hj.
  assert (Hquery : forall q set_field,
             wrap "query" (queryOneInflux env q set_field d) = Normal (d', Some err) -> d' = d).
  { intros q set_field. unfold queryOneInflux.
    destruct (influxClient env q) as [e | cause | cause | [| x | syntax]];
      cbn [wrap]; congruence. }
  repeat (apply elem_of_cons in Hj as [-> | Hj]); cbn [fst] in Hrun;
    try (now inversion Hj); try (now eapply Hquery, Hrun).
  unfold updateOutdoorTemperature in Hrun.
  destruct (time.Since _ _ <? _); [cbn in Hrun; congruence |].
  destruct (mesonet.Do _ _) as [[res e] | res]; [cbn in Hrun; congruence |].
  destruct (Z.of_nat (length _) =? 0); [cbn in Hrun; congruence |].
  cbn [fst] in Hrun.
  destruct (scan_tair _ _ _ _); cbn [mbind outcome_bind] in Hrun; congruence.
Qed.

Lemma failed_job_leaves_display_witness : testdata.display = testdata.display.
Proof.
  apply (failed_job_leaves_display testdata.env
           (updateTemperature testdata.env, "get temperature"%string)
           testdata.display testdata.display "query: query: connection refused").
  - left.
  - reflexivity.
Defined.

(** ** The update cycle under every schedule *)

Lemma count_where_insert (p : goroutine -> bool) (gs : list goroutine) :
  forall (k : nat) (g g' : goroutine),
    gs !! k = Some g ->
    count_where p (<[k := g']> gs)
    = count_where p gs - (if p g then 1 else 0) + (if p g' then 1 else 0).
Proof.
  induction gs as [|g0 gs IH]; intros k g g' Hg; [inversion Hg |].
  destruct k as [|k]; cbn in Hg.
  - injection Hg as ->. cbn [count_where]. cbn. lia.
  - change (<[S k := g']> (g0 :: gs)) with (g0 :: <[k := g']> gs).
    cbn [count_where]. rewrite (IH k g g' Hg). lia.
Qed.

Lemma count_where_all (p : goroutine -> bool) (gs : list goroutine) :
  count_where p gs <= Z.of_nat (length gs)
  /\ (count_where p gs = Z.of_nat (length gs) -> Forall (fun g => p g = true) gs).
Proof.
  induction gs as [|g gs [IHle IHall]]; [split; [cbn; lia | constructor] |].
  cbn [count_where length]. destruct (p g) eqn:Hp.
  - split; [lia |]. intros Hsum. constructor; [exact Hp | apply IHall; lia].
  - split; [lia |]. intros Hsum. lia.
Qed.

Lemma step_accounted (nq : Z) (e : event) (c c' : cycle) :
  step nq e c = Some (Normal c') ->
  receptions_accounted c ->
  receptions_accounted c' /\ length (goroutines c') = length (goroutines c).
Proof.
  unfold receptions_accounted. intros Hstep Hacc.
  destruct e as [k | k | |]; cbn [step] in Hstep.
  - destruct (goroutines c !! k) as [[f op | | |]|] eqn:Hg; try discriminate.
    destruct (f (snapshot c)) as [[d [err |]] | p]; try discriminate;
      injection Hstep as <-; cbn [set_goroutine goroutines received errs];
      rewrite (count_where_insert _ _ k _ _ Hg), length_insert; cbn [has_exited]; lia.
  - destruct (received c <? nq); [| discriminate].
    destruct (goroutines c !! k) as [[f op | msg | |]|] eqn:Hg; try discriminate;
      injection Hstep as <-; cbn [count_in set_goroutine goroutines received errs];
      rewrite (count_where_insert _ _ k _ _ Hg), length_insert, ?length_app;
      cbn [has_exited length]; lia.
  - injection Hstep as <-. cbn [goroutines received errs]. lia.
  - destruct ((received c <? nq) && expired c); [| discriminate].
    injection Hstep as <-. cbn [count_in goroutines received errs].
    rewrite length_app. cbn [length]. lia.
Qed.

Lemma run_accounted (nq : Z) (sched : list event) :
  forall c c',
    run_schedule nq sched c = Some (Normal c') ->
    receptions_accounted c ->
    receptions_accounted c' /\ length (goroutines c') = length (goroutines c).
Proof.
  induction sched as [|e rest IH]; intros c c' Hrun Hacc.
  - injection Hrun as <-. auto.
  - cbn [run_schedule] in Hrun.
    destruct (step nq e c) as [[c1 | p] |] eqn:Hstep; try discriminate.
    destruct (step_accounted nq e c c1 Hstep Hacc) as [Hacc1 Hlen1].
    destruct (IH c1 c' Hrun Hacc1) as [Hacc' Hlen']. split; [exact Hacc' | congruence].
Qed.

Lemma start_accounted (fs : list (job * string)) (d : Display) :
  receptions_accounted (start fs d) /\ length (goroutines (start fs d)) = length fs.
Proof.
  unfold receptions_accounted, start. cbn [received goroutines errs length].
  split; [| apply length_map].
  induction fs as [|[f op] fs IH]; [reflexivity |].
  cbn [map count_where has_exited]. lia.
Qed.

Lemma all_exited_without_errors (fs : list (job * string)) (sched : list event)
    (d : Display) (c : cycle) :
  run_schedule (Z.of_nat (length fs)) sched (start fs d) = Some (Normal c) ->
  received c = Z.of_nat (length fs) ->
  errs c = [] ->
  Forall (fun g => has_exited g = true) (goroutines c).
Proof.
  intros Hrun Hdone Herrs.
  destruct (start_accounted fs d) as [Hacc0 Hlen0].
  destruct (run_accounted _ sched _ c Hrun Hacc0) as [Hacc Hlen].
  unfold receptions_accounted in Hacc.
  rewrite Herrs in Hacc. cbn [length] in Hacc.
  apply count_where_all. lia.
Qed.

(** Whatever the jobs do and whether the deadline passes or not: when
    [update] returns, as many goroutines have not exited as there are
    errors in [errs]. With no error to report, every goroutine has run
    its job and exited; each reported error stands for one goroutine
    that is left behind, running or blocked on its send. *)
Theorem update_leaves_one_goroutine_per_error (fs : list (job * string))
    (sched : list event) (d : Display) (c : cycle) :
  run_schedule (Z.of_nat (length fs)) sched (start fs d) = Some (Normal c) ->
  received c = Z.of_nat (length fs) ->
  length (goroutines c) = length fs
  /\ Z.of_nat (length fs) - count_where has_exited (goroutines c)
     = Z.of_nat (length (errs c))
  /\ (errs c = [] -> Forall (fun g => has_exited g = true) (goroutines c)).
Proof.
  intros Hrun Hdone.
  destruct (start_accounted fs d) as [Hacc0 Hlen0].
  destruct (run_accounted _ sched _ c Hrun Hacc0) as [Hacc Hlen].
  unfold receptions_accounted in Hacc.
  split; [congruence |]. split; [lia |].
  intros Herrs. eapply all_exited_without_errors; eauto.
Qed.

Lemma update_leaves_one_goroutine_per_error_witness :
  length (goroutines testdata.left_behind) = length (jobs testdata.env)
  /\ Z.of_nat (length (jobs testdata.env))
     - count_where has_exited (goroutines testdata.left_behind)
     = Z.of_nat (length (errs testdata.left_behind))
  /\ (errs testdata.left_behind = [] ->
      Forall (fun g => has_exited g = true) (goroutines testdata.left_behind)).
Proof.
  apply (update_leaves_one_goroutine_per_error (jobs testdata.env) testdata.early_return
           testdata.display testdata.left_behind).
  - reflexivity.
  - reflexivity.
Defined.

(** *** The display does not depend on the interleaving *)

Lemma commuting_tail (j : job * string) (fs : list (job * string)) :
  commuting (j :: fs) -> commuting fs.
Proof.
  intros Hc i k fi fk Hne Hi Hk. apply (Hc (S i) (S k)); [lia | exact Hi | exact Hk].
Qed.

(** An effect that commutes with those of [fs] commutes with running any
    of them. *)
Lemma effect_through_run_marked (t : Display -> Display) (fs : list (job * string)) :
  (forall j, j ∈ fs -> forall d, t (effect (fst j) d) = effect (fst j) (t d)) ->
  forall marks d, t (run_marked fs marks d) = run_marked fs marks (t d).
Proof.
  induction fs as [|j fs IH]; intros Ht marks d; [reflexivity |].
  destruct marks as [|[|] marks]; cbn [run_marked]; try reflexivity.
  - rewrite IH by (intros j' Hj'; apply Ht; now right).
    rewrite Ht by left. reflexivity.
  - apply IH. intros j' Hj'. apply Ht. now right.
Qed.

(** A job that finishes: its effect on the display so far is the display
    with the job marked as well. *)
Lemma run_marked_finish (fs : list (job * string)) :
  commuting fs ->
  forall k j marks d,
    fs !! k = Some j -> marks !! k = Some false ->
    effect (fst j) (run_marked fs marks d) = run_marked fs (<[k := true]> marks) d.
Proof.
  induction fs as [|j0 fs IH]; intros Hc k j marks d Hj Hmark; [inversion Hj |].
  destruct marks as [|mark marks]; [inversion Hmark |].
  destruct k as [|k]; cbn in Hj, Hmark.
  - injection Hj as ->. injection Hmark as ->.
    cbn [run_marked]. change (<[0%nat := true]> (false :: marks)) with (true :: marks).
    cbn [run_marked].
    apply (effect_through_run_marked (effect (fst j)) fs).
    intros j' Hj' d'. apply list_elem_of_lookup in Hj' as [i Hi].
    apply (Hc 0%nat (S i) j j'); [lia | reflexivity | exact Hi].
  - change (<[S k := true]> (mark :: marks)) with (mark :: <[k := true]> marks).
    cbn [run_marked]. apply IH; [eapply commuting_tail, Hc | exact Hj | exact Hmark].
Qed.

Lemma run_marked_none (fs : list (job * string)) (d : Display) :
  run_marked fs (map has_finished (map (fun '(f, op) => Spawned f op) fs)) d = d.
Proof.
  revert d. induction fs as [|[f op] fs IH]; intros d; [reflexivity |].
  cbn [map run_marked has_finished]. apply IH.
Qed.

Lemma step_in_order (fs : list (job * string)) (d : Display) (nq : Z)
    (e : event) (c c' : cycle) :
  commuting fs ->
  step nq e c = Some (Normal c') ->
  snapshot_in_order fs d c -> snapshot_in_order fs d c'.
Proof.
  intros Hc Hstep (Hlen & Hspawned & Hsnap). unfold snapshot_in_order.
  assert (Hkeep : forall k g g' c0,
             goroutines c !! k = Some g -> has_finished g = true -> has_finished g' = true ->
             goroutines c0 = <[k := g']> (goroutines c) -> snapshot c0 = snapshot c ->
             (forall f op, g' <> Spawned f op) ->
             snapshot_in_order fs d c0).
  { intros k g g' c0 Hg Hfin Hfin' Hgs Hs Hnot. unfold snapshot_in_order. rewrite Hgs, Hs.
    split; [now rewrite length_insert |]. split.
    - intros k' f op Hk'. destruct (decide (k = k')) as [<- | Hne].
      + rewrite list_lookup_insert_eq in Hk' by (now apply lookup_lt_Some in Hg).
        injection Hk' as ->. now destruct (Hnot f op).
      + rewrite list_lookup_insert_ne in Hk' by exact Hne. now apply Hspawned.
    - rewrite Hsnap. f_equal. rewrite list_fmap_insert, Hfin'.
      symmetry. apply list_insert_id. rewrite list_lookup_fmap, Hg. cbn. now rewrite Hfin. }
  destruct e as [k | k | |]; cbn [step] in Hstep.
  - destruct (goroutines c !! k) as [[f op | | |]|] eqn:Hg; try discriminate.
    pose proof (Hspawned k f op Hg) as Hj.
    assert (Hrun : forall g' d' r,
               f (snapshot c) = Normal (d', r) -> has_finished g' = true ->
               (forall f' op', g' <> Spawned f' op') ->
               snapshot_in_order fs d
                 (set_goroutine k g' (mkCycle d' (goroutines c) (received c) (errs c) (expired c)))).
    { intros g' d' r Hf Hfin' Hnot. unfold snapshot_in_order, set_goroutine.
      cbn [goroutines snapshot].
      split; [now rewrite length_insert |]. split.
      - intros k' f' op' Hk'. destruct (decide (k = k')) as [<- | Hne].
        + rewrite list_lookup_insert_eq in Hk' by (now apply lookup_lt_Some in Hg).
          injection Hk' as ->. now destruct (Hnot f' op').
        + rewrite list_lookup_insert_ne in Hk' by exact Hne. now apply Hspawned.
      - rewrite list_fmap_insert, Hfin'.
        rewrite <- (run_marked_finish fs Hc k (f, op) _ d Hj)
          by (rewrite list_lookup_fmap, Hg; reflexivity).
        change (has_finished <$> goroutines c) with (map has_finished (goroutines c)).
        rewrite <- Hsnap. unfold effect. cbn [fst]. now rewrite Hf. }
    destruct (f (snapshot c)) as [[d' [err |]] | p] eqn:Hf; try discriminate;
      injection Hstep as <-; eapply Hrun; eauto; discriminate.
  - destruct (received c <? nq); [| discriminate].
    destruct (goroutines c !! k) as [[f op | msg | |]|] eqn:Hg; try discriminate;
      injection Hstep as <-;
      eapply (Hkeep k); eauto; try reflexivity; discriminate.
  - injection Hstep as <-. unfold snapshot_in_order. cbn [goroutines snapshot]. auto.
  - destruct ((received c <? nq) && expired c); [| discriminate].
    injection Hstep as <-. unfold snapshot_in_order, count_in. cbn [goroutines snapshot]. auto.
Qed.

Lemma run_in_order_invariant (fs : list (job * string)) (d : Display) (nq : Z)
    (sched : list event) :
  commuting fs ->
  forall c c',
    run_schedule nq sched c = Some (Normal c') ->
    snapshot_in_order fs d c -> snapshot_in_order fs d c'.
Proof.
  intros Hc. induction sched as [|e rest IH]; intros c c' Hrun Hinv.
  - injection Hrun as <-. exact Hinv.
  - cbn [run_schedule] in Hrun.
    destruct (step nq e c) as [[c1 | p] |] eqn:Hstep; try discriminate.
    eapply IH; [exact Hrun |]. eapply step_in_order; eauto.
Qed.

Lemma run_marked_all (fs : list (job * string)) :
  forall marks d,
    length marks = length fs -> Forall (fun mark => mark = true) marks ->
    run_marked fs marks d = run_in_order fs d.
Proof.
  unfold run_in_order.
  induction fs as [|j fs IH]; intros [|mark marks] d Hlen Hall; try discriminate;
    [reflexivity |].
  apply Forall_cons in Hall as [-> Hall]. injection Hlen as Hlen.
  cbn [run_marked foldl]. now apply IH.
Qed.

Lemma run_is_in_order (fs : list (job * string)) (sched : list event) (d : Display)
    (c : cycle) :
  commuting fs ->
  run_schedule (Z.of_nat (length fs)) sched (start fs d) = Some (Normal c) ->
  snapshot c = run_marked fs (map has_finished (goroutines c)) d
  /\ (received c = Z.of_nat (length fs) -> errs c = [] -> snapshot c = run_in_order fs d).
Proof.
  intros Hc Hrun.
  assert (Hstart : snapshot_in_order fs d (start fs d)).
  { unfold snapshot_in_order, start. cbn [goroutines snapshot].
    split; [apply length_map |]. split.
    - intros k f op Hk. rewrite list_lookup_fmap in Hk.
      destruct (fs !! k) as [[f' op'] |]; [| discriminate]. cbn in Hk. congruence.
    - symmetry. apply run_marked_none. }
  destruct (run_in_order_invariant fs d _ sched Hc _ c Hrun Hstart) as (Hlen & _ & Hsnap).
  split; [exact Hsnap |].
  intros Hdone Herrs.
  pose proof (all_exited_without_errors fs sched d c Hrun Hdone Herrs) as Hall.
  rewrite Hsnap. apply run_marked_all; [now rewrite length_map |].
  apply Forall_fmap. eapply Forall_impl; [exact Hall |].
  intros g Hg. cbn. now destruct g.
Qed.

(** What each job makes of the display: a query that is answered
    assigns its field, the weather-station job assigns its three fields,
    and a job that fails or panics assigns nothing. *)
Lemma effect_of_query (env : Env) (q : Query) (set_field : float -> Display -> Display)
    (d : Display) :
  effect (fun d => wrap "query" (queryOneInflux env q set_field d)) d
  = match influxClient env q with
    | FirstRecord (VFloat64 x) => set_field x d
    | _ => d
    end.
Proof.
  unfold effect, queryOneInflux.
  destruct (influxClient env q) as [e | cause | cause | [| x | syntax]]; reflexivity.
Qed.

Lemma effect_of_outdoor (env : Env) :
  exists (fetched : option (float * float * time.Time)),
    forall d,
      effect (fun d => fst (updateOutdoorTemperature env d)) d
      = if time.Since (clock env 0%nat) (MesonetLastData d) <? 6 * time.Minute then d
        else match fetched with
             | Some (last, mean, stamp) => set_outdoor last mean stamp d
             | None => d
             end.
Proof.
  pose (now := clock env 1%nat).
  destruct (mesonet.Do (httpClient env) (mesonetRequest now)) as [[res err] | res] eqn:Hdo.
  { exists None. intros d. unfold effect, updateOutdoorTemperature. fold now. rewrite Hdo.
    destruct (_ <? _); reflexivity. }
  pose (tair := mesonet.FloatData
                  (mesonet.lookup_var (mesonet.DataVars (mesonet.Response_ res)) "tair")).
  pose (times := mesonet.TimeData
                   (mesonet.lookup_var (mesonet.Coords (mesonet.Response_ res)) "time")).
  destruct (Z.of_nat (length tair) =? 0) eqn:Hlen.
  { exists None. intros d. unfold effect, updateOutdoorTemperature. fold now. rewrite Hdo.
    fold tair. rewrite Hlen. destruct (_ <? _); reflexivity. }
  destruct (scan_tair times 0 tair scan0) as [s | p] eqn:Hscan.
  - exists (Some (last s, (sum s / float64_of_int (n s))%float, lastUpdate s)).
    intros d. unfold effect, updateOutdoorTemperature. fold now. rewrite Hdo.
    fold tair times. rewrite Hlen, Hscan. destruct (_ <? _); reflexivity.
  - exists None. intros d. unfold effect, updateOutdoorTemperature. fold now. rewrite Hdo.
    fold tair times. rewrite Hlen, Hscan. destruct (_ <? _); reflexivity.
Qed.

(** The five jobs write fields of their own, and the only field a job
    reads, [MesonetLastData], is written by that job alone: their effects
    commute. *)
Lemma jobs_commute (env : Env) : commuting (jobs env).
Proof.
  destruct (effect_of_outdoor env) as [fetched Houtdoor].
  intros i j fi fj Hne Hi Hj d. unfold jobs in Hi, Hj.
  destruct i as [|[|[|[|[|i]]]]]; try discriminate Hi; injection Hi as <-;
    destruct j as [|[|[|[|[|j]]]]]; try discriminate Hj; injection Hj as <-;
    try congruence; cbn [fst];
    unfold updateTemperature, updateLastHourTemperature, updateRelativeHumidity,
      updateLastHourRelativeHumidity;
    rewrite ?effect_of_query, ?Houtdoor;
    repeat match goal with
           | |- context [influxClient env ?q] =>
               destruct (influxClient env q) as [? | ? | ? | [| ? | ?]]
           end;
    try reflexivity;
    cbn [MesonetLastData set_Temperature set_LastHourTemperature set_RelativeHumidity
           set_LastHourRelativeHumidity];
    destruct (_ <? _); try reflexivity;
    destruct fetched as [[[last mean] stamp] |]; reflexivity.
Qed.

(** Every job leaves the output configuration, the rendered buffer and
    the text lines alone. *)
Lemma effect_same_output (env : Env) (j : job * string) (d : Display) :
  j ∈ jobs env -> same_output d (effect (fst j) d).
Proof.
  destruct (effect_of_outdoor env) as [fetched Houtdoor].
  intros Hj. unfold jobs in Hj.
  repeat (apply elem_of_cons in Hj as [-> | Hj]); try (now inversion Hj); cbn [fst];
    unfold updateTemperature, updateLastHourTemperature, updateRelativeHumidity,
      updateLastHourRelativeHumidity;
    rewrite ?effect_of_query, ?Houtdoor;
    repeat match goal with
           | |- context [influxClient env ?q] =>
               destruct (influxClient env q) as [? | ? | ? | [| ? | ?]]
           end;
    try (repeat split; reflexivity).
  destruct (_ <? _); [repeat split; reflexivity |].
  destruct fetched as [[[last mean] stamp] |]; repeat split; reflexivity.
Qed.

Lemma run_marked_same_output (env : Env) (fs : list (job * string)) :
  (forall j, j ∈ fs -> j ∈ jobs env) ->
  forall marks d, same_output d (run_marked fs marks d).
Proof.
  induction fs as [|j fs IH]; intros Hfs marks d; [repeat split |].
  destruct marks as [|mark marks]; [repeat split |]. cbn [run_marked].
  assert (Hrest : forall j', j' ∈ fs -> j' ∈ jobs env) by (intros j' Hj'; apply Hfs; now right).
  destruct (IH Hrest marks (if mark then effect (fst j) d else d)) as (Ho & Hi & Hs).
  destruct mark; [| now repeat split].
  destruct (effect_same_output env j d (Hfs j ltac:(left))) as (Ho' & Hi' & Hs').
  repeat split; congruence.
Qed.

(** The display [update] returns is the one its jobs make one after
    another, whatever the interleaving of the goroutines and of the
    loop: when it returns nil, every job has run, and the display is
    that of the five jobs run in the order of the list; when it returns
    an error, it is that of some of the jobs run in that order. *)
Theorem update_display_is_sequential (env : Env) (sched : list event) (d d' : Display)
    (r : option error) :
  update env sched d = Some (Normal (d', r)) ->
  (exists marks, length marks = 5%nat /\ d' = run_marked (jobs env) marks d)
  /\ (r = None -> d' = run_in_order (jobs env) d).
Proof.
  unfold update, update_with. intros Hupdate.
  destruct (run_schedule _ sched _) as [[c | p] |] eqn:Hrun; try discriminate.
  destruct (received c =? _) eqn:Hdone; [| discriminate].
  apply Z.eqb_eq in Hdone. injection Hupdate as <- <-.
  destruct (run_is_in_order (jobs env) sched d c (jobs_commute env) Hrun) as [Hsnap Hseq].
  destruct (start_accounted (jobs env) d) as [Hacc0 Hlen0].
  destruct (run_accounted _ sched _ c Hrun Hacc0) as [_ Hlen].
  split.
  - exists (map has_finished (goroutines c)). split; [| exact Hsnap].
    rewrite length_map, Hlen, Hlen0. reflexivity.
  - intros Hnone. apply Hseq; [exact Hdone |].
    unfold combined in Hnone. destruct (errs c) as [|e errs]; [reflexivity |].
    cbn in Hnone. discriminate.
Qed.

Lemma update_display_is_sequential_witness :
  (exists marks, length marks = 5%nat
                 /\ mkDisplay (mkOutputConfig 64 32) 69 65 42 50 68.8 infinity
                              (time.Date 2021 9 19 2 40) None []
                    = run_marked (jobs testdata.env_up) marks (New (mkOutputConfig 64 32)))
  /\ (@None error = None ->
      mkDisplay (mkOutputConfig 64 32) 69 65 42 50 68.8 infinity
                (time.Date 2021 9 19 2 40) None []
      = run_in_order (jobs testdata.env_up) (New (mkOutputConfig 64 32))).
Proof.
  apply (update_display_is_sequential testdata.env_up testdata.all_finished).
  vm_compute. reflexivity.
Defined.

(** [update] writes measurements only: under every schedule the output
    configuration, the rendered buffer and the text lines of the display
    it returns are those of the display it was given. *)
Theorem update_keeps_the_rendering (env : Env) (sched : list event) (d d' : Display)
    (r : option error) :
  update env sched d = Some (Normal (d', r)) ->
  outputConfig d' = outputConfig d /\ image d' = image d /\ screen d' = screen d.
Proof.
  unfold update, update_with. intros Hupdate.
  destruct (run_schedule _ sched _) as [[c | p] |] eqn:Hrun; try discriminate.
  destruct (received c =? _); [| discriminate]. injection Hupdate as <- <-.
  destruct (run_is_in_order (jobs env) sched d c (jobs_commute env) Hrun) as [-> _].
  apply (run_marked_same_output env (jobs env)). auto.
Qed.

Lemma update_keeps_the_rendering_witness :
  outputConfig (mkDisplay (mkOutputConfig 2 16) 69 65 42 50 68.8 infinity
                          (time.Date 2021 9 19 2 40) (Some 1%positive) [])
  = outputConfig testdata.narrow_display
  /\ image (mkDisplay (mkOutputConfig 2 16) 69 65 42 50 68.8 infinity
                      (time.Date 2021 9 19 2 40) (Some 1%positive) [])
     = image testdata.narrow_display
  /\ screen (mkDisplay (mkOutputConfig 2 16) 69 65 42 50 68.8 infinity
                       (time.Date 2021 9 19 2 40) (Some 1%positive) [])
     = screen testdata.narrow_display.
Proof.
  apply (update_keeps_the_rendering testdata.env_up testdata.all_finished
           testdata.narrow_display _ None).
  vm_compute. reflexivity.
Defined.

(** ** The time stamp of the weather-station data *)

Lemma scan_tair_stamp (times : list time.Time) (tair : list float) :
  forall (i : Z) (s : scan),
    0 <= i ->
    i + Z.of_nat (length tair) <= Z.of_nat (length times) ->
    exists s',
      scan_tair times i tair s = Normal s'
      /\ last s' = default (last s) (last_nonzero tair)
      /\ lastUpdate s'
         = default (lastUpdate s) (list.last (map snd
             (filter (fun sample : float * time.Time =>
                        float_nonzero (fst sample) = true
                        /\ time.IsZero (snd sample) = false)
                     (zip tair (drop (Z.to_nat i) times))))).
Proof.
  induction tair as [|t rest IH]; intros i s Hi Hlen.
  - exists s. repeat split; reflexivity.
  - cbn [length] in Hlen.
    assert (Hlt : (Z.to_nat i < length times)%nat) by lia.
    destruct (lookup_lt_is_Some_2 times _ Hlt) as [u Hu].
    rewrite (drop_S _ _ _ Hu). cbn [zip zip_with scan_tair].
    replace (S (Z.to_nat i)) with (Z.to_nat (i + 1)) by lia.
    unfold last_nonzero in *.
    destruct (float_nonzero t) eqn:Ht.
    + assert (Hindex : index times i = Normal u).
      { unfold index.
        rewrite (proj2 (Z.ltb_ge i 0)), (proj2 (Z.leb_gt _ i)) by lia. cbn [orb].
        now rewrite Hu. }
      rewrite Hindex. cbn [mbind outcome_bind].
      rewrite (filter_cons_True (fun t => float_nonzero t = true)) by exact Ht.
      edestruct (IH (i + 1)
                    (mkScan (n s) (sum s + t)%float t
                            (if negb (time.IsZero u) then u else lastUpdate s)))
        as (s' & Hrun & Hlast & Hstamp); [lia | lia |].
      exists s'. split; [exact Hrun |]. split.
      * rewrite Hlast. cbn [last]. rewrite last_cons.
        now destruct (list.last (filter _ rest)).
      * rewrite Hstamp. cbn [lastUpdate].
        destruct (time.IsZero u) eqn:Hzero; cbn [negb].
        -- rewrite filter_cons_False by (cbn [fst snd]; rewrite Hzero; intros [_ H]; discriminate).
           reflexivity.
        -- rewrite filter_cons_True by (cbn [fst snd]; auto).
           cbn [map snd]. rewrite last_cons.
           destruct (list.last (map snd _)); reflexivity.
    + rewrite (filter_cons_False (fun t => float_nonzero t = true))
        by (rewrite Ht; discriminate).
      rewrite filter_cons_False by (cbn [fst snd]; rewrite Ht; intros [H _]; discriminate).
      apply IH; lia.
Qed.

Lemma updateOutdoorTemperature_stamp_of (env : Env) (d : Display) (res : mesonet.Result) :
  let tair := mesonet.FloatData
                (mesonet.lookup_var (mesonet.DataVars (mesonet.Response_ res)) "tair") in
  let times := mesonet.TimeData
                 (mesonet.lookup_var (mesonet.Coords (mesonet.Response_ res)) "time") in
  6 * time.Minute <= time.Since (clock env 0%nat) (MesonetLastData d) ->
  mesonet.Do (httpClient env) (mesonetRequest (clock env 1%nat)) = inr res ->
  (0 < length tair <= length times)%nat ->
  exists mean,
    fst (updateOutdoorTemperature env d)
    = Normal (set_outdoor (default 0%float (last_nonzero tair)) mean (last_stamp tair times) d,
              None).
Proof.
  intros tair times Hold Hdo Hcover.
  unfold updateOutdoorTemperature.
  rewrite (proj2 (Z.ltb_ge _ _) Hold), Hdo. fold tair times.
  rewrite (proj2 (Z.eqb_neq (Z.of_nat (length tair)) 0)) by lia.
  destruct (scan_tair_stamp times tair 0 scan0) as (s & Hrun & Hlast & Hstamp); [lia | lia |].
  cbn [fst]. rewrite Hrun. cbn [mbind outcome_bind].
  exists (sum s / float64_of_int (n s))%float.
  rewrite Hlast, Hstamp. reflexivity.
Qed.

(** The fields a fetch writes, for a series the time coordinate covers:
    the last entry that is not zero, or 0 when every entry is zero, and
    the stamp of the last entry that is not zero and has a stamp, or the
    zero time when there is none. A series of zeros thus takes the
    display back to a temperature of 0 and to the zero time. *)
Theorem updateOutdoorTemperature_stamp (env : Env) (d : Display) (res : mesonet.Result) :
  let tair := mesonet.FloatData
                (mesonet.lookup_var (mesonet.DataVars (mesonet.Response_ res)) "tair") in
  let times := mesonet.TimeData
                 (mesonet.lookup_var (mesonet.Coords (mesonet.Response_ res)) "time") in
  6 * time.Minute <= time.Since (clock env 0%nat) (MesonetLastData d) ->
  mesonet.Do (httpClient env) (mesonetRequest (clock env 1%nat)) = inr res ->
  (0 < length tair <= length times)%nat ->
  exists mean,
    fst (updateOutdoorTemperature env d)
    = Normal (set_outdoor (default 0%float (last_nonzero tair)) mean (last_stamp tair times) d,
              None).
Proof. exact (updateOutdoorTemperature_stamp_of env d res). Qed.

Lemma updateOutdoorTemperature_stamp_witness :
  exists mean,
    fst (updateOutdoorTemperature testdata.env testdata.display)
    = Normal (set_outdoor 68.8 mean (time.Date 2021 9 19 2 40) testdata.display, None).
Proof.
  apply (updateOutdoorTemperature_stamp testdata.env testdata.display testdata.brooklyn).
  - vm_compute. discriminate.
  - reflexivity.
  - vm_compute. lia.
Defined.

(** The rate limit counts from the stamp of the data, not from the
    moment of the fetch. After a fetch as above, a call that starts less
    than six minutes after the stamp the fetch kept sends nothing and
    leaves the display; a call that starts later, and any call after a
    fetch that kept no stamp, sends a request again. *)
Theorem updateOutdoorTemperature_next_call (env next : Env) (d d' : Display)
    (res : mesonet.Result) :
  let tair := mesonet.FloatData
                (mesonet.lookup_var (mesonet.DataVars (mesonet.Response_ res)) "tair") in
  let times := mesonet.TimeData
                 (mesonet.lookup_var (mesonet.Coords (mesonet.Response_ res)) "time") in
  6 * time.Minute <= time.Since (clock env 0%nat) (MesonetLastData d) ->
  mesonet.Do (httpClient env) (mesonetRequest (clock env 1%nat)) = inr res ->
  (0 < length tair <= length times)%nat ->
  fst (updateOutdoorTemperature env d) = Normal (d', None) ->
  if time.Since (clock next 0%nat) (last_stamp tair times) <? 6 * time.Minute
  then updateOutdoorTemperature next d' = (Normal (d', None), [])
  else snd (updateOutdoorTemperature next d') = [mesonetRequest (clock next 1%nat)].
Proof.
  intros tair times Hold Hdo Hcover Hfetch.
  destruct (updateOutdoorTemperature_stamp_of env d res Hold Hdo Hcover) as [mean Hd'].
  fold tair times in Hd'. rewrite Hd' in Hfetch. injection Hfetch as <-.
  unfold updateOutdoorTemperature at 1 2. cbn [MesonetLastData set_outdoor].
  destruct (time.Since (clock next 0%nat) (last_stamp tair times) <? 6 * time.Minute);
    [reflexivity |].
  destruct (mesonet.Do (httpClient next) _) as [[res' err] | res']; [reflexivity |].
  destruct (Z.of_nat (length _) =? 0); reflexivity.
Qed.

Lemma updateOutdoorTemperature_next_call_witness :
  updateOutdoorTemperature testdata.env
    (set_outdoor 68.8 infinity (time.Date 2021 9 19 2 40) testdata.display)
  = (Normal (set_outdoor 68.8 infinity (time.Date 2021 9 19 2 40) testdata.display, None), []).
Proof.
  apply (updateOutdoorTemperature_next_call testdata.env testdata.env testdata.display
           (set_outdoor 68.8 infinity (time.Date 2021 9 19 2 40) testdata.display)
           testdata.brooklyn).
  - vm_compute. discriminate.
  - reflexivity.
  - vm_compute. lia.
  - reflexivity.
Defined.

(** ** The request to the weather station *)

(** [Do] returns a nil error exactly when the station answers with
    status 200, the body decodes, and the decoded result is marked as a
    success; the result it returns then is the decoded one. Next to an
    error it returns a result only for a result that is not marked as a
    success. *)
Theorem Do_succeeds_iff (client : mesonet.Client) (req : mesonet.Request) :
  (forall res,
     mesonet.Do client req = inr res
     <-> exists status rbody,
           mesonet.roundTrip client req = mesonet.HTTPResponse 200 status rbody
           /\ mesonet.decode client rbody = inr res
           /\ mesonet.Success res = true)
  /\ (forall res err,
        mesonet.Do client req = inl (Some res, err)
        <-> err = "request marked as unsuccessful by server"%string
            /\ mesonet.Success res = false
            /\ exists status rbody,
                 mesonet.roundTrip client req = mesonet.HTTPResponse 200 status rbody
                 /\ mesonet.decode client rbody = inr res).
Proof.
  unfold mesonet.Do, mesonet.StatusOK.
  destruct (mesonet.roundTrip client req) as [e | e | code status rbody].
  - split; [intros res | intros res err]; split; try discriminate.
    + intros (? & ? & ? & _); discriminate.
    + intros (_ & _ & ? & ? & ? & _); discriminate.
  - split; [intros res | intros res err]; split; try discriminate.
    + intros (? & ? & ? & _); discriminate.
    + intros (_ & _ & ? & ? & ? & _); discriminate.
  - destruct (Z.eqb_spec code 200) as [-> | Hcode]; cbn [negb].
    + destruct (mesonet.decode client rbody) as [e | result] eqn:Hdecode.
      * split; [intros res | intros res err]; split; try discriminate.
        -- intros (? & ? & Hrt & Hd & _). injection Hrt as _ <-. rewrite Hdecode in Hd; first [discriminate Hd | injection Hd as <-; first [reflexivity | congruence]].
        -- intros (_ & _ & ? & ? & Hrt & Hd). injection Hrt as _ <-. rewrite Hdecode in Hd; first [discriminate Hd | injection Hd as <-; first [reflexivity | congruence]].
      * destruct (mesonet.Success result) eqn:Hsuccess; cbn [negb].
        -- split; [intros res | intros res err]; split; try discriminate.
           ++ intros [= <-]. eauto.
           ++ intros (? & ? & Hrt & Hd & _). injection Hrt as _ <-. rewrite Hdecode in Hd; first [discriminate Hd | injection Hd as <-; first [reflexivity | congruence]].
           ++ intros (_ & Hs & ? & ? & Hrt & Hd). injection Hrt as _ <-. rewrite Hdecode in Hd; first [discriminate Hd | injection Hd as <-; first [reflexivity | congruence]].
        -- split; [intros res | intros res err]; split; try discriminate.
           ++ intros (? & ? & Hrt & Hd & Hs). injection Hrt as _ <-. rewrite Hdecode in Hd; first [discriminate Hd | injection Hd as <-; first [reflexivity | congruence]].
           ++ intros [= <- <-]. eauto 6.
           ++ intros (-> & Hs & ? & ? & Hrt & Hd). injection Hrt as _ <-. rewrite Hdecode in Hd; first [discriminate Hd | injection Hd as <-; first [reflexivity | congruence]].
    + split; [intros res | intros res err]; split; try discriminate.
      * intros (? & ? & Hrt & _). congruence.
      * intros (_ & _ & ? & ? & Hrt & _). congruence.
Qed.

(** ** What the decoder writes *)

Lemma parse_times_appends (data : list mesonet.json) :
  forall acc, exists ts, fst (mesonet.parse_times data acc) = acc ++ ts.
Proof.
  induction data as [|j data IH]; intros acc; cbn [mesonet.parse_times].
  - exists []. now rewrite app_nil_r.
  - destruct j as [| b | x | s | elems | fields];
      try (exists []; now rewrite app_nil_r).
    destruct (time.Parse s) as [t |]; [| exists []; now rewrite app_nil_r].
    destruct (IH (acc ++ [t])) as [ts Hts]. exists (t :: ts).
    rewrite Hts, <- app_assoc. reflexivity.
Qed.

(** The strings before the first entry that is not a time are parsed
    and kept; the entries after it are not looked at. *)
Lemma parse_times_stops (ss : list string) (ts : list time.Time) (bad : mesonet.json)
    (more : list mesonet.json) :
  Forall2 (fun s t => time.Parse s = Some t) ss ts ->
  (forall s, bad = mesonet.JString s -> time.Parse s = None) ->
  forall acc, exists err,
    mesonet.parse_times (map mesonet.JString ss ++ bad :: more) acc = (acc ++ ts, Some err).
Proof.
  intros Hss Hbad. induction Hss as [|s t ss ts Hs _ IH]; intros acc.
  - cbn [map app mesonet.parse_times]. rewrite app_nil_r.
    destruct bad as [| b | x | s | elems | fields]; try (eexists; reflexivity).
    rewrite (Hbad s eq_refl). eexists; reflexivity.
  - cbn [map app mesonet.parse_times]. rewrite Hs.
    destruct (IH (acc ++ [t])) as [err Herr]. exists err.
    rewrite Herr, <- app_assoc. reflexivity.
Qed.

(** Whatever the text, a call of [UnmarshalJSON] that returns never
    removes anything from the receiver: the string series is left alone,
    the float series and the time series keep what they held, and at
    most one of them gets new entries, the float series only when nil is
    returned. When the text decodes as a raw variable, the raw data, the
    attributes and the dimensions are replaced, also when an error is
    returned after that; when it does not, the receiver is untouched. *)
Theorem UnmarshalJSON_only_appends (v v' : mesonet.DataVar)
    (decoded : error + mesonet.RawDataVar) (r : option error) :
  mesonet.UnmarshalJSON v decoded = Normal (v', r) ->
  mesonet.StringData v' = mesonet.StringData v
  /\ (exists xs ts,
        mesonet.FloatData v' = mesonet.FloatData v ++ xs
        /\ mesonet.TimeData v' = mesonet.TimeData v ++ ts
        /\ (xs = [] \/ ts = [])
        /\ (is_Some r -> xs = []))
  /\ match decoded with
     | inr raw =>
         mesonet.RawData v' = mesonet.Data raw
         /\ mesonet.Attrs v' = mesonet.raw_Attrs raw
         /\ mesonet.Dimensions v' = mesonet.raw_Dimensions raw
     | inl err => v' = v /\ r = Some ("unmarshal raw datavar: " +:+ err)
     end.
Proof.
  unfold mesonet.UnmarshalJSON. intros Hrun.
  assert (Hnone : forall (xs : list float) (ts : list time.Time), xs = [] -> ts = [] ->
             mesonet.FloatData v = mesonet.FloatData v ++ xs
             /\ mesonet.TimeData v = mesonet.TimeData v ++ ts
             /\ (xs = [] \/ ts = []) /\ (is_Some r -> xs = [])).
  { intros xs ts -> ->. rewrite !app_nil_r. auto. }
  destruct decoded as [err | raw].
  { injection Hrun as <- <-. split; [reflexivity |]. split; [| auto].
    exists [], []. now apply Hnone. }
  destruct (mesonet.Data raw) as [|first more] eqn:Hdata.
  { injection Hrun as <- <-. cbn. split; [reflexivity |]. split; [| auto].
    exists [], []. now apply Hnone. }
  cbn [mesonet.Attrs mesonet.FloatData mesonet.StringData mesonet.TimeData
       mesonet.RawData mesonet.Dimensions] in Hrun.
  destruct (String.eqb _ _).
  { destruct (parse_times_appends (first :: more) (mesonet.TimeData v)) as [ts Hts].
    destruct (mesonet.parse_times (first :: more) (mesonet.TimeData v)) as [times err].
    cbn [fst] in Hts. injection Hrun as <- <-. cbn. split; [reflexivity |]. split; [| auto].
    exists [], ts. rewrite app_nil_r. auto. }
  assert (Hraw : Normal (mesonet.mkDataVar (mesonet.FloatData v) (mesonet.StringData v)
                           (mesonet.TimeData v) (first :: more) (mesonet.raw_Attrs raw)
                           (mesonet.raw_Dimensions raw), @None error) = Normal (v', r) ->
                 mesonet.StringData v' = mesonet.StringData v
                 /\ (exists xs ts,
                       mesonet.FloatData v' = mesonet.FloatData v ++ xs
                       /\ mesonet.TimeData v' = mesonet.TimeData v ++ ts
                       /\ (xs = [] \/ ts = [])
                       /\ (is_Some r -> xs = []))
                 /\ mesonet.RawData v' = first :: more
                    /\ mesonet.Attrs v' = mesonet.raw_Attrs raw
                    /\ mesonet.Dimensions v' = mesonet.raw_Dimensions raw).
  { intros [= <- <-]. cbn. split; [reflexivity |]. split; [| auto].
    exists [], []. now apply Hnone. }
  destruct first as [| b | x | s | elems | fields]; try (now apply Hraw).
  destruct (index elems 0) as [first0 | p]; [| discriminate].
  cbn [mbind outcome_bind] in Hrun.
  destruct first0 as [| b | x | s | elems0 | fields]; try (now apply Hraw).
  clear Hraw Hnone. injection Hrun as <- <-.
  cbn [mesonet.Attrs mesonet.FloatData mesonet.StringData mesonet.TimeData
       mesonet.RawData mesonet.Dimensions].
  split; [reflexivity |]. split; [| auto].
  exists (map (mesonet.scale_or_zero (mesonet.ScaleFactor (mesonet.raw_Attrs raw))) elems), [].
  rewrite app_nil_r. split; [reflexivity |]. split; [reflexivity |].
  split; [now right |]. intros [e He]. discriminate.
Qed.

Lemma UnmarshalJSON_only_appends_witness :
  mesonet.StringData (testdata.decoded_var testdata.raw_tair)
  = mesonet.StringData mesonet.zeroDataVar
  /\ (exists xs ts,
        mesonet.FloatData (testdata.decoded_var testdata.raw_tair)
        = mesonet.FloatData mesonet.zeroDataVar ++ xs
        /\ mesonet.TimeData (testdata.decoded_var testdata.raw_tair)
           = mesonet.TimeData mesonet.zeroDataVar ++ ts
        /\ (xs = [] \/ ts = [])
        /\ (is_Some (@None error) -> xs = []))
  /\ (mesonet.RawData (testdata.decoded_var testdata.raw_tair)
      = mesonet.Data testdata.raw_tair
      /\ mesonet.Attrs (testdata.decoded_var testdata.raw_tair)
         = mesonet.raw_Attrs testdata.raw_tair
      /\ mesonet.Dimensions (testdata.decoded_var testdata.raw_tair)
         = mesonet.raw_Dimensions testdata.raw_tair).
Proof.
  apply (UnmarshalJSON_only_appends mesonet.zeroDataVar
           (testdata.decoded_var testdata.raw_tair) (inr testdata.raw_tair) None).
  reflexivity.
Defined.

(** A time coordinate with an entry that is not a time: the decoder
    returns an error, and the receiver holds the times of the strings
    before that entry, after those it held. *)
Theorem UnmarshalJSON_keeps_times_before_bad_entry (v : mesonet.DataVar)
    (raw : mesonet.RawDataVar) (ss : list string) (ts : list time.Time)
    (bad : mesonet.json) (more : list mesonet.json) :
  mesonet.LongName (mesonet.raw_Attrs raw) = "time"%string ->
  mesonet.Data raw = map mesonet.JString ss ++ bad :: more ->
  Forall2 (fun s t => time.Parse s = Some t) ss ts ->
  (forall s, bad = mesonet.JString s -> time.Parse s = None) ->
  exists err,
    mesonet.UnmarshalJSON v (inr raw) = Normal (with_times ts (raw_only v raw), Some err).
Proof.
  intros Hname Hdata Hss Hbad. unfold mesonet.UnmarshalJSON.
  cbn [mesonet.Attrs mesonet.FloatData mesonet.StringData mesonet.TimeData
       mesonet.RawData mesonet.Dimensions].
  rewrite Hname. cbn [String.eqb Ascii.eqb Bool.eqb].
  destruct (parse_times_stops ss ts bad more Hss Hbad (mesonet.TimeData v)) as [err Herr].
  destruct (mesonet.Data raw) as [|first rest] eqn:Hraw.
  { destruct ss; discriminate. }
  rewrite Hdata, Herr. exists err. unfold with_times, raw_only. rewrite Hraw, Hdata.
  reflexivity.
Qed.

Lemma UnmarshalJSON_keeps_times_before_bad_entry_witness :
  exists err,
    mesonet.UnmarshalJSON mesonet.zeroDataVar (inr testdata.raw_time_bad)
    = Normal (with_times [time.Date 2021 9 19 2 30; time.Date 2021 9 19 2 35]
                         (raw_only mesonet.zeroDataVar testdata.raw_time_bad), Some err).
Proof.
  apply (UnmarshalJSON_keeps_times_before_bad_entry mesonet.zeroDataVar testdata.raw_time_bad
           ["20210919T0230"; "20210919T0235"]%string
           [time.Date 2021 9 19 2 30; time.Date 2021 9 19 2 35]
           (mesonet.JString "2021-09-19") [mesonet.JString "20210919T0245"]).
  - reflexivity.
  - reflexivity.
  - repeat constructor.
  - intros s [= <-]. reflexivity.
Defined.

(** ** From the decoded response to the display *)

(** The decoder and the job together. The variable [tair] is a nested
    array that starts with a number, the time coordinate is a list of
    time strings at least as long: the job returns nil, the outdoor
    temperature is the last element of the array that is a number other
    than zero, scaled, and the stamp is the time at its place. An
    element that is not a number (a null sample) decodes to 0 and is
    passed over like a reading of zero. *)
Theorem decoded_response_feeds_the_job (env : Env) (d : Display) (res : mesonet.Result)
    (rtair rtime : mesonet.RawDataVar) (x : float) (rest more : list mesonet.json)
    (ss : list string) (ts : list time.Time) :
  let series := map (mesonet.scale_or_zero (mesonet.ScaleFactor (mesonet.raw_Attrs rtair)))
                    (mesonet.JNumber x :: rest) in
  mesonet.LongName (mesonet.raw_Attrs rtair) <> "time"%string ->
  mesonet.Data rtair = mesonet.JArray (mesonet.JNumber x :: rest) :: more ->
  mesonet.LongName (mesonet.raw_Attrs rtime) = "time"%string ->
  mesonet.Data rtime = map mesonet.JString ss ->
  Forall2 (fun s t => time.Parse s = Some t) ss ts ->
  (length rest < length ss)%nat ->
  mesonet.UnmarshalJSON mesonet.zeroDataVar (inr rtair)
  = Normal (mesonet.lookup_var (mesonet.DataVars (mesonet.Response_ res)) "tair", None) ->
  mesonet.UnmarshalJSON mesonet.zeroDataVar (inr rtime)
  = Normal (mesonet.lookup_var (mesonet.Coords (mesonet.Response_ res)) "time", None) ->
  6 * time.Minute <= time.Since (clock env 0%nat) (MesonetLastData d) ->
  mesonet.Do (httpClient env) (mesonetRequest (clock env 1%nat)) = inr res ->
  exists mean,
    fst (updateOutdoorTemperature env d)
    = Normal (set_outdoor (default 0%float (last_nonzero series)) mean
                          (last_stamp series ts) d, None).
Proof.
  intros series Hname Hdata Htime Hstrings Hparse Hlen Htair Htimes Hold Hdo.
  rewrite (UnmarshalJSON_float_series _ _ x rest more Hname Hdata) in Htair.
  injection Htair as Htair.
  assert (Hts : mesonet.TimeData
                  (mesonet.lookup_var (mesonet.Coords (mesonet.Response_ res)) "time") = ts).
  { destruct ss as [|s ss]; [cbn in Hlen; lia |].
    unfold mesonet.UnmarshalJSON in Htimes.
    cbn [mesonet.Attrs mesonet.FloatData mesonet.StringData mesonet.TimeData
         mesonet.RawData mesonet.Dimensions] in Htimes.
    rewrite Htime, Hstrings in Htimes. cbn [map String.eqb Ascii.eqb Bool.eqb] in Htimes.
    change (mesonet.JString s :: map mesonet.JString ss)
      with (map mesonet.JString (s :: ss)) in Htimes.
    rewrite (parse_times_all _ _ Hparse) in Htimes.
    injection Htimes as Htimes. rewrite <- Htimes. reflexivity. }
  assert (Hfloats : mesonet.FloatData
                      (mesonet.lookup_var (mesonet.DataVars (mesonet.Response_ res)) "tair")
                    = series).
  { rewrite <- Htair. reflexivity. }
  destruct (updateOutdoorTemperature_stamp_of env d res Hold Hdo) as [mean Hrun].
  { rewrite Hfloats, Hts. unfold series. cbn [map length].
    rewrite length_map. apply Forall2_length in Hparse. lia. }
  exists mean. rewrite Hrun, Hfloats, Hts. reflexivity.
Qed.

Lemma decoded_response_feeds_the_job_witness :
  exists mean,
    fst (updateOutdoorTemperature testdata.env_decoded testdata.display)
    = Normal (set_outdoor 68.8 mean (time.Date 2021 9 19 2 40) testdata.display, None).
Proof.
  apply (decoded_response_feeds_the_job testdata.env_decoded testdata.display
           testdata.brooklyn_decoded testdata.raw_tair testdata.raw_time
           78.4%float [mesonet.JNull; mesonet.JNumber 68.8] []
           ["20210919T0230"; "20210919T0235"; "20210919T0240"]%string testdata.times).
  - discriminate.
  - reflexivity.
  - reflexivity.
  - reflexivity.
  - repeat constructor.
  - cbn. lia.
  - reflexivity.
  - reflexivity.
  - vm_compute. discriminate.
  - reflexivity.
Defined.

(** ** The text encoding of the picture *)

(** A request for a path that ends in [.txt], once a picture has been
    rendered: the answer has status 200, the content type [text/plain],
    and one line [x y] for every pixel of the picture with some red,
    green or blue in it, column after column and from the top down in
    each column; nothing else is written. *)
Theorem ServeImage_txt (env : Env) (d : Display) (h : store) (img : loc)
    (urlPath : string) :
  path.Ext urlPath = ".txt"%string ->
  image d = Some img ->
  ServeImage env d h urlPath
  = mkHTTPResponse 200 [("content-type", "text/plain")]%string
      (text_of (map txt_line (coloured_pixels (deref h img)))).
Proof.
  intros Hext Himg. unfold ServeImage, choose_encoder.
  rewrite Hext, Himg. cbn [String.eqb Ascii.eqb Bool.eqb].
  rewrite txt_Encode_lines. reflexivity.
Qed.

Lemma ServeImage_txt_witness :
  ServeImage testdata.env testdata.dot_display testdata.dot_store "/index.txt"
  = mkHTTPResponse 200 [("content-type", "text/plain")]%string
      (text_of (map txt_line (coloured_pixels (deref testdata.dot_store 1%positive)))).
Proof.
  apply (ServeImage_txt testdata.env testdata.dot_display testdata.dot_store 1%positive).
  - reflexivity.
  - reflexivity.
Defined.

(** ** What a render draws *)

Lemma index_lookup {A} (s : list A) (i : Z) (a : A) :
  index s i = Normal a -> s !! Z.to_nat i = Some a.
Proof.
  unfold index. destruct ((i <? 0) || (Z.of_nat (length s) <=? i)); [discriminate |].
  destruct (s !! Z.to_nat i); [| discriminate]. now intros [= ->].
Qed.

(** The lines slice once [render] has made it and written its first two
    slots. *)
Lemma lines_of_render (height : Z) (l0 l1 : list byte) (lines0 lines1 lines : list (list byte)) :
  make_lines (height / 8) = Normal lines0 ->
  assign_index lines0 0 l0 = Normal lines1 ->
  assign_index lines1 1 l1 = Normal lines ->
  lines = l0 :: l1 :: replicate (Z.to_nat (height / 8) - 2) [].
Proof.
  unfold make_lines, assign_index.
  destruct (height / 8 <? 0); [discriminate |]. intros [= <-].
  rewrite length_replicate.
  destruct (Z.leb_spec (Z.of_nat (Z.to_nat (height / 8))) 0) as [| Hlen0];
    cbn [Z.ltb Z.compare orb]; [discriminate |].
  intros [= <-]. rewrite length_insert, length_replicate.
  destruct (Z.leb_spec (Z.of_nat (Z.to_nat (height / 8))) 1) as [| Hlen1];
    cbn [Z.ltb Z.compare orb]; [discriminate |].
  intros [= <-].
  destruct (Z.to_nat (height / 8)) as [|[|n]]; [lia | lia |].
  cbn. now rewrite Nat.sub_0_r.
Qed.

(** The loop over the bands, when no line fails to draw, leaves in the
    buffer what the font makes of it line after line. *)
Lemma draw_lines_draws (env : Env) (img : loc) (lines : list (list byte)) (todo : list Z)
    (h0 : store) :
  forall (b : image.RGBA) (h' : store),
    draw_lines env img lines todo (<[img := b]> h0) = Normal (h', None) ->
    h' = <[img := draw_bands env lines todo b]> h0.
Proof.
  induction todo as [|i rest IH]; intros b h' Hrun.
  - now injection Hrun as <-.
  - cbn [draw_lines] in Hrun.
    destruct (index lines (Z.quot i 8)) as [text | p] eqn:Htext; [| discriminate].
    apply index_lookup in Htext.
    cbn [mbind outcome_bind] in Hrun.
    unfold draw_bands. cbn [foldl]. rewrite Htext. cbn [default from_option id].
    unfold deref in Hrun. rewrite lookup_insert_eq in Hrun. cbn [default from_option id] in Hrun.
    destruct (sf_Draw env b text 0 i) as [drawn [e |]]; [discriminate |].
    rewrite insert_insert_eq in Hrun. apply IH in Hrun. exact Hrun.
Qed.

(** The two loops of [render] over the rows and the columns paint every
    pixel of the buffer black. *)
Lemma fill_black (p : image.RGBA) :
  well_formed p ->
  let filled :=
    for_range (image.Y (image.Min (image.Bounds p))) (image.Y (image.Max (image.Bounds p)))
      (fun y => for_range (image.X (image.Min (image.Bounds p)))
                          (image.X (image.Max (image.Bounds p)))
                  (fun x b => image.Set_ b x y black)) p in
  image.Bounds filled = image.Bounds p
  /\ forall x y, image.In x y (image.Bounds p) = true -> image.At filled x y = black.
Proof.
  intros Hwf filled.
  set (x0 := image.X (image.Min (image.Bounds p))) in *.
  set (x1 := image.X (image.Max (image.Bounds p))) in *.
  set (y0 := image.Y (image.Min (image.Bounds p))) in *.
  set (y1 := image.Y (image.Max (image.Bounds p))) in *.
  assert (Hpaints :
            paints (for_range y0 y1 (fun y => for_range x0 x1 (fun x b => image.Set_ b x y black)))
                   (fun x y =>
                      overlay (fun ky =>
                        overlay (fun kx => if (x =? kx) && (y =? ky) then Some black else None)
                                (seqZ x0 (x1 - x0)) None)
                        (seqZ y0 (y1 - y0)) None)).
  { apply (paints_for_range y0 y1
             (fun y => for_range x0 x1 (fun x b => image.Set_ b x y black))
             (fun ky x y =>
                overlay (fun kx => if (x =? kx) && (y =? ky) then Some black else None)
                        (seqZ x0 (x1 - x0)) None)).
    intros ky _.
    apply (paints_for_range x0 x1 (fun x b => image.Set_ b x ky black)
             (fun kx x y => if (x =? kx) && (y =? ky) then Some black else None)).
    intros kx _. apply paints_Set. }
  destruct (Hpaints p Hwf) as (_ & Hbounds & Hat).
  split; [exact Hbounds |].
  intros x y Hin. unfold filled. rewrite (Hat x y Hin).
  apply In_bounds in Hin. fold x0 x1 y0 y1 in Hin.
  rewrite (overlay_range_unique _ y0 y1 y) by
    (try lia; intros ky Hky Hne; apply overlay_range_none; intros kx Hkx;
     rewrite (proj2 (Z.eqb_neq y ky)) by congruence; now rewrite andb_false_r).
  rewrite (overlay_range_unique _ x0 x1 x) by
    (try lia; intros kx Hkx Hne; now rewrite (proj2 (Z.eqb_neq x kx)) by congruence).
  now rewrite !Z.eqb_refl.
Qed.

Lemma Rect_nonneg (x0 y0 x1 y1 : Z) :
  0 <= image.Dx (image.Rect x0 y0 x1 y1) /\ 0 <= image.Dy (image.Rect x0 y0 x1 y1).
Proof.
  unfold image.Rect, image.Dx, image.Dy.
  destruct (Z.ltb_spec x1 x0), (Z.ltb_spec y1 y0); cbn; lia.
Qed.

Lemma render_result (env : Env) (h h' : store) (d d' : Display) (err : option error) :
  render env h d = Normal (h', d', err) ->
  16 <= Height (outputConfig d)
  /\ screen d' = screen_of d
  /\ (exists b, h' = <[fresh (dom h) := b]> h)
  /\ image d' = match err with None => Some (fresh (dom h)) | Some _ => image d end
  /\ (err = None ->
      exists bg,
        image.Bounds bg = image.Rect 0 0 (Width (outputConfig d)) (Height (outputConfig d))
        /\ (forall x y, image.In x y (image.Bounds bg) = true -> image.At bg x y = black)
        /\ h' = <[fresh (dom h) := draw_bands env (screen_of d) (bands (Height (outputConfig d))) bg]> h
        /\ d' = set_image (Some (fresh (dom h))) (set_screen (screen_of d) d)).
Proof.
  unfold render. intros Hrender.
  destruct (make_lines _) as [lines0 | p] eqn:Hmake; [| discriminate].
  cbn [mbind outcome_bind] in Hrender.
  destruct (assign_index lines0 0 _) as [lines1 | p] eqn:Hline0; [| discriminate].
  cbn [mbind outcome_bind] in Hrender.
  destruct (assign_index lines1 1 _) as [lines | p] eqn:Hline1; [| discriminate].
  cbn [mbind outcome_bind] in Hrender.
  assert (H16 : 16 <= Height (outputConfig d)).
  { revert Hmake Hline0 Hline1. unfold make_lines, assign_index.
    destruct (_ <? 0); [discriminate |]. intros [= <-].
    rewrite length_replicate.
    destruct (Z.leb_spec (Z.of_nat (Z.to_nat (Height (outputConfig d) / 8))) 0);
      cbn [Z.ltb Z.compare orb]; [discriminate |].
    intros [= <-]. rewrite length_insert, length_replicate.
    destruct (Z.leb_spec (Z.of_nat (Z.to_nat (Height (outputConfig d) / 8))) 1);
      cbn [Z.ltb Z.compare orb]; [discriminate |].
    intros _. zdiv. }
  pose proof (lines_of_render _ _ _ _ _ _ Hmake Hline0 Hline1) as Hlines.
  fold (screen_of d) in Hlines. subst lines.
  unfold alloc in Hrender.
  set (img := fresh (dom h)) in *.
  set (bounds := image.Rect 0 0 _ _) in *.
  rewrite (for_range_through_pointer img h _ _ _
             (fun y => for_range (image.X (image.Min bounds)) (image.X (image.Max bounds))
                         (fun x b => image.Set_ b x y black))) in Hrender.
  2: { intros y b. apply for_range_through_pointer. intros x b'. apply store_Set_insert. }
  destruct (draw_lines _ _ _ _ _) as [[h1 err1] | p] eqn:Hdraw; [| discriminate].
  cbn [mbind outcome_bind] in Hrender.
  split; [exact H16 |].
  destruct (draw_lines_through_pointer _ _ _ _ _ _ _ _ Hdraw) as [b' Hb'].
  destruct err1 as [e |]; injection Hrender as <- <- <-.
  { split; [reflexivity |]. split; [now exists b' |]. split; [reflexivity | discriminate]. }
  split; [reflexivity |]. split; [now exists b' |]. split; [reflexivity |]. intros _.
  apply draw_lines_draws in Hdraw.
  pose proof (fill_black (image.NewRGBA bounds)
                (NewRGBA_well_formed bounds (proj1 (Rect_nonneg _ _ _ _))
                                     (proj2 (Rect_nonneg _ _ _ _)))) as Hfill.
  cbv zeta in Hfill. destruct Hfill as [Hbounds Hat].
  eexists. split; [exact Hbounds |].
  split; [intros x y Hin; apply Hat; rewrite Hbounds in Hin; exact Hin |].
  split; [exact Hdraw | reflexivity].
Qed.

(** The picture of a render that returns nil: a buffer with the bounds
    of the display, every pixel black, on which the font has drawn the
    lines of the screen from the top down, line [i / 8] at the row [i]
    for [i = 0, 8, ...]; it is the fresh buffer the display points to
    afterwards. The lines are the two texts, then empty lines. *)
Theorem render_draws_lines_on_black (env : Env) (h h' : store) (d d' : Display) :
  render env h d = Normal (h', d', None) ->
  exists bg,
    image.Bounds bg = image.Rect 0 0 (Width (outputConfig d)) (Height (outputConfig d))
    /\ (forall x y, image.In x y (image.Bounds bg) = true -> image.At bg x y = black)
    /\ h' = <[fresh (dom h) :=
               draw_bands env (screen_of d) (bands (Height (outputConfig d))) bg]> h
    /\ d' = set_image (Some (fresh (dom h))) (set_screen (screen_of d) d).
Proof.
  intros Hrender. now apply (render_result env h h' d d' None Hrender).
Qed.

Lemma render_draws_lines_on_black_witness :
  exists bg,
    image.Bounds bg = image.Rect 0 0 2 16
    /\ (forall x y, image.In x y (image.Bounds bg) = true -> image.At bg x y = black)
    /\ fst testdata.rendered
       = <[fresh (dom testdata.dot_store) :=
            draw_bands testdata.env (screen_of testdata.narrow_display) (bands 16) bg]>
           testdata.dot_store
    /\ snd testdata.rendered
       = set_image (Some (fresh (dom testdata.dot_store)))
                   (set_screen (screen_of testdata.narrow_display) testdata.narrow_display).
Proof.
  apply (render_draws_lines_on_black testdata.env testdata.dot_store (fst testdata.rendered)
           testdata.narrow_display (snd testdata.rendered)).
  vm_compute. reflexivity.
Defined.

(** ** The JSON view *)

Lemma ServeJSON_screen (json_Encode : displayAsJSON -> string * option error) (d : Display) :
  ServeJSON json_Encode d
  = mkHTTPResponse 200 [("content-type", "application/json")]%string
      (fst (json_Encode (mkDisplayAsJSON (map string_of_list_byte (screen d))))).
Proof.
  unfold ServeJSON. do 2 f_equal.
  assert (Hloop : forall lines disp,
             foldl (fun disp l => mkDisplayAsJSON (Screen disp ++ [string_of_list_byte l]))
                   disp lines
             = mkDisplayAsJSON (Screen disp ++ map string_of_list_byte lines)).
  { induction lines as [|l lines IH]; intros disp; cbn [foldl map].
    - rewrite app_nil_r. now destruct disp.
    - rewrite IH. cbn [Screen]. now rewrite <- app_assoc. }
  rewrite Hloop. reflexivity.
Qed.

(** The JSON view after a render that returned, with or without an
    error of the font: status 200, and the screen encoded is the two
    texts of the measurements the render read, followed by empty
    strings, [Height / 8] entries in all. (After an error of the font
    the picture is still the one of the render before, while the JSON
    view has the new texts.) An error of the encoder does not change the
    status. *)
Theorem ServeJSON_after_render (json_Encode : displayAsJSON -> string * option error)
    (env : Env) (h h' : store) (d d' : Display) (err : option error) :
  render env h d = Normal (h', d', err) ->
  ServeJSON json_Encode d'
  = mkHTTPResponse 200 [("content-type", "application/json")]%string
      (fst (json_Encode
              (mkDisplayAsJSON
                 (string_of_list_byte (line0 d) :: string_of_list_byte (line1 d)
                    :: replicate (Z.to_nat (Height (outputConfig d) / 8) - 2) ""%string)))).
Proof.
  intros Hrender. rewrite ServeJSON_screen.
  destruct (render_result env h h' d d' err Hrender) as (_ & -> & _).
  assert (Hempty : forall k : nat,
             map string_of_list_byte (replicate k []) = replicate k ""%string).
  { induction k as [|k IH]; [reflexivity |]. cbn [replicate map]. now rewrite IH. }
  unfold screen_of. cbn [map]. rewrite Hempty. reflexivity.
Qed.

Lemma ServeJSON_after_render_witness :
  ServeJSON (fun disp => (String.concat "|" (Screen disp), None)) (snd testdata.rendered)
  = mkHTTPResponse 200 [("content-type", "application/json")]%string
      (fst (String.concat "|"
              (string_of_list_byte (line0 testdata.narrow_display)
                 :: string_of_list_byte (line1 testdata.narrow_display)
                 :: replicate (Z.to_nat (16 / 8) - 2) ""%string), @None error)).
Proof.
  apply (ServeJSON_after_render (fun disp => (String.concat "|" (Screen disp), None))
           testdata.env testdata.dot_store (fst testdata.rendered)
           testdata.narrow_display (snd testdata.rendered) None).
  vm_compute. reflexivity.
Defined.

(** ** One cycle of the timer *)

Lemma update_result (env : Env) (sched : list event) (d d' : Display) (r : option error) :
  update env sched d = Some (Normal (d', r)) ->
  same_output d d' /\ (r = None -> d' = run_in_order (jobs env) d).
Proof.
  unfold update, update_with. intros Hupdate.
  destruct (run_schedule _ sched _) as [[c | p] |] eqn:Hrun; try discriminate.
  destruct (received c =? _) eqn:Hdone; [| discriminate].
  apply Z.eqb_eq in Hdone. injection Hupdate as <- <-.
  destruct (run_is_in_order (jobs env) sched d c (jobs_commute env) Hrun) as [Hsnap Hseq].
  split.
  - rewrite Hsnap. apply (run_marked_same_output env (jobs env)). auto.
  - intros Hnone. apply Hseq; [exact Hdone |].
    unfold combined in Hnone. destruct (errs c) as [|e errs]; [reflexivity |].
    cbn in Hnone. discriminate.
Qed.

(** A cycle that returns nil, under every schedule of its goroutines:
    the display holds the measurements of the five jobs run one after
    another, the texts of these measurements, and a fresh buffer for the
    picture. No goroutine is left that could write a measurement after
    the texts were made. *)
Theorem UpdateOnce_shows_the_jobs_in_order (env : Env) (sched : list event)
    (h h' : store) (d d' : Display) :
  UpdateOnce env sched h d = Some (Normal (h', d', None)) ->
  d' = set_image (Some (fresh (dom h)))
         (set_screen (screen_of (run_in_order (jobs env) d)) (run_in_order (jobs env) d))
  /\ h !! fresh (dom h) = None
  /\ is_Some (h' !! fresh (dom h)).
Proof.
  unfold UpdateOnce. intros Hcycle.
  destruct (update env sched d) as [[[d1 [e |]] | p] |] eqn:Hupdate; try discriminate.
  destruct (update_result env sched d d1 None Hupdate) as [_ Hseq].
  rewrite <- (Hseq eq_refl).
  destruct (render env h d1) as [[[h1 d2] [e |]] | p] eqn:Hrender; try discriminate.
  injection Hcycle as <- <-.
  destruct (render_result env h h1 d1 d2 None Hrender) as (_ & _ & _ & _ & Hpicture).
  destruct (Hpicture eq_refl) as (bg & _ & _ & -> & ->).
  split; [reflexivity |]. split; [apply fresh_not_allocated |].
  rewrite lookup_insert_eq. eauto.
Qed.

Lemma UpdateOnce_shows_the_jobs_in_order_witness :
  exists h' d',
    UpdateOnce testdata.env_up testdata.all_finished ∅ (New (mkOutputConfig 64 32))
    = Some (Normal (h', d', None))
    /\ d' = set_image (Some (fresh (dom (∅ : store))))
              (set_screen
                 (screen_of (run_in_order (jobs testdata.env_up) (New (mkOutputConfig 64 32))))
                 (run_in_order (jobs testdata.env_up) (New (mkOutputConfig 64 32))))
    /\ (∅ : store) !! fresh (dom (∅ : store)) = None
    /\ is_Some (h' !! fresh (dom (∅ : store))).
Proof.
  eexists. eexists. split; [vm_compute; reflexivity |].
  eapply (UpdateOnce_shows_the_jobs_in_order testdata.env_up testdata.all_finished ∅).
  vm_compute. reflexivity.
Defined.

(** A cycle that returns an error: the picture the display points to is
    the one it pointed to before, and no buffer published before is
    written. When the error is that of [update], [render] has not run:
    the store and the texts are unchanged, while the measurements of the
    jobs that finished are written. When the error is that of [render],
    the texts are already those of the new measurements. *)
Theorem UpdateOnce_error_keeps_the_picture (env : Env) (sched : list event)
    (h h' : store) (d d' : Display) (err : error) :
  UpdateOnce env sched h d = Some (Normal (h', d', Some err)) ->
  image d' = image d
  /\ (forall l, is_Some (h !! l) -> h' !! l = h !! l)
  /\ ((exists e, update env sched d = Some (Normal (d', Some e))
                 /\ err = ("update: " +:+ e)%string /\ h' = h /\ screen d' = screen d)
      \/ (exists e, update env sched d = Some (Normal (run_in_order (jobs env) d, None))
                    /\ err = ("render: " +:+ e)%string
                    /\ screen d' = screen_of (run_in_order (jobs env) d))).
Proof.
  unfold UpdateOnce. intros Hcycle.
  destruct (update env sched d) as [[[d1 [e |]] | p] |] eqn:Hupdate; try discriminate.
  - injection Hcycle as <- <- <-.
    destruct (update_result env sched d d1 _ Hupdate) as [(_ & Himage & Hscreen) _].
    split; [exact Himage |]. split; [auto |]. left. exists e. auto.
  - destruct (update_result env sched d d1 None Hupdate) as [(_ & Himage & _) Hseq].
    rewrite <- (Hseq eq_refl).
    destruct (render env h d1) as [[[h1 d2] [e |]] | p] eqn:Hrender; try discriminate.
    injection Hcycle as <- <- <-.
    destruct (render_result env h h1 d1 d2 _ Hrender) as (_ & Hscreen & [b ->] & Himage' & _).
    split; [congruence |]. split.
    + intros l [x Hl]. apply lookup_insert_ne. intros E.
      pose proof (fresh_not_allocated h) as Hfresh. rewrite E in Hfresh. congruence.
    + right. exists e. auto.
Qed.

Lemma UpdateOnce_error_keeps_the_picture_witness :
  image (mkDisplay (mkOutputConfig 64 32) 0 65 42 50 0 0 time.zero None [])
  = image (New (mkOutputConfig 64 32))
  /\ (forall l, is_Some ((∅ : store) !! l) -> (∅ : store) !! l = (∅ : store) !! l)
  /\ ((exists e,
         update testdata.env testdata.early_return (New (mkOutputConfig 64 32))
         = Some (Normal (mkDisplay (mkOutputConfig 64 32) 0 65 42 50 0 0 time.zero None [],
                         Some e))
         /\ ("update: 1 errors: get temperature: query: query: connection refused"%string
             = "update: " +:+ e)%string
         /\ (∅ : store) = ∅
         /\ screen (mkDisplay (mkOutputConfig 64 32) 0 65 42 50 0 0 time.zero None [])
            = screen (New (mkOutputConfig 64 32)))
      \/ (exists e,
            update testdata.env testdata.early_return (New (mkOutputConfig 64 32))
            = Some (Normal (run_in_order (jobs testdata.env) (New (mkOutputConfig 64 32)), None))
            /\ ("update: 1 errors: get temperature: query: query: connection refused"%string
                = "render: " +:+ e)%string
            /\ screen (mkDisplay (mkOutputConfig 64 32) 0 65 42 50 0 0 time.zero None [])
               = screen_of (run_in_order (jobs testdata.env) (New (mkOutputConfig 64 32))))).
Proof.
  apply (UpdateOnce_error_keeps_the_picture testdata.env testdata.early_return ∅ ∅
           (New (mkOutputConfig 64 32))).
  vm_compute. reflexivity.
Defined.

(** ** The large picture of a rendered display *)

(** A request for the large picture once a picture has been rendered:
    status 200, and the PNG encoding of a fresh buffer sixteen times as
    wide and as high as the picture, in which every pixel of the picture
    shows as a square of 12 by 12 pixels of its colour inside a frame of
    2 pixels of the zero colour. The picture itself and every other
    buffer of the store stay as they are. *)
Theorem ServeLargePNG_rendered (env : Env) (d : Display) (h : store) (src : loc)
    (s : image.RGBA) :
  image d = Some src ->
  h !! src = Some s ->
  0 <= image.Dx (image.Bounds s) -> 0 <= image.Dy (image.Bounds s) ->
  exists big,
    ServeLargePNG env d h
    = (mkHTTPResponse 200 [("content-type", "image/png")]%string (fst (png_Encode env big)),
       <[fresh (dom h) := big]> h)
    /\ h !! fresh (dom h) = None
    /\ image.Bounds big = image.Rect 0 0 (16 * image.Dx (image.Bounds s))
                                         (16 * image.Dy (image.Bounds s))
    /\ forall x y,
         0 <= x < 16 * image.Dx (image.Bounds s) ->
         0 <= y < 16 * image.Dy (image.Bounds s) ->
         image.At big x y
         = if (2 <=? x mod 16) && (x mod 16 <=? 13) && (2 <=? y mod 16) && (y mod 16 <=? 13)
           then image.At s (x / 16) (y / 16)
           else color.zero.
Proof.
  intros Himg Hsrc Hdx Hdy. unfold ServeLargePNG.
  rewrite (enlargedImage_rendered d h src s 16 2 Himg Hsrc).
  destruct (At_enlarge_pixels s 16 2) as (_ & Hbounds & Hat); [lia | lia | exact Hdx | exact Hdy |].
  eexists. split.
  { unfold deref. rewrite lookup_insert_eq. reflexivity. }
  split; [apply fresh_not_allocated |]. split; [exact Hbounds |].
  intros x y Hx Hy. rewrite Hat. unfold enlarged_layer, in_blocks.
  rewrite (proj2 (Z.leb_le 0 (x / 16))), (proj2 (Z.ltb_lt (x / 16) _)) by zdiv.
  rewrite (proj2 (Z.leb_le 0 (y / 16))), (proj2 (Z.ltb_lt (y / 16) _)) by zdiv.
  cbn [andb].
  replace (x mod 16 <? 16 - 2) with (x mod 16 <=? 13) by (bool_cases; lia).
  replace (y mod 16 <? 16 - 2) with (y mod 16 <=? 13) by (bool_cases; lia).
  rewrite <- !andb_assoc.
  now destruct (_ && _).
Qed.

Lemma ServeLargePNG_rendered_witness :
  exists big,
    ServeLargePNG testdata.env testdata.dot_display testdata.dot_store
    = (mkHTTPResponse 200 [("content-type", "image/png")]%string
         (fst (png_Encode testdata.env big)),
       <[fresh (dom testdata.dot_store) := big]> testdata.dot_store)
    /\ testdata.dot_store !! fresh (dom testdata.dot_store) = None
    /\ image.Bounds big = image.Rect 0 0 (16 * image.Dx (image.Bounds testdata.dot))
                                         (16 * image.Dy (image.Bounds testdata.dot))
    /\ forall x y,
         0 <= x < 16 * image.Dx (image.Bounds testdata.dot) ->
         0 <= y < 16 * image.Dy (image.Bounds testdata.dot) ->
         image.At big x y
         = if (2 <=? x mod 16) && (x mod 16 <=? 13) && (2 <=? y mod 16) && (y mod 16 <=? 13)
           then image.At testdata.dot (x / 16) (y / 16)
           else color.zero.
Proof.
  apply (ServeLargePNG_rendered testdata.env testdata.dot_display testdata.dot_store
           1%positive testdata.dot).
  - reflexivity.
  - reflexivity.
  - vm_compute. discriminate.
  - vm_compute. discriminate.
Defined.

(** ** A record without a value *)

(** A goroutine whose job has not been run stays as it was started. *)
Lemma step_keeps_spawned (nq : Z) (e : event) (c c' : cycle) (k : nat) (g : goroutine) :
  step nq e c = Some (Normal c') ->
  e <> Finish k ->
  has_finished g = false ->
  goroutines c !! k = Some g ->
  goroutines c' !! k = Some g.
Proof.
  intros Hstep He Hg Hk.
  destruct e as [k' | k' | |]; cbn [step] in Hstep.
  - assert (Hne : k' <> k) by congruence.
    destruct (goroutines c !! k') as [[f op | | |]|]; try discriminate.
    destruct (f (snapshot c)) as [[d' [err |]] | p]; try discriminate;
      injection Hstep as <-; cbn [set_goroutine goroutines];
      now rewrite list_lookup_insert_ne.
  - destruct (received c <? nq); [| discriminate].
    destruct (goroutines c !! k') as [[f op | msg | |]|] eqn:Hk'; try discriminate;
      injection Hstep as <-; cbn [count_in set_goroutine goroutines];
      (destruct (decide (k' = k)) as [-> | Hne];
       [rewrite Hk in Hk'; injection Hk' as ->; discriminate
       | now rewrite list_lookup_insert_ne]).
  - injection Hstep as <-. exact Hk.
  - destruct (_ && _); [| discriminate]. injection Hstep as <-. exact Hk.
Qed.

Lemma run_keeps_spawned (nq : Z) (k : nat) (g : goroutine) (sched : list event) :
  has_finished g = false ->
  Finish k ∉ sched ->
  forall c c',
    run_schedule nq sched c = Some (Normal c') ->
    goroutines c !! k = Some g ->
    goroutines c' !! k = Some g.
Proof.
  intros Hg. induction sched as [|e rest IH]; intros Hnot c c' Hrun Hk.
  - now injection Hrun as <-.
  - cbn [run_schedule] in Hrun.
    destruct (step nq e c) as [[c1 | p] |] eqn:Hstep; try discriminate.
    apply not_elem_of_cons in Hnot as [He Hrest].
    apply (IH Hrest c1 c' Hrun).
    exact (step_keeps_spawned nq e c c1 k g Hstep (not_eq_sym He) Hg Hk).
Qed.

(** A query whose first record has no value makes its job panic, in
    [reflect.Value.Type] on the zero value. The job runs in a goroutine
    of [update], so the panic is that of the program: whatever the other
    goroutines and the loop have done before, [update] does not return
    once that job runs. *)
Theorem update_panics_on_record_without_value (env : Env) (k : nat) (q : Query)
    (pre post : list event) (d : Display) (c : cycle) :
  (k, q) ∈ [(0%nat, TemperatureLast); (1%nat, TemperatureMean);
            (2%nat, RelativeHumidityLast); (3%nat, RelativeHumidityMean)] ->
  influxClient env q = FirstRecord VNil ->
  run_schedule 5 pre (start (jobs env) d) = Some (Normal c) ->
  Finish k ∉ pre ->
  update env (pre ++ Finish k :: post) d = Some (Panic ReflectTypeOfZeroValue).
Proof.
  intros Hk Hq Hpre Hnot. unfold update, update_with.
  change (Z.of_nat (length (jobs env))) with 5.
  rewrite run_schedule_app, Hpre. cbn [run_schedule step].
  assert (Hjob : exists f op,
             goroutines (start (jobs env) d) !! k = Some (Spawned f op)
             /\ forall d0, f d0 = Panic ReflectTypeOfZeroValue).
  { repeat (apply elem_of_cons in Hk as [[= -> ->] | Hk]); [| | | | inversion Hk];
      eexists _, _; (split; [reflexivity |]); intros d0;
      unfold updateTemperature, updateLastHourTemperature, updateRelativeHumidity,
        updateLastHourRelativeHumidity, queryOneInflux; now rewrite Hq. }
  destruct Hjob as (f & op & Hstart & Hpanic).
  rewrite (run_keeps_spawned 5 k (Spawned f op) pre eq_refl Hnot _ c Hpre Hstart).
  now rewrite Hpanic.
Qed.

Lemma update_panics_on_record_without_value_witness :
  update testdata.env_without_value
         ([Finish 0; Receive 0; Receive 0; Finish 2] ++ Finish 1 :: [Receive 1])
         testdata.display
  = Some (Panic ReflectTypeOfZeroValue).
Proof.
  apply (update_panics_on_record_without_value testdata.env_without_value 1 TemperatureMean
           [Finish 0; Receive 0; Receive 0; Finish 2] [Receive 1] testdata.display
           testdata.before_panic).
  - right. left.
  - reflexivity.
  - reflexivity.
  - intros Hin. repeat (apply elem_of_cons in Hin as [Hin | Hin]; [discriminate Hin |]).
    inversion Hin.
Defined.

(** ** The sensor queries *)

(** The four sensor jobs: each returns nil exactly when the first record
    of its query holds a float64, and then it has assigned that value to
    its own field of the display and to nothing else. *)
Theorem sensor_jobs_assign_their_field (env : Env) (f : job) (q : Query)
    (set_field : float -> Display -> Display) (d d' : Display) :
  (f, q, set_field) ∈ [(updateTemperature env, TemperatureLast, set_Temperature);
                      (updateLastHourTemperature env, TemperatureMean, set_LastHourTemperature);
                      (updateRelativeHumidity env, RelativeHumidityLast, set_RelativeHumidity);
                      (updateLastHourRelativeHumidity env, RelativeHumidityMean,
                       set_LastHourRelativeHumidity)] ->
  f d = Normal (d', None)
  <-> exists x, influxClient env q = FirstRecord (VFloat64 x) /\ d' = set_field x d.
Proof.
  intros Hjob.
  repeat (apply elem_of_cons in Hjob as [[= -> -> ->] | Hjob]); [| | | | inversion Hjob];
    unfold updateTemperature, updateLastHourTemperature, updateRelativeHumidity,
      updateLastHourRelativeHumidity, queryOneInflux;
    (destruct (influxClient env _) as [e | cause | cause | [| x | syntax]]; cbn [wrap];
     (split; [intros [= <-]; eauto | intros (x' & [= <-] & ->); reflexivity])
     || (split; [discriminate | intros (x' & [=] & _)])).
Qed.

Lemma sensor_jobs_assign_their_field_witness :
  updateRelativeHumidity testdata.env testdata.display
  = Normal (set_RelativeHumidity 42 testdata.display, None)
  <-> exists x, influxClient testdata.env RelativeHumidityLast = FirstRecord (VFloat64 x)
                /\ set_RelativeHumidity 42 testdata.display
                   = set_RelativeHumidity x testdata.display.
Proof.
  apply (sensor_jobs_assign_their_field testdata.env (updateRelativeHumidity testdata.env)
           RelativeHumidityLast set_RelativeHumidity).
  right. right. left.
Defined.
